(** * Session manager of the Gemini web server: the streaming turn loop

    A shallow embedding of [SessionManager] (the web server's [session.ts]):
    the observer-facing event transform, the model fallback policy, the
    turn loop of [sendMessage], the scheduler callbacks of
    [executeToolsWithScheduler], and the two commands [confirmTool] and
    [cancelCurrentRequest].

    The program is asynchronous JavaScript.  It is embedded with explicit
    state passing: every operation takes the state of the manager (together
    with the heap of abort controllers) and returns the new state, the list
    of observable actions it performed, in order, and how it completed.
    The collaborators that are not part of the repository (the model
    session behind [client.sendMessageStream], the [CoreToolScheduler], the
    set-up of a new [Config] by [initialize] and [refreshAuth], and the
    websocket handler that calls [confirmTool], [cancelCurrentRequest] and
    [closeSession] while a turn is suspended) are an arbitrary environment.
    Logging and the random prompt id do not influence control flow and are
    left out. *)

From stdpp Require Import base list gmap strings.

Open Scope string_scope.
Open Scope list_scope.

(** ** JavaScript strings and thrown values *)

Module Js.

(** [haystack.includes(needle)] *)
Fixpoint includes (needle haystack : string) : bool :=
  String.prefix needle haystack
  || match haystack with
     | EmptyString => false
     | String _ rest => includes needle rest
     end.

(** [parts.join(sep)] *)
Fixpoint join (sep : string) (parts : list string) : string :=
  match parts with
  | [] => ""
  | [p] => p
  | p :: rest => p +:+ sep +:+ join sep rest
  end.

(** The line feed of a template literal. *)
Definition nl : string := String (Ascii.ascii_of_nat 10) EmptyString.

(** What a [throw] or a promise rejection carries: an [Error] instance
    with its [name] and [message], or any other value, of which only the
    result of [String(value)] matters. *)
Inductive Thrown :=
| ErrorObject (name message : string)
| OtherValue (asString : string).

(** [String(error)]; for an [Error] this is [Error.prototype.toString]. *)
Definition toString (error : Thrown) : string :=
  match error with
  | ErrorObject name message =>
      if String.eqb name "" then message
      else if String.eqb message "" then name
      else name +:+ ": " +:+ message
  | OtherValue s => s
  end.

(** [error instanceof Error ? error.message : fallback] *)
Definition messageOr (fallback : string) (error : Thrown) : string :=
  match error with
  | ErrorObject _ message => message
  | OtherValue _ => fallback
  end.

(** Assigning a property of [null]. *)
Definition TypeError_null : Thrown :=
  ErrorObject "TypeError" "Cannot set properties of null (setting 'abortController')".

Definition TypeError_config : Thrown :=
  ErrorObject "TypeError" "Cannot set properties of null (setting 'config')".

(** [String(obj)] for a plain object. *)
Definition objectObject : string := "[object Object]".

End Js.

(** ** Data of the collaborators *)

(** [Record<string, unknown>]: an opaque bag of arguments. *)
Definition Args := list (string * string).

(** [ToolCallRequestInfo] *)
Record ToolCallRequestInfo := {
  callId : string;
  name : string;
  args : Args;
}.

(** [Part] of the model-facing protocol.  The loop builds text parts and
    function responses; everything else is passed through unread. *)
Inductive Part :=
| TextPart (text : string)
| FunctionResponsePart (fname : string) (response : list (string * string))
| OpaquePart (payload : string).

(** [ToolCallConfirmationDetails]: the loop reads [type], [fileName] (of an
    edit) and [onConfirm], a closure of the scheduler which is identified
    here by a handle. *)
Record ToolCallConfirmationDetails := {
  dtype : string;
  fileName : option string;
  onConfirm : string;
}.

(** [ToolCallResponseInfo], read through [any]: besides the response parts
    the handlers probe [resultDisplay], [result] and [output], and fall back
    to [JSON.stringify(resp)], whose result is carried in [stringified]. *)
Record ToolCallResponseInfo := {
  responseParts : list Part;
  resultDisplay : option string;
  result : option string;
  output : option string;
  stringified : string;
}.

(** [StructuredError] of an error event. *)
Record StructuredError := {
  message : string;
  httpStatus : option nat;
}.

(** [ServerGeminiStreamEvent], by its [type] tag.  The source dispatches on
    seven tags; every other tag of [GeminiEventType] is [OtherEvent]. *)
Inductive ServerGeminiStreamEvent :=
| Content (value : option string)
| Thought (subject description : string)
| ToolCallRequest (value : ToolCallRequestInfo)
| ToolCallResponse (responseCallId : string) (display : option string)
| ToolCallConfirmation (request : ToolCallRequestInfo)
                       (details : ToolCallConfirmationDetails)
| Error (error : StructuredError)
| ChatCompressed
| OtherEvent (kind : string).

(** The [details] field of a confirmation request is [unknown]: the stream
    transform forwards the scheduler's details as they are, the scheduler
    callback sends a type and a description. *)
Inductive ConfirmDetails :=
| RawDetails (d : ToolCallConfirmationDetails)
| Described (type description : string).

(** [WebStreamEvent] *)
Inductive WebStreamEvent :=
| content (text : string)
| thought (text : string)
| tool_call (toolName : string) (args : Args)
| tool_result (toolName : string) (result : option string)
| tool_confirm_request (toolName : string) (args : Args) (details : ConfirmDetails)
| tool_cancelled (toolName : string)
| chat_compressed
| error (message : string)
| cancelled
| finished.

(** ** The event transform *)

(** [SessionManager.transformEvent] *)
Definition transformEvent (event : ServerGeminiStreamEvent) : option WebStreamEvent :=
  match event with
  | Content value => Some (content (default "" value))
  | Thought subject description => Some (thought (subject +:+ ": " +:+ description))
  | ToolCallRequest value => Some (tool_call (name value) (args value))
  | ToolCallResponse cid display => Some (tool_result cid display)
  | ToolCallConfirmation request details =>
      Some (tool_confirm_request (name request) (args request) (RawDetails details))
  | Error err => Some (error (message err))
  | ChatCompressed => Some chat_compressed
  | OtherEvent _ => None
  end.

(** ** Session state *)

(** The part of [Config] the loop depends on: the parameters it was built
    from. *)
Record Config := {
  sessionId : string;
  cwd : string;
  model : string;
}.

(** [WebSession].  [abortController] holds a reference into the heap of
    abort controllers of [World]. *)
Record WebSession := {
  id : string;
  projectPath : string;
  config : Config;
  abortController : option nat;
  currentModelIndex : nat;
}.

(** [ToolConfirmation] *)
Record ToolConfirmation := {
  pendingToolName : string;
  pendingArgs : Args;
  pendingDetails : ToolCallConfirmationDetails;
  pendingOnConfirm : string;
}.

(** The two private fields of [SessionManager], the heap of the
    [AbortController] objects allocated so far (each is its [aborted] flag;
    a signal is the address of its controller), and the number of times the
    environment has been consulted. *)
Record World := {
  session : option WebSession;
  pendingToolConfirmation : option ToolConfirmation;
  controllers : list bool;
  clock : nat;
}.

Definition with_session (w : World) (s : option WebSession) : World :=
  {| session := s;
     pendingToolConfirmation := pendingToolConfirmation w;
     controllers := controllers w;
     clock := clock w |}.

Definition with_pending (w : World) (p : option ToolConfirmation) : World :=
  {| session := session w;
     pendingToolConfirmation := p;
     controllers := controllers w;
     clock := clock w |}.

Definition with_controllers (w : World) (h : list bool) : World :=
  {| session := session w;
     pendingToolConfirmation := pendingToolConfirmation w;
     controllers := h;
     clock := clock w |}.

Definition tick (w : World) : World :=
  {| session := session w;
     pendingToolConfirmation := pendingToolConfirmation w;
     controllers := controllers w;
     clock := S (clock w) |}.

Definition with_abortController (s : WebSession) (c : option nat) : WebSession :=
  {| id := id s;
     projectPath := projectPath s;
     config := config s;
     abortController := c;
     currentModelIndex := currentModelIndex s |}.

(** [signal.aborted] *)
Definition aborted (w : World) (signal : nat) : bool :=
  default false (controllers w !! signal).

(** ** Scheduler data and the environment *)

Module Status.
(** The [status] tag of a scheduler tool call.  A call that awaits
    approval carries its [confirmationDetails]. *)
Inductive t :=
| validating
| scheduled
| executing
| awaiting_approval (confirmationDetails : ToolCallConfirmationDetails)
| success
| error
| cancelled.

Definition is_success (s : t) : bool :=
  match s with success => true | _ => false end.

Definition is_cancelled (s : t) : bool :=
  match s with cancelled => true | _ => false end.
End Status.

(** A tool call as the scheduler reports it, in an update or, with a
    terminal status, as a [CompletedToolCall]. *)
Record ToolCall := {
  request : ToolCallRequestInfo;
  status : Status.t;
  response : option ToolCallResponseInfo;
}.

Inductive ToolConfirmationOutcome := ProceedOnce | Cancel.

(** What the observer side may call on the session of a turn while the
    turn is suspended: [cancelCurrentRequest] (the websocket message
    [cancel] and [POST /api/chat/cancel]), [confirmTool] (the message
    [confirm_tool] and [POST /api/tool/confirm]) and [closeSession]
    ([DELETE /api/session]).  The runs of [sendMessage] below are those
    during which no session is created, the chat is not reset and no second
    turn is started. *)
Inductive External :=
| CancelCurrentRequest
| ConfirmTool (confirmed : bool)
| CloseSession.

(** One stream of the model session: what happens while the loop iterates
    over it, and how the iteration ends. *)
Inductive StreamStep :=
| Yield (event : ServerGeminiStreamEvent)
| During (x : External).

Inductive StreamEnd :=
| Exhausted
| Throws (err : Js.Thrown)
| Stalls.

Record Stream := {
  steps : list StreamStep;
  ending : StreamEnd;
}.

(** One run of a scheduler: the calls of [onToolCallsUpdate], interleaved
    with calls of the observer side, until the promise of
    [executeToolsWithScheduler] is settled by [onAllToolCallsComplete] or by
    a rejected [schedule], or never. *)
Inductive SchedulerStep :=
| Update (toolCalls : list ToolCall)
| Meanwhile (x : External).

Inductive SchedulerEnd :=
| AllComplete (completedToolCalls : list ToolCall)
| ScheduleRejects (err : Js.Thrown)
| NeverCompletes.

Record SchedulerRun := {
  updates : list SchedulerStep;
  settles : SchedulerEnd;
}.

(** The set-up of a new [Config] in [switchToNextModel]: what the observer
    side calls while [config.initialize()] and [config.refreshAuth(authType)]
    are awaited, and the error with which the construction or one of the two
    promises fails, if any. *)
Record ConfigSetup := {
  meanwhile : list External;
  rejects : option Js.Thrown;
}.

(** The environment: the stream answered to the [n]-th consultation when
    asked with a model and a message, the scheduler run answered to the
    [n]-th consultation when given a list of requests, and the set-up of the
    [Config] built at the [n]-th consultation for a model. *)
Record Env := {
  sendMessageStream : nat -> string -> list Part -> Stream;
  coreToolScheduler : nat -> list ToolCallRequestInfo -> SchedulerRun;
  configSetup : nat -> string -> ConfigSetup;
}.

(** What the manager does that its collaborators and the observer see. *)
Inductive Action :=
| onEvent (event : WebStreamEvent)
| openStream (model : string) (currentMessage : list Part) (signal : nat)
| schedule (request : ToolCallRequestInfo) (signal : nat)
| callOnConfirm (handle : string) (outcome : ToolConfirmationOutcome).

(** ** Model fallback policy *)

Definition MODEL_FALLBACK_CHAIN : list string :=
  ["gemini-2.5-pro"; "gemini-2.5-flash"; "gemini-2.0-flash"; "gemini-1.5-flash"].

(** [MODEL_FALLBACK_CHAIN[i]], printed: out of range it is [undefined]. *)
Definition chainAt (i : nat) : string :=
  default "undefined" (MODEL_FALLBACK_CHAIN !! i).

(** [SessionManager.getCurrentModel] *)
Definition getCurrentModel (w : World) : string :=
  match session w with
  | None => chainAt 0
  | Some s => chainAt (currentModelIndex s)
  end.

(** [SessionManager.isQuotaError], on [String(error)] *)
Definition isQuotaError (errorStr : string) : bool :=
  Js.includes "exhausted your capacity" errorStr
  || Js.includes "quota" errorStr
  || Js.includes "rate limit" errorStr
  || Js.includes "RESOURCE_EXHAUSTED" errorStr.

(** ** Commands of the observer side *)

(** [SessionManager.cancelCurrentRequest] *)
Definition cancelCurrentRequest (w : World) : World :=
  match session w with
  | Some s =>
      match abortController s with
      | Some k => with_controllers w (<[k := true]> (controllers w))
      | None => w
      end
  | None => w
  end.

(** [SessionManager.confirmTool].  An exception of [onConfirm] is caught
    and logged. *)
Definition confirmTool (confirmed : bool) (w : World) : World * list Action :=
  match pendingToolConfirmation w with
  | Some p =>
      let outcome := if confirmed then ProceedOnce else Cancel in
      (with_pending w None, [callOnConfirm (pendingOnConfirm p) outcome])
  | None => (w, [])
  end.

(** [SessionManager.closeSession] *)
Definition closeSession (w : World) : World :=
  match session w with
  | Some _ => with_session (cancelCurrentRequest w) None
  | None => w
  end.

Definition external (x : External) (w : World) : World * list Action :=
  match x with
  | CancelCurrentRequest => (cancelCurrentRequest w, [])
  | ConfirmTool confirmed => confirmTool confirmed w
  | CloseSession => (closeSession w, [])
  end.

Fixpoint externals (xs : list External) (w : World) : World * list Action :=
  match xs with
  | [] => (w, [])
  | x :: rest =>
      let '(w1, a1) := external x w in
      let '(w2, a2) := externals rest w1 in
      (w2, a1 ++ a2)
  end.

(** [SessionManager.switchToNextModel], awaited: the error it rejects with,
    or the boolean it resolves to.  The new [Config] is built from the
    session found at the call; it is stored, with the new index, in the
    session found once the set-up is over, which throws when the session was
    closed in between. *)
Definition switchToNextModel (env : Env) (w : World)
    : World * list Action * (Js.Thrown + bool) :=
  match session w with
  | None => (w, [], inr false)
  | Some s =>
      let nextIndex := currentModelIndex s + 1 in
      if bool_decide (length MODEL_FALLBACK_CHAIN <= nextIndex) then (w, [], inr false)
      else
        let nextModel := chainAt nextIndex in
        let config := {| sessionId := id s; cwd := projectPath s; model := nextModel |} in
        let setup := configSetup env (clock w) nextModel in
        let '(w1, a1) := externals (meanwhile setup) (tick w) in
        match rejects setup with
        | Some err => (w1, a1, inl err)
        | None =>
            match session w1 with
            | None => (w1, a1, inl Js.TypeError_config)
            | Some s1 =>
                (with_session w1 (Some {| id := id s1;
                                          projectPath := projectPath s1;
                                          config := config;
                                          abortController := abortController s1;
                                          currentModelIndex := nextIndex |}),
                 a1, inr true)
            end
        end
  end.

(** The set-up [switchToNextModel] awaits when called in the state [w] on
    the session [s]. *)
Definition setupFor (env : Env) (w : World) (s : WebSession) : ConfigSetup :=
  configSetup env (clock w) (chainAt (S (currentModelIndex s))).

(** ** Tool execution through the scheduler *)

(** The result shown for a successful call:
    [resp?.resultDisplay ?? resp?.result ?? resp?.output ??
     (resp ? JSON.stringify(resp) : 'Tool completed successfully')] *)
Definition shownResult (resp : option ToolCallResponseInfo) : string :=
  match resp with
  | None => "Tool completed successfully"
  | Some r =>
      match resultDisplay r, result r, output r with
      | Some d, _, _ => d
      | None, Some x, _ => x
      | None, None, Some o => o
      | None, None, None => stringified r
      end
  end.

(** The two local sets of [executeToolsWithScheduler]. *)
Record Reported := {
  reportedSuccess : gset string;
  reportedCancelled : gset string;
}.

(** The description sent with a confirmation request. *)
Definition describe (confirmDetails : ToolCallConfirmationDetails)
    (toolCall : ToolCall) : string :=
  if String.eqb (dtype confirmDetails) "edit"
  then "Edit file: " +:+ default "undefined" (fileName confirmDetails)
  else "Execute: " +:+ name (request toolCall).

(** The body of the loop of [onToolCallsUpdate], for one tool call. *)
Definition onToolCallUpdate (toolCall : ToolCall) (w : World) (rep : Reported)
    : World * Reported * list Action :=
  let cid := callId (request toolCall) in
  (* Handle awaiting_approval status *)
  let '(w1, a1) :=
    match status toolCall, pendingToolConfirmation w with
    | Status.awaiting_approval confirmDetails, None =>
        (with_pending w
           (Some {| pendingToolName := name (request toolCall);
                    pendingArgs := args (request toolCall);
                    pendingDetails := confirmDetails;
                    pendingOnConfirm := onConfirm confirmDetails |}),
         [onEvent (tool_confirm_request (name (request toolCall))
                     (args (request toolCall))
                     (Described (dtype confirmDetails)
                                (describe confirmDetails toolCall)))])
    | _, _ => (w, [])
    end in
  (* Emit result when completed *)
  let '(succ, a2) :=
    if Status.is_success (status toolCall)
       && negb (bool_decide (cid ∈ reportedSuccess rep))
    then ({[cid]} ∪ reportedSuccess rep,
          [onEvent (tool_result (name (request toolCall))
                      (Some (shownResult (response toolCall))))])
    else (reportedSuccess rep, []) in
  (* Handle cancelled *)
  let '(canc, a3) :=
    if Status.is_cancelled (status toolCall)
       && negb (bool_decide (cid ∈ reportedCancelled rep))
    then ({[cid]} ∪ reportedCancelled rep,
          [onEvent (tool_cancelled (name (request toolCall)))])
    else (reportedCancelled rep, []) in
  (w1, {| reportedSuccess := succ; reportedCancelled := canc |}, a1 ++ a2 ++ a3).

(** The [onToolCallsUpdate] callback. *)
Fixpoint onToolCallsUpdate (toolCalls : list ToolCall) (w : World) (rep : Reported)
    : World * Reported * list Action :=
  match toolCalls with
  | [] => (w, rep, [])
  | toolCall :: rest =>
      let '(w1, rep1, a1) := onToolCallUpdate toolCall w rep in
      let '(w2, rep2, a2) := onToolCallsUpdate rest w1 rep1 in
      (w2, rep2, a1 ++ a2)
  end.

(** The [onAllToolCallsComplete] callback, up to its [resolve]: results for
    the successful calls not yet reported. *)
Fixpoint onAllToolCallsComplete (completedToolCalls : list ToolCall)
    (succ : gset string) : list Action :=
  match completedToolCalls with
  | [] => []
  | call :: rest =>
      let cid := callId (request call) in
      if Status.is_success (status call) && negb (bool_decide (cid ∈ succ))
      then onEvent (tool_result (name (request call))
                      (Some (shownResult (response call))))
           :: onAllToolCallsComplete rest ({[cid]} ∪ succ)
      else onAllToolCallsComplete rest succ
  end.

(** The callbacks of one scheduler run, before the promise is settled. *)
Fixpoint schedulerSteps (todo : list SchedulerStep) (w : World) (rep : Reported)
    : World * Reported * list Action :=
  match todo with
  | [] => (w, rep, [])
  | Update toolCalls :: rest =>
      let '(w1, rep1, a1) := onToolCallsUpdate toolCalls w rep in
      let '(w2, rep2, a2) := schedulerSteps rest w1 rep1 in
      (w2, rep2, a1 ++ a2)
  | Meanwhile x :: rest =>
      let '(w1, a1) := external x w in
      let '(w2, rep2, a2) := schedulerSteps rest w1 rep in
      (w2, rep2, a1 ++ a2)
  end.

(** How an awaited promise ends. *)
Inductive Settled (A : Type) :=
| Resolved (a : A)
| Rejected (err : Js.Thrown)
| Pending.
Arguments Resolved {A} a.
Arguments Rejected {A} err.
Arguments Pending {A}.

(** [SessionManager.executeToolsWithScheduler], awaited: every request is
    handed to [schedule], then the callbacks of the run [run] fire. *)
Definition executeToolsWithScheduler (run : SchedulerRun)
    (toolCallRequests : list ToolCallRequestInfo) (signal : nat) (w : World)
    : World * list Action * Settled (list ToolCall) :=
  let scheduled := map (fun request => schedule request signal) toolCallRequests in
  let '(w1, rep1, a1) :=
    schedulerSteps (updates run) w
      {| reportedSuccess := ∅; reportedCancelled := ∅ |} in
  match settles run with
  | AllComplete completedToolCalls =>
      (w1,
       scheduled ++ a1 ++ onAllToolCallsComplete completedToolCalls (reportedSuccess rep1),
       Resolved completedToolCalls)
  | ScheduleRejects err => (w1, scheduled ++ a1, Rejected err)
  | NeverCompletes => (w1, scheduled ++ a1, Pending)
  end.

(** ** Response reconciliation *)

(** The fallback response for a call without response parts. *)
Definition fallbackResponse (completedCall : ToolCall) : Part :=
  FunctionResponsePart (name (request completedCall))
    [("error",
      if Status.is_cancelled (status completedCall)
      then "Tool execution was cancelled"
      else "Tool execution failed or returned no response")].

(** What one completed call adds to [toolResponseParts]:
    [completedCall.response?.responseParts?.length] decides. *)
Definition partsOfCall (completedCall : ToolCall) : list Part :=
  match response completedCall with
  | Some r =>
      match responseParts r with
      | [] => [fallbackResponse completedCall]
      | _ :: _ => responseParts r
      end
  | None => [fallbackResponse completedCall]
  end.

(** The loop that builds [toolResponseParts] from [completedCalls]. *)
Fixpoint toolResponseParts (completedCalls : list ToolCall) : list Part :=
  match completedCalls with
  | [] => []
  | completedCall :: rest => partsOfCall completedCall ++ toolResponseParts rest
  end.

(** ** The turn loop *)

Definition maxTurns : nat := 50.

(** How a block of [sendMessage] is left. *)
Inductive Exit :=
| Return                (* [return;], or the end of the block is reached *)
| ReturnSendMessage     (* [return this.sendMessage(message, onEvent);] *)
| Throw (err : Js.Thrown)
| Suspended.            (* an [await] that is never resumed *)

(** The text of the informational event of a switch. *)
Definition switchNotice (currentModel newModel : string) : string :=
  Js.nl +:+ Js.nl +:+ "⚠️ **" +:+ currentModel +:+ " 配额已用尽，已自动切换到 "
  +:+ newModel +:+ "**" +:+ Js.nl +:+ Js.nl.

(** The text of the final error once the chain is exhausted. *)
Definition exhaustedNotice : string :=
  "所有模型配额已用尽，请稍后再试。(" +:+ Js.join " → " MODEL_FALLBACK_CHAIN
  +:+ " 均不可用)".

(** [this.session!.abortController = null], which throws on a null session. *)
Definition clearAbortController (w : World) : option World :=
  match session w with
  | Some s => Some (with_session w (Some (with_abortController s None)))
  | None => None
  end.

(** The fallback attempt shared by the two error paths: switch, announce the
    switch, clear the controller and call [sendMessage] again.  An error of
    [switchToNextModel] is thrown on.  [None] when no switch was
    possible. *)
Definition attemptFallback (env : Env) (w : World)
    : option (World * list Action * Exit) :=
  let currentModel := getCurrentModel w in
  let '(w1, a1, switched) := switchToNextModel env w in
  match switched with
  | inl err => Some (w1, a1, Throw err)
  | inr true =>
      let newModel := getCurrentModel w1 in
      let notice := [onEvent (content (switchNotice currentModel newModel))] in
      match clearAbortController w1 with
      | Some w2 => Some (w2, a1 ++ notice, ReturnSendMessage)
      | None => Some (w1, a1 ++ notice, Throw Js.TypeError_null)
      end
  | inr false => None
  end.

(** [event.value.error.message || String(event.value.error)] *)
Definition errorMsgOf (err : StructuredError) : string :=
  if String.eqb (message err) "" then Js.objectObject else message err.

(** The [for await (const event of stream)] loop of one round.  It ends
    with the round's requests when the stream is exhausted, or leaves the
    [try] block. *)
Fixpoint forAwait (env : Env) (signal : nat) (todo : list StreamStep) (fin : StreamEnd)
    (toolCallRequests : list ToolCallRequestInfo) (w : World)
    : World * list Action * (Exit + list ToolCallRequestInfo) :=
  match todo with
  | [] =>
      match fin with
      | Exhausted => (w, [], inr toolCallRequests)
      | Throws err => (w, [], inl (Throw err))
      | Stalls => (w, [], inl Suspended)
      end
  | During x :: rest =>
      let '(w1, a1) := external x w in
      let '(w2, a2, r) := forAwait env signal rest fin toolCallRequests w1 in
      (w2, a1 ++ a2, r)
  | Yield event :: rest =>
      if aborted w signal then (w, [onEvent cancelled], inl Return)
      else
        (* Collect tool call requests *)
        let toolCallRequests :=
          match event with
          | ToolCallRequest value => toolCallRequests ++ [value]
          | _ => toolCallRequests
          end in
        (* Transform and emit event to frontend *)
        let forwarded :=
          match transformEvent event with
          | Some webEvent => [onEvent webEvent]
          | None => []
          end in
        (* Handle errors *)
        match event with
        | Error err =>
            let errorMsg := errorMsgOf err in
            let surface := (w, forwarded ++ [onEvent (error errorMsg)], inl Return) in
            if isQuotaError errorMsg then
              match attemptFallback env w with
              | Some (w1, a1, exit) => (w1, forwarded ++ a1, inl exit)
              | None => surface
              end
            else surface
        | _ =>
            let '(w2, a2, r) := forAwait env signal rest fin toolCallRequests w in
            (w2, forwarded ++ a2, r)
        end
  end.

(** How the promise returned by [sendMessage] ends.  [MoreRestarts] is the
    embedding running out of its bound on nested calls; [sendMessage] never
    yields it (see [sendMessage_total]). *)
Inductive Completion :=
| Returns
| Rejects (err : Js.Thrown)
| NeverSettles
| MoreRestarts.

Definition noActiveSession : Js.Thrown := Js.ErrorObject "Error" "No active session".

(** The [finally] block: [this.session.abortController = null]. *)
Definition finallyBlock (w : World) (c : Completion) : World * Completion :=
  match clearAbortController w with
  | Some w' => (w', c)
  | None => (w, Rejects Js.TypeError_null)
  end.

(** [sendMessage] from its call up to its first [await]: the session check,
    the client of the current config, and a new abort controller stored in
    the session.  [None] when no session is active. *)
Definition enter (w : World) : option (World * string * nat) :=
  match session w with
  | None => None
  | Some s =>
      let signal := length (controllers w) in
      let w1 := with_controllers w (controllers w ++ [false]) in
      Some (with_session w1 (Some (with_abortController s (Some signal))),
            model (config s), signal)
  end.

(** The [catch (error)] block. *)
Definition catchBlock (env : Env) (err : Js.Thrown) (signal : nat) (w : World)
    : World * list Action * Exit :=
  if isQuotaError (Js.toString err) then
    match attemptFallback env w with
    | Some r => r
    | None => (w, [onEvent (error exhaustedNotice)], Return)
    end
  else if aborted w signal then (w, [onEvent cancelled], Return)
  else (w, [onEvent (error (Js.messageOr "Unknown error" err))], Return).

Section WithEnvironment.

Variable env : Env.

(** The body of the [while] loop: one round.  It ends with the next
    [currentMessage], or leaves [sendMessage]. *)
Definition round (modelName : string) (signal : nat)
    (currentMessage : list Part) (w : World)
    : World * list Action * (Exit + list Part) :=
  let stream := sendMessageStream env (clock w) modelName currentMessage in
  let opened := openStream modelName currentMessage signal in
  let '(w1, a1, r) := forAwait env signal (steps stream) (ending stream) [] (tick w) in
  match r with
  | inl exit => (w1, opened :: a1, inl exit)
  | inr [] => (w1, opened :: a1 ++ [onEvent finished], inl Return)
  | inr ((_ :: _) as toolCallRequests) =>
      let run := coreToolScheduler env (clock w1) toolCallRequests in
      let '(w2, a2, settled) :=
        executeToolsWithScheduler run toolCallRequests signal (tick w1) in
      match settled with
      | Resolved completedCalls =>
          (w2, opened :: a1 ++ a2, inr (toolResponseParts completedCalls))
      | Rejected err => (w2, opened :: a1 ++ a2, inl (Throw err))
      | Pending => (w2, opened :: a1 ++ a2, inl Suspended)
      end
  end.

(** The [while (turnCount < maxTurns)] loop and the statement after it.
    [budget] is [maxTurns - turnCount]: the loop is left when it is 0. *)
Fixpoint whileLoop (budget : nat) (modelName : string) (signal : nat)
    (currentMessage : list Part) (w : World) : World * list Action * Exit :=
  match budget with
  | 0 => (w, [onEvent (error "Maximum conversation turns exceeded")], Return)
  | S budget' =>
      let '(w1, a1, r) := round modelName signal currentMessage w in
      match r with
      | inl exit => (w1, a1, exit)
      | inr toolResponse =>
          let '(w2, a2, exit) := whileLoop budget' modelName signal toolResponse w1 in
          (w2, a1 ++ a2, exit)
      end
  end.

(** The [try] block together with its [catch]. *)
Definition tryCatch (userMessage : string) (modelName : string) (signal : nat)
    (w : World) : World * list Action * Exit :=
  let '(w1, a1, exit) :=
    whileLoop maxTurns modelName signal [TextPart userMessage] w in
  match exit with
  | Throw err =>
      let '(w2, a2, exit') := catchBlock env err signal w1 in
      (w2, a1 ++ a2, exit')
  | _ => (w1, a1, exit)
  end.

(** [sendMessage] from its first [await] on.  On
    [return this.sendMessage(message, onEvent)] the promise of the new
    call is returned without being awaited: the new call runs up to its
    first [await] ([enter]), then the [finally] block of this call runs,
    and only then does the new call go on; this call settles as the new
    one does.  [restarts] bounds the nesting. *)
Fixpoint resume (restarts : nat) (userMessage modelName : string) (signal : nat)
    (w : World) : World * list Action * Completion :=
  let '(w1, a1, exit) := tryCatch userMessage modelName signal w in
  match exit with
  | Return =>
      let '(w2, c) := finallyBlock w1 Returns in (w2, a1, c)
  | Throw err =>
      let '(w2, c) := finallyBlock w1 (Rejects err) in (w2, a1, c)
  | Suspended => (w1, a1, NeverSettles)
  | ReturnSendMessage =>
      match enter w1 with
      | None =>
          let '(w2, c) := finallyBlock w1 (Rejects noActiveSession) in (w2, a1, c)
      | Some (w2, modelName', signal') =>
          match finallyBlock w2 Returns with
          | (w3, Returns) =>
              match restarts with
              | 0 => (w3, a1, MoreRestarts)
              | S restarts' =>
                  let '(w4, a2, c) :=
                    resume restarts' userMessage modelName' signal' w3 in
                  (w4, a1 ++ a2, c)
              end
          | (w3, c) => (w3, a1, c)
          end
      end
  end.

(** [SessionManager.sendMessage] *)
Definition sendMessage (userMessage : string) (w : World)
    : World * list Action * Completion :=
  match enter w with
  | None => (w, [], Rejects noActiveSession)
  | Some (w1, modelName, signal) =>
      resume (length MODEL_FALLBACK_CHAIN) userMessage modelName signal w1
  end.

End WithEnvironment.

(** ** Reading traces *)

(** The events the observer received, in order. *)
Fixpoint observed (acts : list Action) : list WebStreamEvent :=
  match acts with
  | [] => []
  | onEvent e :: rest => e :: observed rest
  | _ :: rest => observed rest
  end.

(** The three events on which an observer ends its loading state. *)
Definition terminal (e : WebStreamEvent) : bool :=
  match e with
  | error _ | cancelled | finished => true
  | _ => false
  end.


(** The tool call requests a stream yields, in the order it yields them. *)
Fixpoint requested (todo : list StreamStep) : list ToolCallRequestInfo :=
  match todo with
  | [] => []
  | Yield (ToolCallRequest value) :: rest => value :: requested rest
  | _ :: rest => requested rest
  end.

(** The streams opened under a signal that satisfies [f]. *)
Fixpoint streamsOpened (f : nat -> bool) (acts : list Action) : nat :=
  match acts with
  | [] => 0
  | openStream _ _ k :: rest => (if f k then 1 else 0) + streamsOpened f rest
  | _ :: rest => streamsOpened f rest
  end.

(** The rounds of the call of [sendMessage] that holds the given signal:
    the streams it opened. *)
Definition rounds (signal : nat) (acts : list Action) : nat :=
  streamsOpened (Nat.eqb signal) acts.

(** [n] rounds in a row, each of which ends with tool responses for the
    next; [None] if one of them leaves [sendMessage]. *)
Fixpoint roundsInARow (env : Env) (n : nat) (modelName : string) (signal : nat)
    (currentMessage : list Part) (w : World)
    : option (World * list Action * list Part) :=
  match n with
  | 0 => Some (w, [], currentMessage)
  | S n' =>
      match round env modelName signal currentMessage w with
      | (w1, a1, inr toolResponse) =>
          match roundsInARow env n' modelName signal toolResponse w1 with
          | Some (w2, a2, last) => Some (w2, a1 ++ a2, last)
          | None => None
          end
      | _ => None
      end
  end.

(** Events that report progress: those the transform forwards and the
    results and cancellations of tools.  The remaining ones are the two
    closing events [cancelled] and [finished], which only the turn loop
    emits, and the confirmation request of the scheduler callback. *)
Definition progress (e : WebStreamEvent) : bool :=
  match e with
  | cancelled | finished => false
  | tool_confirm_request _ _ (Described _ _) => false
  | _ => true
  end.

(** The two events only the turn loop emits, to close a turn. *)
Definition closing (e : WebStreamEvent) : bool :=
  match e with
  | cancelled | finished => true
  | _ => false
  end.

Definition noClosing (acts : list Action) : bool :=
  forallb (fun a => match a with onEvent e => negb (closing e) | _ => true end) acts.

(** A trace that ends with a terminal event, the only closing one. *)
Definition closed (acts : list Action) : Prop :=
  exists a0 e, acts = a0 ++ [onEvent e] /\ terminal e = true /\ noClosing a0 = true.

(** A confirmation request of the scheduler callback. *)
Definition asksConfirmation (a : Action) : bool :=
  match a with
  | onEvent (tool_confirm_request _ _ (Described _ _)) => true
  | _ => false
  end.

(** A resolution by [confirmTool]. *)
Definition resolves (a : Action) : bool :=
  match a with
  | callOnConfirm _ _ => true
  | _ => false
  end.

(** Reading a trace with the slot in mind: a confirmation request fills
    it and must find it empty, a resolution empties it.  The result is
    the state of the slot at the end, or [None] if a request was sent
    while one was pending. *)
Fixpoint singleFlight (pending : bool) (acts : list Action) : option bool :=
  match acts with
  | [] => Some pending
  | a :: rest =>
      if asksConfirmation a then
        if pending then None else singleFlight true rest
      else if resolves a then singleFlight false rest
      else singleFlight pending rest
  end.

Definition hasPendingConfirmation (w : World) : bool :=
  bool_decide (is_Some (pendingToolConfirmation w)).

(** The slot follows the trace, and is kept as it is as long as nothing is
    resolved. *)
Definition slotFollows (w : World) (acts : list Action) (w' : World) : Prop :=
  singleFlight (hasPendingConfirmation w) acts = Some (hasPendingConfirmation w')
  /\ forall p,
       pendingToolConfirmation w = Some p ->
       forallb (fun a => negb (resolves a)) acts = true ->
       pendingToolConfirmation w' = Some p
       /\ forallb (fun a => negb (asksConfirmation a)) acts = true.

(** Between a call of [sendMessage] and its fallback or its end, the
    session is either the one the call found or closed, and no abort
    controller is allocated. *)
Definition quiet (w : World) (acts : list Action) (w' : World) : Prop :=
  length (controllers w') = length (controllers w)
  /\ (session w' = session w \/ session w' = None).

(** The streams one call may open in all: a budget for the model it is on,
    and one for each model left in the chain. *)
Definition budgets (w : World) : nat :=
  match session w with
  | Some s => S (length MODEL_FALLBACK_CHAIN - S (currentModelIndex s))
  | None => 1
  end.




(** The last steps of a fallback, once the new [Config] is set up: the
    session moves to the next model of the chain, the switch is announced,
    and the abort controller is cleared. *)
Definition fallsBack (w : World) : option (World * list Action) :=
  match session w with
  | Some s =>
      if bool_decide (S (currentModelIndex s) < length MODEL_FALLBACK_CHAIN) then
        Some (with_session w
                (Some {| id := id s;
                         projectPath := projectPath s;
                         config := {| sessionId := id s;
                                      cwd := projectPath s;
                                      model := chainAt (S (currentModelIndex s)) |};
                         abortController := None;
                         currentModelIndex := S (currentModelIndex s) |}),
              [onEvent (content (switchNotice (chainAt (currentModelIndex s))
                                              (chainAt (S (currentModelIndex s)))))])
      else None
  | None => None
  end.

(** How a block was left, for a relation [P] between the state before, the
    actions and the state after that holds of the steps before: by [return]
    after one terminal event, by a fallback that calls [sendMessage] again,
    or otherwise. *)
Definition left (P : World -> list Action -> World -> Prop)
    (w : World) (acts : list Action) (exit : Exit) (w' : World) : Prop :=
  match exit with
  | Return =>
      exists a0 e, acts = a0 ++ [onEvent e] /\ terminal e = true /\ P w a0 w'
  | ReturnSendMessage =>
      exists w0 a0 a1,
        P w a0 w0
        /\ fallsBack w0 = Some (w', a1)
        /\ acts = a0 ++ a1
  | _ => P w acts w'
  end.

(** What holds when the [for await] loop, or a round, is done. *)
Definition done {A} (P : World -> list Action -> World -> Prop)
    (w : World) (acts : list Action) (r : Exit + A) (w' : World) : Prop :=
  match r with
  | inl exit => left P w acts exit w'
  | inr _ => P w acts w'
  end.

(** Actions that open no stream under a signal satisfying [f]. *)
Definition silent (f : nat -> bool) (w : World) (acts : list Action) (w' : World) : Prop :=
  streamsOpened f acts = 0.

(** ** Reading the reconciliation and the event table *)

(** The single part a call with at most one response part answers with. *)
Definition answerOf (completedCall : ToolCall) : Part :=
  match response completedCall with
  | Some {| responseParts := p :: _ |} => p
  | _ =>
      FunctionResponsePart (name (request completedCall))
        [("error",
          match status completedCall with
          | Status.cancelled => "Tool execution was cancelled"
          | _ => "Tool execution failed or returned no response"
          end)]
  end.

Definition atMostOnePart (completedCall : ToolCall) : Prop :=
  forall r, response completedCall = Some r -> length (responseParts r) <= 1.

(** The event table as the specification words it: five kinds are mapped,
    every other kind is dropped.  Only compared with [transformEvent]. *)
Definition transformEvent_as_specified (event : ServerGeminiStreamEvent)
    : option WebStreamEvent :=
  match event with
  | Content value => Some (content (default "" value))
  | Thought subject description => Some (thought (subject +:+ ": " +:+ description))
  | ToolCallRequest value => Some (tool_call (name value) (args value))
  | Error err => Some (error (message err))
  | ChatCompressed => Some chat_compressed
  | _ => None
  end.

(** ** Scenarios *)

Module Scenario.

Definition session0 (index : nat) : WebSession :=
  {| id := "s-1";
     projectPath := "/work";
     config := {| sessionId := "s-1"; cwd := "/work"; model := chainAt index |};
     abortController := None;
     currentModelIndex := index |}.

(** A manager with an active session on the model at [index]. *)
Definition active (index : nat) : World :=
  {| session := Some (session0 index);
     pendingToolConfirmation := None;
     controllers := [];
     clock := 0 |}.

(** The same manager once [sendMessage] has stored its abort
    controller. *)
Definition started : World :=
  {| session := Some (with_abortController (session0 0) (Some 0));
     pendingToolConfirmation := None;
     controllers := [false];
     clock := 0 |}.

(** A manager without a session. *)
Definition idle : World :=
  {| session := None;
     pendingToolConfirmation := None;
     controllers := [];
     clock := 0 |}.

(** The environment in which the [n]-th consultation is answered by the
    [n]-th entry of a script; past the script streams are empty. *)
Inductive Answer :=
| AStream (s : Stream)
| ARun (r : SchedulerRun)
| ASetup (c : ConfigSetup).

(** A [Config] that is set up without an error and undisturbed. *)
Definition ready : ConfigSetup := {| meanwhile := []; rejects := None |}.

Definition scripted (script : list Answer) : Env :=
  {| sendMessageStream n _ _ :=
       match script !! n with
       | Some (AStream s) => s
       | _ => {| steps := []; ending := Exhausted |}
       end;
     coreToolScheduler n _ :=
       match script !! n with
       | Some (ARun r) => r
       | _ => {| updates := []; settles := NeverCompletes |}
       end;
     configSetup n _ :=
       match script !! n with
       | Some (ASetup c) => c
       | _ => ready
       end |}.

Definition ls : ToolCallRequestInfo :=
  {| callId := "call-1"; name := "ls"; args := [("path", ".")] |}.

Definition lsResponse : ToolCallResponseInfo :=
  {| responseParts := [FunctionResponsePart "ls" [("output", "a.txt b.txt")]];
     resultDisplay := Some "a.txt b.txt";
     result := None;
     output := None;
     stringified := "{}" |}.

Definition lsDone : ToolCall :=
  {| request := ls; status := Status.success; response := Some lsResponse |}.

(** The first scenario of the specification: one tool call, then an
    answer. *)
Definition listFiles : Env :=
  scripted
    [AStream {| steps := [Yield (ToolCallRequest ls)]; ending := Exhausted |};
     ARun {| updates := [Update [lsDone]]; settles := AllComplete [lsDone] |};
     AStream {| steps := [Yield (Content (Some "Found 2 files"))];
                ending := Exhausted |}].

(** A model that asks for the same tool in every round, with a scheduler
    that completes it at once. *)
Definition insatiable : Env :=
  {| sendMessageStream _ _ _ :=
       {| steps := [Yield (ToolCallRequest ls)]; ending := Exhausted |};
     coreToolScheduler _ _ :=
       {| updates := []; settles := AllComplete [lsDone] |};
     configSetup _ _ := ready |}.

End Scenario.

Module Confirmations.

Definition rm : ToolCallRequestInfo :=
  {| callId := "call-2"; name := "shell"; args := [("cmd", "rm -rf .")] |}.

Definition write : ToolCallRequestInfo :=
  {| callId := "call-3"; name := "write_file"; args := [("path", "a.txt")] |}.

Definition askRm : ToolCallConfirmationDetails :=
  {| dtype := "exec"; fileName := None; onConfirm := "resolve call-2" |}.

Definition askWrite : ToolCallConfirmationDetails :=
  {| dtype := "edit"; fileName := Some "a.txt"; onConfirm := "resolve call-3" |}.

Definition call (r : ToolCallRequestInfo) (s : Status.t) : ToolCall :=
  {| request := r; status := s; response := None |}.

(** Two calls await approval at once; the first is denied, then the
    second is approved. *)
Definition twoAwaiting : Env :=
  Scenario.scripted
    [Scenario.AStream
       {| steps := [Yield (ToolCallRequest rm); Yield (ToolCallRequest write)];
          ending := Exhausted |};
     Scenario.ARun
       {| updates :=
            [Update [call rm (Status.awaiting_approval askRm);
                     call write (Status.awaiting_approval askWrite)];
             Update [call rm (Status.awaiting_approval askRm);
                     call write (Status.awaiting_approval askWrite)];
             Meanwhile (ConfirmTool false);
             Update [call rm Status.cancelled;
                     call write (Status.awaiting_approval askWrite)];
             Meanwhile (ConfirmTool true);
             Update [call rm Status.cancelled; call write Status.success]];
          settles := AllComplete [call rm Status.cancelled; call write Status.success] |};
     Scenario.AStream
       {| steps := [Yield (Content (Some "done"))]; ending := Exhausted |}].

(** The second scenario of the specification: the one call is denied. *)
Definition denied : Env :=
  Scenario.scripted
    [Scenario.AStream
       {| steps := [Yield (ToolCallRequest rm)]; ending := Exhausted |};
     Scenario.ARun
       {| updates :=
            [Update [call rm (Status.awaiting_approval askRm)];
             Meanwhile (ConfirmTool false);
             Update [call rm Status.cancelled]];
          settles := AllComplete [call rm Status.cancelled] |};
     Scenario.AStream
       {| steps := [Yield (Content (Some "Nothing was deleted"))];
          ending := Exhausted |}].

(** The scheduler reports a call that awaits approval and completes the
    run with nothing resolved; the next stream yields a confirmation event
    for another call. *)
Definition askedAgainByStream : Env :=
  Scenario.scripted
    [Scenario.AStream
       {| steps := [Yield (ToolCallRequest rm)]; ending := Exhausted |};
     Scenario.ARun
       {| updates := [Update [call rm (Status.awaiting_approval askRm);
                              call write (Status.awaiting_approval askWrite)]];
          settles := AllComplete [call rm Status.cancelled] |};
     Scenario.AStream
       {| steps := [Yield (ToolCallConfirmation write askWrite)];
          ending := Exhausted |}].

End Confirmations.

Module Reconciliation.

Definition readFile : ToolCallRequestInfo :=
  {| callId := "call-4"; name := "read_file"; args := [("path", "logo.png")] |}.

Definition grep : ToolCallRequestInfo :=
  {| callId := "call-5"; name := "grep"; args := [("pattern", "TODO")] |}.

(** A successful call whose response has two parts. *)
Definition image : ToolCall :=
  {| request := readFile;
     status := Status.success;
     response :=
       Some {| responseParts :=
                 [FunctionResponsePart "read_file"
                    [("output", "Binary content provided (1 item(s)).")];
                  OpaquePart "inlineData image/png"];
               resultDisplay := None; result := None; output := None;
               stringified := "{}" |} |}.

(** A failed call that carries a response part with its error. *)
Definition failed : ToolCall :=
  {| request := grep;
     status := Status.error;
     response :=
       Some {| responseParts := [FunctionResponsePart "grep" [("error", "ENOENT")]];
               resultDisplay := None; result := None; output := None;
               stringified := "{}" |} |}.

(** The stream asks for the two tools; the scheduler completes both, in
    the order of the requests. *)
Definition twoTools : Env :=
  Scenario.scripted
    [Scenario.AStream
       {| steps := [Yield (ToolCallRequest readFile); Yield (ToolCallRequest grep)];
          ending := Exhausted |};
     Scenario.ARun {| updates := []; settles := AllComplete [image; failed] |}].

End Reconciliation.

Module Failures.

Definition quotaError : StructuredError :=
  {| message := "You have exhausted your capacity on this model.";
     httpStatus := Some 429 |}.

Definition socketError : StructuredError :=
  {| message := "socket hang up"; httpStatus := None |}.

Definition quotaException : Js.Thrown :=
  Js.ErrorObject "Error" "429 RESOURCE_EXHAUSTED".

Definition answer : Scenario.Answer :=
  Scenario.AStream
    {| steps := [Yield (Content (Some "hi"))]; ending := Exhausted |}.

(** The first stream yields an error event; when the manager then sets up
    a [Config] for the next model, the set-up succeeds, and a second stream
    answers. *)
Definition errorEvent (err : StructuredError) : Env :=
  Scenario.scripted
    [Scenario.AStream {| steps := [Yield (Error err)]; ending := Exhausted |};
     Scenario.ASetup Scenario.ready;
     answer].

(** The first stream throws a quota error; the set-up of the next [Config]
    succeeds, and a second stream answers. *)
Definition thrown : Env :=
  Scenario.scripted
    [Scenario.AStream {| steps := []; ending := Throws quotaException |};
     Scenario.ASetup Scenario.ready;
     answer].

(** The user cancels twice, then the stream yields two events. *)
Definition cancelledTwice : Stream :=
  {| steps := [During CancelCurrentRequest; During CancelCurrentRequest;
               Yield (Content (Some "hi")); Yield (Content (Some "more"))];
     ending := Exhausted |}.

Definition cancelFirstCall : Env :=
  Scenario.scripted [Scenario.AStream cancelledTwice].

(** The same, in the call that follows a fallback. *)
Definition cancelAfterFallback : Env :=
  Scenario.scripted
    [Scenario.AStream {| steps := []; ending := Throws quotaException |};
     Scenario.ASetup Scenario.ready;
     Scenario.AStream cancelledTwice].

End Failures.

(** * The server around the session manager

    The rest of [SessionManager] and the code that calls it: the creation
    of a session, the token store and the middleware of [auth.ts], the
    handlers of [websocket.ts], the session and confirmation routes of
    [routes.ts] and the project roots of [config.ts].

    What reaches the server is parsed JSON of unknown type, so the handlers
    are embedded on JavaScript values; a handler that throws is embedded
    as such.  The handlers run one at a time here: what may interleave with
    a turn is the environment of [sendMessage] above.  Serialising a frame
    or a reply is taken to succeed. *)

(** ** Values of unknown type *)

Module Value.

(** A value as [JSON.parse] and [express.json()] produce it, and
    [undefined] for what is absent.  A number is its decimal text
    [String(n)], which is ["0"] for the two zeros and for nothing else.
    An object is the list of its own properties. *)
#[warnings="-register-all"]
Inductive t :=
| undefined
| null
| boolean (b : bool)
| number (printed : string)
| str (s : string)
| array (items : list t)
| object (fields : list (string * t)).

(** The value as a condition: [if (v)], [!v], [v || ...], [v ? ... : ...] *)
Definition truthy (v : t) : bool :=
  match v with
  | undefined | null => false
  | boolean b => b
  | number printed => negb (String.eqb printed "0")
  | str s => negb (String.eqb s "")
  | array _ | object _ => true
  end.

(** [v === true] *)
Definition isTrue (v : t) : bool :=
  match v with
  | boolean true => true
  | _ => false
  end.

(** [v === 'text'] *)
Definition equals (text : string) (v : t) : bool :=
  match v with
  | str s => String.eqb s text
  | _ => false
  end.

(** The own property [k] of an object. *)
Fixpoint field (k : string) (fields : list (string * t)) : t :=
  match fields with
  | [] => undefined
  | (k', v) :: rest => if String.eqb k k' then v else field k rest
  end.

(** [v.k] and [const { k } = v], for a name [k] that no prototype
    defines: [None] when it throws, which it does on [undefined] and
    [null]. *)
Definition get (k : string) (v : t) : option t :=
  match v with
  | undefined | null => None
  | object fields => Some (field k fields)
  | _ => Some undefined
  end.

(** How the engine names, in the text of its [TypeError], the value a
    property of which cannot be read. *)
Definition absent (v : t) : string :=
  match v with
  | null => "null"
  | _ => "undefined"
  end.

(** [String(v)], which is also the conversion of a template literal:
    [None] when it throws.  A parsed object holds no function, so one with
    an own [toString] cannot be converted. *)
Fixpoint toString (v : t) : option string :=
  match v with
  | undefined => Some "undefined"
  | null => Some "null"
  | boolean b => Some (if b then "true" else "false")
  | number printed => Some printed
  | str s => Some s
  | array items =>
      (fix joined (items : list t) : option string :=
         match items with
         | [] => Some ""
         | x :: rest =>
             let first :=
               match x with
               | undefined | null => Some ""
               | _ => toString x
               end in
             match rest with
             | [] => first
             | _ :: _ =>
                 match first, joined rest with
                 | Some a, Some b => Some (a +:+ "," +:+ b)
                 | _, _ => None
                 end
             end
         end) items
  | object fields =>
      if existsb (fun kv => String.eqb (fst kv) "toString") fields then None
      else Some Js.objectObject
  end.

End Value.

(** The [TypeError]s of the engine, with the texts of V8. *)
Definition TypeError (what : string) : Js.Thrown := Js.ErrorObject "TypeError" what.

(** ** Replies of the HTTP handlers *)

Module Http.

(** [res.status(code).json(body)] *)
Record Reply := {
  code : nat;
  body : Value.t;
}.

(** [res.json(body)] *)
Definition json (fields : list (string * Value.t)) : Reply :=
  {| code := 200; body := Value.object fields |}.

(** [res.status(code).json({ error })] *)
Definition failure (code : nat) (error : string) : Reply :=
  {| code := code; body := Value.object [("error", Value.str error)] |}.

Definition success : Reply := json [("success", Value.boolean true)].

End Http.

(** ** Creating a session *)

(** [AuthType], as far as [detectAuthType] chooses among its members. *)
Inductive AuthType := USE_GEMINI | USE_VERTEX_AI | LOGIN_WITH_GOOGLE.

(** [process.env]: the variables that are set, with their text. *)
Definition ProcessEnv := gmap string string.

(** [SessionManager.detectAuthType] *)
Definition detectAuthType (processEnv : ProcessEnv) : AuthType :=
  if Value.truthy (from_option Value.str Value.undefined (processEnv !! "GEMINI_API_KEY"))
  then USE_GEMINI
  else if bool_decide (processEnv !! "GOOGLE_GENAI_USE_VERTEXAI" = Some "true")
  then USE_VERTEX_AI
  else if bool_decide (processEnv !! "GOOGLE_GENAI_USE_GCA" = Some "true")
  then LOGIN_WITH_GOOGLE
  else USE_GEMINI.

(** What [createSession] gets from outside: the identifier drawn by
    [randomUUID], and whether [config.initialize()] and
    [config.refreshAuth(authType)] reject, and with what.  A failure of
    [mkdir] is caught and logged. *)
Record Startup := {
  randomUUID : string;
  initialize : option Js.Thrown;
  refreshAuth : AuthType -> option Js.Thrown;
}.

(** [SessionManager.createSession]: the new state, and the identifier it
    resolves with or the error it rejects with. *)
Definition createSession (boot : Startup) (processEnv : ProcessEnv)
    (projectPath : string) (w : World) : World * (Js.Thrown + string) :=
  (* Close existing session if any *)
  let w1 :=
    match session w with
    | Some _ => closeSession w
    | None => w
    end in
  let sessionId := randomUUID boot in
  let config :=
    {| sessionId := sessionId; cwd := projectPath; model := chainAt 0 |} in
  match initialize boot with
  | Some err => (w1, inl err)
  | None =>
      (* Set up authentication *)
      match refreshAuth boot (detectAuthType processEnv) with
      | Some err => (w1, inl err)
      | None =>
          (with_session w1 (Some {| id := sessionId;
                                    projectPath := projectPath;
                                    config := config;
                                    abortController := None;
                                    currentModelIndex := 0 |}),
           inr sessionId)
      end
  end.

(** [SessionManager.getSession] *)
Definition getSession (w : World) : option WebSession := session w.

(** [SessionManager.isSessionActive] *)
Definition isSessionActive (w : World) : bool :=
  bool_decide (is_Some (session w)).

(** [SessionManager.getProjectPath] *)
Definition getProjectPath (w : World) : option string :=
  projectPath <$> session w.

(** [SessionManager.getPendingConfirmation] *)
Definition getPendingConfirmation (w : World) : option ToolConfirmation :=
  pendingToolConfirmation w.

(** ** Authentication *)

Module Auth.

Definition VALID_USERNAME : string := "gemini".
Definition VALID_PASSWORD : string := "kingfisher".

(** [activeTokens] *)
Definition Tokens := gset string.

(** [validateCredentials], called on values of unknown type. *)
Definition validateCredentials (username password : Value.t) : bool :=
  Value.equals VALID_USERNAME username && Value.equals VALID_PASSWORD password.

(** [createToken], given the text [generateToken] draws. *)
Definition createToken (generated : string) (activeTokens : Tokens) : string * Tokens :=
  (generated, {[generated]} ∪ activeTokens).

(** [invalidateToken] *)
Definition invalidateToken (token : string) (activeTokens : Tokens) : Tokens :=
  activeTokens ∖ {[token]}.

(** [isValidToken] *)
Definition isValidToken (token : string) (activeTokens : Tokens) : bool :=
  bool_decide (token ∈ activeTokens).

(** [s.substring(n)] *)
Fixpoint substring (n : nat) (s : string) : string :=
  match n, s with
  | 0, _ => s
  | S n', String _ rest => substring n' rest
  | S _, EmptyString => EmptyString
  end.

(** The token of a request: [authHeader.substring(7)] when the header is
    there and starts with ['Bearer ']. *)
Definition bearer (authHeader : option string) : option string :=
  match authHeader with
  | Some header =>
      if negb (String.eqb header "") && String.prefix "Bearer " header
      then Some (substring 7 header)
      else None
  | None => None
  end.

(** What a handler or the middleware does with a request: it answers, it
    calls [next()], or it throws. *)
Inductive Answer :=
| replied (r : Http.Reply)
| next
| thrown (err : Js.Thrown).

(** [authMiddleware] *)
Definition authMiddleware (path : string) (authorization : option string)
    (activeTokens : Tokens) : Answer :=
  (* Skip auth for login endpoint and static files *)
  if String.eqb path "/api/auth/login"
     || String.eqb path "/api/auth/check"
     || negb (String.prefix "/api" path)
  then next
  else
    match bearer authorization with
    | None => replied (Http.failure 401 "Unauthorized")
    | Some token =>
        if negb (isValidToken token activeTokens)
        then replied (Http.failure 401 "Invalid token")
        else next
    end.

(** The handler of [POST /api/auth/login]. *)
Definition login (body : Value.t) (generated : string) (activeTokens : Tokens)
    : Answer * Tokens :=
  match Value.get "username" body, Value.get "password" body with
  | Some username, Some password =>
      if negb (Value.truthy username) || negb (Value.truthy password)
      then (replied (Http.failure 400 "Username and password required"), activeTokens)
      else if negb (validateCredentials username password)
      then (replied (Http.failure 401 "Invalid credentials"), activeTokens)
      else
        let '(token, activeTokens') := createToken generated activeTokens in
        (replied (Http.json [("token", Value.str token); ("username", username)]),
         activeTokens')
  | _, _ =>
      (thrown (TypeError ("Cannot destructure property 'username' of 'req.body' as it is "
                          +:+ Value.absent body +:+ ".")),
       activeTokens)
  end.

(** The handler of [POST /api/auth/logout]. *)
Definition logout (authorization : option string) (activeTokens : Tokens)
    : Answer * Tokens :=
  (replied Http.success,
   match bearer authorization with
   | Some token => invalidateToken token activeTokens
   | None => activeTokens
   end).

(** The handler of [GET /api/auth/check]. *)
Definition check (authorization : option string) (activeTokens : Tokens) : Answer :=
  match bearer authorization with
  | None => replied (Http.json [("authenticated", Value.boolean false)])
  | Some token =>
      replied (Http.json [("authenticated", Value.boolean (isValidToken token activeTokens))])
  end.

(** The requests that reach this module: one for each of the three
    handlers, and every other request, which passes the middleware. *)
Inductive Request :=
| Login (body : Value.t) (generated : string)
| Logout (authorization : option string)
| Check (authorization : option string)
| Other (path : string) (authorization : option string).

Definition handle (r : Request) (activeTokens : Tokens) : Answer * Tokens :=
  match r with
  | Login body generated => login body generated activeTokens
  | Logout authorization => logout authorization activeTokens
  | Check authorization => (check authorization activeTokens, activeTokens)
  | Other path authorization =>
      (authMiddleware path authorization activeTokens, activeTokens)
  end.

(** The requests of a run of the server, one after another. *)
Fixpoint serve (requests : list Request) (activeTokens : Tokens)
    : list Answer * Tokens :=
  match requests with
  | [] => ([], activeTokens)
  | r :: rest =>
      let '(answer, activeTokens1) := handle r activeTokens in
      let '(answers, activeTokens2) := serve rest activeTokens1 in
      (answer :: answers, activeTokens2)
  end.

(** A path the middleware guards. *)
Definition guarded (path : string) : bool :=
  negb (String.eqb path "/api/auth/login")
  && negb (String.eqb path "/api/auth/check")
  && String.prefix "/api" path.

(** A login that hands out [token]. *)
Definition issues (token : string) (r : Request) : bool :=
  match r with
  | Login body generated =>
      match Value.get "username" body, Value.get "password" body with
      | Some username, Some password =>
          validateCredentials username password && String.eqb generated token
      | _, _ => false
      end
  | _ => false
  end.

(** A logout that names [token]. *)
Definition revokes (token : string) (r : Request) : bool :=
  match r with
  | Logout authorization => bool_decide (bearer authorization = Some token)
  | _ => false
  end.

End Auth.

(** ** The websocket *)

Module Frame.

(** What [send] is given: the messages of the server to the client. *)
Inductive t :=
| connected
| session_info (id projectPath : string)
| stream (payload : WebStreamEvent)
| error (message : string)
| cancelled
| pong.

End Frame.

Module WebSocket.

(** How the promise of a handler ends. *)
Inductive Handled :=
| Completes
| Raises (err : Js.Thrown)
| Hangs.

(** [sendError] *)
Definition sendError (message : string) : list Frame.t := [Frame.error message].

(** The connection handler up to the frames it sends: [None] when the
    socket is closed with 1008.  [token] is the query parameter. *)
Definition onConnection (token : option string) (activeTokens : Auth.Tokens)
    (w : World) : option (list Frame.t) :=
  match token with
  | Some t =>
      if negb (String.eqb t "") && Auth.isValidToken t activeTokens then
        Some (Frame.connected ::
              match getSession w with
              | Some s => [Frame.session_info (id s) (projectPath s)]
              | None => []
              end)
      else None
  | None => None
  end.

(** Whether the first log line of [handleChatMessage] can be written.  It
    converts [message?.length || 0] to text; besides the conversions of
    [message.type] and of [confirmed], this is the one conversion the
    handlers apply to a value of the client. *)
Definition lengthLogged (payload : Value.t) : bool :=
  match payload with
  | Value.object fields =>
      let length := Value.field "length" fields in
      if Value.truthy length then bool_decide (is_Some (Value.toString length))
      else true
  | _ => true
  end.

Section Handlers.

Variable env : Env.

(** [handleChatMessage]: the new state, the actions of the manager, the
    frames given to [send], in order, and how the handler ends. *)
Definition handleChatMessage (payload : Value.t) (w : World)
    : World * list Action * list Frame.t * Handled :=
  if negb (lengthLogged payload) then
    (w, [], [], Raises (TypeError "Cannot convert object to primitive value"))
  else if negb (isSessionActive w) then
    (w, [], sendError "No active session. Please select a project first.", Completes)
  else
    match payload with
    | Value.str message =>
        if negb (Value.truthy payload) then
          (w, [], sendError "Message is required", Completes)
        else
          let '(w', acts, c) := sendMessage env message w in
          let frames := map Frame.stream (observed acts) in
          match c with
          | Returns => (w', acts, frames, Completes)
          | Rejects err =>
              (w', acts, frames ++ sendError (Js.messageOr "Chat error" err),
               Completes)
          | NeverSettles | MoreRestarts => (w', acts, frames, Hangs)
          end
    | _ => (w, [], sendError "Message is required", Completes)
    end.

(** [handleMessage] *)
Definition handleMessage (message : Value.t) (w : World)
    : World * list Action * list Frame.t * Handled :=
  match Value.get "type" message, Value.get "payload" message with
  | Some type, Some payload =>
      if Value.equals "chat" type then handleChatMessage payload w
      else if Value.equals "confirm_tool" type then
        match Value.get "confirmed" payload with
        | Some confirmed =>
            match Value.toString confirmed with
            | Some _ =>
                let '(w', acts) := confirmTool (Value.truthy confirmed) w in
                (w', acts, [], Completes)
            | None =>
                (w, [], [], Raises (TypeError "Cannot convert object to primitive value"))
            end
        | None =>
            (w, [], [],
             Raises (TypeError ("Cannot destructure property 'confirmed' of 'message.payload' as it is "
                                +:+ Value.absent payload +:+ ".")))
        end
      else if Value.equals "cancel" type then
        (cancelCurrentRequest w, [], [Frame.cancelled], Completes)
      else if Value.equals "ping" type then (w, [], [Frame.pong], Completes)
      else
        match Value.toString type with
        | Some printed =>
            (w, [], sendError ("Unknown message type: " +:+ printed), Completes)
        | None =>
            (w, [], [], Raises (TypeError "Cannot convert object to primitive value"))
        end
  | _, _ =>
      (w, [], [],
       Raises (TypeError ("Cannot read properties of " +:+ Value.absent message
                          +:+ " (reading 'type')")))
  end.

(** The handler of [ws.on('message')].  [data] is what [JSON.parse]
    returns, [None] when it throws. *)
Definition onMessage (data : option Value.t) (w : World)
    : World * list Action * list Frame.t * Handled :=
  let invalid := (w, [], sendError "Invalid message format", Completes) in
  match data with
  | None => invalid
  | Some message =>
      match Value.get "type" message with
      | None => invalid
      | Some type =>
          match Value.toString type with
          | None => invalid
          | Some _ =>
              let '(w', acts, frames, handled) := handleMessage message w in
              match handled with
              | Raises _ =>
                  (w', acts, frames ++ sendError "Invalid message format", Completes)
              | _ => (w', acts, frames, handled)
              end
          end
      end
  end.

End Handlers.

(** The events of the stream frames among the frames sent. *)
Fixpoint streamed (frames : list Frame.t) : list WebStreamEvent :=
  match frames with
  | [] => []
  | Frame.stream e :: rest => e :: streamed rest
  | _ :: rest => streamed rest
  end.

(** A frame on which the turn of the client is over: an error frame, or a
    stream frame with a terminal event. *)
Definition closes (frame : Frame.t) : bool :=
  match frame with
  | Frame.error _ => true
  | Frame.stream e => terminal e
  | _ => false
  end.

End WebSocket.

(** ** The routes of the session *)

Module Routes.

(** [fs.stat(path)], as far as the routes look at it. *)
Inductive Stat :=
| isDirectory
| notDirectory
| statFails.

Section Platform.

(** [path.sep] and [path.basename] of the platform, and the file system. *)
Variable sep : string.
Variable basename : string -> string.
Variable stat : string -> Stat.

(** The check of [POST /api/session] on a path that is a string:
    [projectRoots.some(root => projectPath.startsWith(root + path.sep)
                               || projectPath === root)] *)
Definition isAllowed (projectRoots : list string) (projectPath : string) : bool :=
  existsb (fun root => String.prefix (root +:+ sep) projectPath
                       || String.eqb projectPath root)
          projectRoots.

(** [GET /api/session] *)
Definition getSessionInfo (w : World) : Http.Reply :=
  match getSession w with
  | Some s =>
      Http.json [("active", Value.boolean true);
                 ("id", Value.str (id s));
                 ("projectPath", Value.str (projectPath s));
                 ("projectName", Value.str (basename (projectPath s)))]
  | None => Http.json [("active", Value.boolean false)]
  end.

(** [POST /api/session] *)
Definition postSession (projectRoots : list string) (boot : Startup)
    (processEnv : ProcessEnv) (body : Value.t) (w : World) : World * Http.Reply :=
  match Value.get "projectPath" body with
  | None =>
      (w, Http.failure 500
            ("Cannot destructure property 'projectPath' of 'req.body' as it is "
             +:+ Value.absent body +:+ "."))
  | Some projectPath =>
      if negb (Value.truthy projectPath) then
        (w, Http.failure 400 "projectPath is required")
      else
        match projectPath with
        | Value.str path =>
            (* Security: Ensure the project path is under one of the allowed roots *)
            if negb (isAllowed projectRoots path) then
              (w, Http.failure 403 "Access denied: project not in allowed roots")
            else
              (* Verify the path exists and is a directory *)
              match stat path with
              | notDirectory => (w, Http.failure 400 "Path is not a directory")
              | statFails => (w, Http.failure 400 "Directory does not exist")
              | isDirectory =>
                  match createSession boot processEnv path w with
                  | (w', inr sessionId) =>
                      (w', Http.json [("sessionId", Value.str sessionId);
                                      ("projectPath", projectPath);
                                      ("projectName", Value.str (basename path))])
                  | (w', inl err) =>
                      (w', Http.failure 500 (Js.messageOr "Failed to create session" err))
                  end
              end
        | _ =>
            match projectRoots with
            | [] => (w, Http.failure 403 "Access denied: project not in allowed roots")
            | _ :: _ => (w, Http.failure 500 "projectPath.startsWith is not a function")
            end
        end
  end.

(** [DELETE /api/session] *)
Definition deleteSession (w : World) : World * Http.Reply :=
  (closeSession w, Http.success).

End Platform.

(** [POST /api/tool/confirm]: [None] when the handler throws. *)
Definition postToolConfirm (body : Value.t) (w : World)
    : option (World * list Action * Http.Reply) :=
  match Value.get "confirmed" body with
  | None => None
  | Some confirmed =>
      if hasPendingConfirmation w then
        let '(w', acts) := confirmTool (Value.isTrue confirmed) w in
        Some (w', acts, Http.success)
      else Some (w, [], Http.failure 400 "No pending confirmation")
  end.

(** [POST /api/chat/cancel] *)
Definition postChatCancel (w : World) : World * Http.Reply :=
  (cancelCurrentRequest w, Http.success).

End Routes.

(** ** The configuration of the server *)

Module WebConfig.

(** Strings as the lists of their bytes, in UTF-8. *)
Definition chars (s : string) : list Ascii.ascii := String.list_ascii_of_string s.
Definition text (l : list Ascii.ascii) : string := String.string_of_list_ascii l.

Definition bytes (codes : list nat) : list Ascii.ascii := map Ascii.ascii_of_nat codes.

(** The code points [trim] removes: WhiteSpace and LineTerminator of
    ECMAScript (U+0009 to U+000D, U+0020, U+00A0, U+1680, U+2000 to
    U+200A, U+2028, U+2029, U+202F, U+205F, U+3000, U+FEFF). *)
Definition whiteSpace : list (list Ascii.ascii) :=
  map bytes
    [[9]; [10]; [11]; [12]; [13]; [32]; [194; 160]; [225; 154; 128];
     [226; 128; 128]; [226; 128; 129]; [226; 128; 130]; [226; 128; 131];
     [226; 128; 132]; [226; 128; 133]; [226; 128; 134]; [226; 128; 135];
     [226; 128; 136]; [226; 128; 137]; [226; 128; 138];
     [226; 128; 168]; [226; 128; 169]; [226; 128; 175]; [226; 129; 159];
     [227; 128; 128]; [239; 187; 191]].

(** [s] without its prefix [p]. *)
Fixpoint strip (p s : list Ascii.ascii) : option (list Ascii.ascii) :=
  match p, s with
  | [], _ => Some s
  | a :: p', b :: s' => if Ascii.eqb a b then strip p' s' else None
  | _ :: _, [] => None
  end.

(** [s] without the first of [patterns] it starts with. *)
Fixpoint stripAny (patterns : list (list Ascii.ascii)) (s : list Ascii.ascii)
    : option (list Ascii.ascii) :=
  match patterns with
  | [] => None
  | p :: others =>
      match strip p s with
      | Some rest => Some rest
      | None => stripAny others s
      end
  end.

(** Stripping as long as one of [patterns] is found, at most [n] times. *)
Fixpoint stripAll (patterns : list (list Ascii.ascii)) (n : nat) (s : list Ascii.ascii)
    : list Ascii.ascii :=
  match n with
  | 0 => s
  | S n' =>
      match stripAny patterns s with
      | Some rest => stripAll patterns n' rest
      | None => s
      end
  end.

(** [s.trimStart()], [s.trimEnd()] and [s.trim()] *)
Definition trimStart (s : list Ascii.ascii) : list Ascii.ascii :=
  stripAll whiteSpace (length s) s.

Definition trimEnd (s : list Ascii.ascii) : list Ascii.ascii :=
  rev (stripAll (map (@rev Ascii.ascii) whiteSpace) (length s) (rev s)).

Definition trim (s : string) : string := text (trimEnd (trimStart (chars s))).

(** The separator of [PROJECT_ROOTS], and the blank. *)
Definition comma : Ascii.ascii := Ascii.ascii_of_nat 44.
Definition space : Ascii.ascii := Ascii.ascii_of_nat 32.

(** [s.split(sep)] for a separator of one character. *)
Fixpoint splitChars (sep : Ascii.ascii) (s : list Ascii.ascii) : list (list Ascii.ascii) :=
  match s with
  | [] => [[]]
  | c :: rest =>
      if Ascii.eqb c sep then [] :: splitChars sep rest
      else
        match splitChars sep rest with
        | first :: others => (c :: first) :: others
        | [] => [[c]]
        end
  end.

Definition split (sep : Ascii.ascii) (s : string) : list string :=
  map text (splitChars sep (chars s)).

(** [WebConfig]; [number] is the type of [parseInt]'s results. *)
Record t (number : Type) := {
  projectRoots : list string;
  host : string;
  port : number;
  domain : option string;
}.
Arguments projectRoots {number} _.
Arguments host {number} _.
Arguments port {number} _.
Arguments domain {number} _.

Section Load.

Variable number : Type.
(** [parseInt(s, 10)] *)
Variable parseInt : string -> number.

(** [process.env.NAME || fallback] *)
Definition orElse (fallback : string) (value : option string) : string :=
  match value with
  | Some s => if String.eqb s "" then fallback else s
  | None => fallback
  end.

(** [loadConfig] *)
Definition loadConfig (processEnv : ProcessEnv) : t number :=
  let defaultRoots := ["G:\projects"; "J:\projects"] in
  (* Parse PROJECT_ROOTS from environment (comma-separated) *)
  let envRoots := processEnv !! "PROJECT_ROOTS" in
  let projectRoots :=
    match envRoots with
    | Some roots =>
        if String.eqb roots "" then defaultRoots
        else
          List.filter (fun p => negb (String.eqb p ""))
            (map trim (split comma roots))
    | None => defaultRoots
    end in
  {| projectRoots := projectRoots;
     host := orElse "0.0.0.0" (processEnv !! "HOST");
     port := parseInt (orElse "14000" (processEnv !! "PORT"));
     domain := processEnv !! "DOMAIN" |}.

End Load.

End WebConfig.

(** ** Reading the state of a session *)

(** The model of the session is the one its index names in the chain, and
    the index is within the chain; the [Config] was built for this
    session. *)
Definition coherent (s : WebSession) : Prop :=
  currentModelIndex s < length MODEL_FALLBACK_CHAIN
  /\ config s = {| sessionId := id s;
                   cwd := projectPath s;
                   model := chainAt (currentModelIndex s) |}.

(** The index of the session is within the chain and the model of its
    [Config] is the one the index names. *)
Definition onChain (s : WebSession) : Prop :=
  currentModelIndex s < length MODEL_FALLBACK_CHAIN
  /\ model (config s) = chainAt (currentModelIndex s).

(** Steps after which the session, if there is one, is on the chain when
    it was before. *)
Definition staysOnChain (w : World) (acts : list Action) (w' : World) : Prop :=
  (forall s, session w = Some s -> onChain s) ->
  forall s', session w' = Some s' -> onChain s'.


(** The four texts [isQuotaError] looks for. *)
Definition quotaSignatures : list string :=
  ["exhausted your capacity"; "quota"; "rate limit"; "RESOURCE_EXHAUSTED"].

(** ** Scenarios of the server *)

Module Server.

Definition boot : Startup :=
  {| randomUUID := "s-2"; initialize := None; refreshAuth _ := None |}.

Definition failing : Startup :=
  {| randomUUID := "s-2";
     initialize := Some (Js.ErrorObject "Error" "no settings");
     refreshAuth _ := None |}.

Definition unauthenticated : Startup :=
  {| randomUUID := "s-2";
     initialize := None;
     refreshAuth _ := Some (Js.ErrorObject "Error" "auth failed") |}.

(** A manager whose session has fallen back twice and has a turn in
    flight. *)
Definition busy : World :=
  {| session := Some (with_abortController (Scenario.session0 2) (Some 0));
     pendingToolConfirmation := None;
     controllers := [false];
     clock := 0 |}.

(** A manager without a turn in flight on which a confirmation is still
    pending. *)
Definition asked : World :=
  {| session := Some (Scenario.session0 0);
     pendingToolConfirmation :=
       Some {| pendingToolName := "shell";
               pendingArgs := [("cmd", "rm -rf .")];
               pendingDetails := Confirmations.askRm;
               pendingOnConfirm := "resolve call-2" |};
     controllers := [];
     clock := 0 |}.

(** The session is closed while the first stream is read. *)
Definition closedMeanwhile : Env :=
  Scenario.scripted
    [Scenario.AStream
       {| steps := [Yield (Content (Some "hi")); During CloseSession;
                    Yield (Content (Some "more"))];
          ending := Exhausted |}].

(** The first stream throws a quota error, and the authentication of the
    [Config] set up for the next model fails. *)
Definition authFails : Env :=
  Scenario.scripted
    [Scenario.AStream {| steps := []; ending := Throws Failures.quotaException |};
     Scenario.ASetup {| meanwhile := [];
                        rejects := Some (Js.ErrorObject "Error" "auth failed") |}].


(** The scheduler asks for approval and is never answered. *)
Definition unanswered : Env :=
  Scenario.scripted
    [Scenario.AStream
       {| steps := [Yield (ToolCallRequest Confirmations.write)]; ending := Exhausted |};
     Scenario.ARun
       {| updates :=
            [Update [Confirmations.call Confirmations.write
                       (Status.awaiting_approval Confirmations.askWrite)]];
          settles := NeverCompletes |}].

Definition credentials : Value.t :=
  Value.object [("username", Value.str "gemini"); ("password", Value.str "kingfisher")].

Definition chat (text : string) : Value.t :=
  Value.object [("type", Value.str "chat"); ("payload", Value.str text)].

Definition confirm (confirmed : Value.t) : Value.t :=
  Value.object [("type", Value.str "confirm_tool");
                ("payload", Value.object [("confirmed", confirmed)])].

End Server.

(** * Properties *)

(** ** The scenarios of the specification *)

Example listFiles_events :
  let '(_, acts, c) := sendMessage Scenario.listFiles "list files" (Scenario.active 0) in
  observed acts
  = [tool_call "ls" [("path", ".")];
     tool_result "ls" (Some "a.txt b.txt");
     content "Found 2 files";
     finished]
  /\ c = Returns.
Proof. vm_compute. split; reflexivity. Qed.

Example denied_actions :
  (sendMessage Confirmations.denied "delete everything" (Scenario.active 0)).1.2
  = [openStream "gemini-2.5-pro" [TextPart "delete everything"] 0;
     onEvent (tool_call "shell" [("cmd", "rm -rf .")]);
     schedule Confirmations.rm 0;
     onEvent (tool_confirm_request "shell" [("cmd", "rm -rf .")]
                (Described "exec" "Execute: shell"));
     callOnConfirm "resolve call-2" Cancel;
     onEvent (tool_cancelled "shell");
     openStream "gemini-2.5-pro"
       [FunctionResponsePart "shell" [("error", "Tool execution was cancelled")]] 0;
     onEvent (content "Nothing was deleted");
     onEvent finished].
Proof. vm_compute. reflexivity. Qed.

(** ** The event transform *)

(** C7, as stated, fails: a [ToolCallResponse] event is not among the five
    kinds the claim lists, and it is not dropped but sent on as a
    [tool_result]; likewise a [ToolCallConfirmation] event becomes a
    [tool_confirm_request]. *)
Lemma C7_unlisted_kind_not_dropped :
  transformEvent (ToolCallResponse "call-1" (Some "done"))
  = Some (tool_result "call-1" (Some "done"))
  /\ transformEvent_as_specified (ToolCallResponse "call-1" (Some "done")) = None
  /\ transformEvent (ToolCallConfirmation Scenario.ls
                       {| dtype := "exec"; fileName := None; onConfirm := "h" |})
     <> None.
Proof. repeat split; discriminate. Qed.

(** C7, amended: [transformEvent] is a function from stream events to at
    most one observer event (total and deterministic as such); it maps
    content to [content] (the empty text when the value is missing),
    a thought to [thought] with "subject: description", a tool call request
    to [tool_call], an error to [error] with its message, a compression to
    [chat_compressed], and also a tool call response to [tool_result] (named
    by the call id) and a tool call confirmation to [tool_confirm_request];
    exactly the events of every other kind are dropped.  It agrees with the
    table of the specification on every event but those two kinds. *)
Theorem C7_transformEvent_table :
  (forall text, transformEvent (Content (Some text)) = Some (content text))
  /\ transformEvent (Content None) = Some (content "")
  /\ (forall subject description,
        transformEvent (Thought subject description)
        = Some (thought (subject +:+ ": " +:+ description)))
  /\ (forall value,
        transformEvent (ToolCallRequest value)
        = Some (tool_call (name value) (args value)))
  /\ (forall err, transformEvent (Error err) = Some (error (message err)))
  /\ transformEvent ChatCompressed = Some chat_compressed
  /\ (forall cid display,
        transformEvent (ToolCallResponse cid display) = Some (tool_result cid display))
  /\ (forall request details,
        transformEvent (ToolCallConfirmation request details)
        = Some (tool_confirm_request (name request) (args request) (RawDetails details)))
  /\ (forall event, transformEvent event = None <-> exists kind, event = OtherEvent kind)
  /\ (forall event,
        transformEvent event = transformEvent_as_specified event
        \/ (exists cid display, event = ToolCallResponse cid display)
        \/ (exists request details, event = ToolCallConfirmation request details)).
Proof.
  repeat split; try reflexivity.
  - destruct event; try discriminate. eauto.
  - intros [kind ->]. reflexivity.
  - destruct event; eauto.
Qed.

(** ** Response reconciliation *)

Lemma partsOfCall_length (completedCall : ToolCall) :
  1 <= length (partsOfCall completedCall).
Proof.
  unfold partsOfCall.
  destruct (response completedCall) as [r|]; [|simpl; lia].
  destruct (responseParts r); simpl; lia.
Qed.

Lemma toolResponseParts_concat (completedCalls : list ToolCall) :
  toolResponseParts completedCalls = concat (map partsOfCall completedCalls).
Proof.
  induction completedCalls as [|c rest IH]; simpl; [reflexivity|].
  now rewrite IH.
Qed.

Lemma partsOfCall_single (completedCall : ToolCall) :
  atMostOnePart completedCall -> partsOfCall completedCall = [answerOf completedCall].
Proof.
  unfold atMostOnePart, partsOfCall, answerOf, fallbackResponse.
  intros H. destruct (response completedCall) as [r|] eqn:E.
  - specialize (H r eq_refl). destruct r as [ps ? ? ? ?]; simpl in *.
    destruct ps as [|p [|q ps]]; simpl in *; try lia; try reflexivity.
    destruct (status completedCall); reflexivity.
  - destruct (status completedCall); reflexivity.
Qed.

Lemma toolResponseParts_single (completedCalls : list ToolCall) :
  Forall atMostOnePart completedCalls ->
  toolResponseParts completedCalls = map answerOf completedCalls.
Proof.
  induction 1 as [|c rest Hc _ IH]; simpl; [reflexivity|].
  now rewrite partsOfCall_single, IH.
Qed.

(** The requests of a round are those its stream yielded, in that order. *)
Lemma forAwait_collects env signal todo fin : forall reqs w w' acts collected,
  forAwait env signal todo fin reqs w = (w', acts, inr collected) ->
  collected = reqs ++ requested todo.
Proof.
  induction todo as [|[event|x] rest IH]; intros reqs w w' acts collected H; simpl in H.
  - destruct fin; simplify_eq. rewrite app_nil_r. reflexivity.
  - destruct (aborted w signal); [discriminate|].
    destruct event;
      try (destruct (forAwait env signal rest fin _ w) as [[w2 a2] r2] eqn:E;
           simplify_eq; apply IH in E; simpl; rewrite E, <- ?app_assoc; reflexivity).
    repeat case_match; simplify_eq.
  - destruct (external x w) as [w1 a1].
    destruct (forAwait env signal rest fin reqs w1) as [[w2 a2] r2] eqn:E.
    simplify_eq. eauto.
Qed.

(** A round goes on exactly with the reconciled responses of the calls the
    scheduler completed for the requests of its stream. *)
Lemma round_reconciles env modelName signal currentMessage w w' acts next :
  round env modelName signal currentMessage w = (w', acts, inr next) ->
  let stream := sendMessageStream env (clock w) modelName currentMessage in
  exists w1 a1 completedCalls,
    forAwait env signal (steps stream) (ending stream) [] (tick w)
    = (w1, a1, inr (requested (steps stream)))
    /\ requested (steps stream) <> []
    /\ settles (coreToolScheduler env (clock w1) (requested (steps stream)))
       = AllComplete completedCalls
    /\ next = toolResponseParts completedCalls.
Proof.
  intros H stream. unfold round in H. fold stream in H.
  destruct (forAwait env signal (steps stream) (ending stream) [] (tick w))
    as [[w1 a1] r1] eqn:E1.
  destruct r1 as [exit|collected]; [discriminate|].
  pose proof (forAwait_collects _ _ _ _ _ _ _ _ _ E1) as Hc. simpl in Hc. subst collected.
  destruct (requested (steps stream)) as [|req reqs] eqn:Hreq; [discriminate|].
  unfold executeToolsWithScheduler in H.
  destruct (schedulerSteps _ _ _) as [[w2 rep2] a2].
  destruct (settles _) eqn:Hs; simplify_eq.
  exists w1, a1, completedToolCalls. repeat split; [discriminate|exact Hs].
Qed.

(** What the reconciliation does: the next message is built from the
    completed calls the scheduler hands over, in their order, as the
    concatenation of what each call contributes; a call that has response
    parts, whatever its status, contributes them as they are, and a call
    without contributes one function response named by the tool with the
    error text 'Tool execution was cancelled' when its status is cancelled
    and 'Tool execution failed or returned no response' otherwise.  Only
    when every completed call has at most one response part are there as
    many parts as calls. *)
Lemma reconciliation_by_completed_call (completedCalls : list ToolCall) :
  toolResponseParts completedCalls = concat (map partsOfCall completedCalls)
  /\ length completedCalls <= length (toolResponseParts completedCalls)
  /\ (forall completedCall r,
        response completedCall = Some r -> responseParts r <> [] ->
        partsOfCall completedCall = responseParts r)
  /\ (forall completedCall,
        (response completedCall = None
         \/ exists r, response completedCall = Some r /\ responseParts r = []) ->
        partsOfCall completedCall
        = [FunctionResponsePart (name (request completedCall))
             [("error",
               if Status.is_cancelled (status completedCall)
               then "Tool execution was cancelled"
               else "Tool execution failed or returned no response")]])
  /\ (Forall atMostOnePart completedCalls ->
      toolResponseParts completedCalls = map answerOf completedCalls).
Proof.
  split; [apply toolResponseParts_concat|]. split; [|split; [|split]].
  - induction completedCalls as [|c rest IH]; simpl; [lia|].
    rewrite length_app. pose proof (partsOfCall_length c). lia.
  - intros c r Hr Hne. unfold partsOfCall. rewrite Hr.
    destruct (responseParts r); [congruence|reflexivity].
  - intros c [Hnone | (r & Hr & Hps)]; unfold partsOfCall.
    + rewrite Hnone. reflexivity.
    + rewrite Hr, Hps. reflexivity.
  - apply toolResponseParts_single.
Qed.

(** C1 fails on the code.  The loop that builds the next message spreads
    all the response parts of a completed call into it and decides on the
    presence of parts, not on the status; when the count differs from the
    number of requests it only logs a warning.  In a round whose stream
    asked for two tools, completed in request order, the first successfully
    with two response parts and the second with an error that carries a
    response part, the next message has three parts for two requests, the
    second request is answered by the third part, and the failed call
    contributes its own part instead of the synthesized one: there is not
    one response per request, as the claim and the comment in the code ask
    for.  ([reconciliation_by_completed_call], [round_reconciles] and
    [forAwait_collects] give what does hold.) *)
Theorem C1_parts_not_one_per_request :
  let stream :=
    sendMessageStream Reconciliation.twoTools 0 "gemini-2.5-pro" [TextPart "look"] in
  let next :=
    [FunctionResponsePart "read_file" [("output", "Binary content provided (1 item(s)).")];
     OpaquePart "inlineData image/png";
     FunctionResponsePart "grep" [("error", "ENOENT")]] in
  requested (steps stream) = [Reconciliation.readFile; Reconciliation.grep]
  /\ map request [Reconciliation.image; Reconciliation.failed] = requested (steps stream)
  /\ (round Reconciliation.twoTools "gemini-2.5-pro" 0 [TextPart "look"]
        Scenario.started).2
     = inr next
  /\ length next <> length (requested (steps stream))
  /\ next !! 1 <> Some (FunctionResponsePart "grep" [("error", "ENOENT")])
  /\ partsOfCall Reconciliation.failed
     <> [FunctionResponsePart "grep"
           [("error", "Tool execution failed or returned no response")]]
  /\ (sendMessage Reconciliation.twoTools "look" (Scenario.active 0)).1.2 !! 6
     = Some (openStream "gemini-2.5-pro" next 0).
Proof. vm_compute. repeat split; first [reflexivity | discriminate]. Qed.

(** ** No active session *)

(** C10: with no active session [sendMessage] rejects with the error 'No
    active session'; it opens no stream, emits nothing, and leaves the
    state as it was. *)
Theorem C10_no_active_session (env : Env) (userMessage : string) (w : World) :
  session w = None ->
  sendMessage env userMessage w
  = (w, [], Rejects (Js.ErrorObject "Error" "No active session")).
Proof. intros H. unfold sendMessage, enter. rewrite H. reflexivity. Qed.

Lemma C10_no_active_session_witness :
  sendMessage Scenario.listFiles "list files" Scenario.idle
  = (Scenario.idle, [], Rejects (Js.ErrorObject "Error" "No active session")).
Proof. apply (C10_no_active_session Scenario.listFiles "list files" Scenario.idle). reflexivity. Defined.

(** ** The shape of every run *)

Lemma transformEvent_progress (event : ServerGeminiStreamEvent) (e : WebStreamEvent) :
  transformEvent event = Some e -> progress e = true.
Proof. destruct event; intros H; simplify_eq/=; reflexivity. Qed.

(** Between a call of [sendMessage] and its fallback or its end, the
    session is kept or closed. *)
Lemma cancelCurrentRequest_quiet (w : World) :
  quiet w [] (cancelCurrentRequest w).
Proof.
  unfold quiet, cancelCurrentRequest.
  destruct (session w) as [s|] eqn:Hs; [|auto].
  destruct (abortController s); simpl; [|auto].
  rewrite length_insert. auto.
Qed.

Lemma external_quiet (x : External) (w w' : World) (a : list Action) :
  external x w = (w', a) -> quiet w a w'.
Proof.
  destruct x; simpl; intros H.
  - simplify_eq. apply cancelCurrentRequest_quiet.
  - unfold confirmTool in H. destruct (pendingToolConfirmation w); simplify_eq;
      split; auto.
  - simplify_eq. unfold closeSession.
    destruct (session w) eqn:Hs; [|split; auto].
    destruct (cancelCurrentRequest_quiet w) as [Hlen _].
    split; simpl; auto.
Qed.

Lemma quiet_app w a w' b w'' :
  quiet w a w' -> quiet w' b w'' -> quiet w (a ++ b) w''.
Proof.
  intros [Hl1 Hs1] [Hl2 Hs2]. split; [congruence|].
  destruct Hs2 as [Hs2|Hs2]; [rewrite Hs2; assumption|auto].
Qed.

Lemma externals_quiet xs : forall w w' a,
  externals xs w = (w', a) -> quiet w a w'.
Proof.
  induction xs as [|x rest IH]; intros w w' a H; simpl in H.
  - simplify_eq. split; auto.
  - destruct (external x w) as [w1 a1] eqn:E1.
    destruct (externals rest w1) as [w2 a2] eqn:E2.
    simplify_eq. eapply quiet_app; eauto using external_quiet.
Qed.

(** What [switchToNextModel] does: nothing when no model is left; otherwise
    it waits for the set-up of the new [Config], and fails with the error
    of the set-up, fails on a session closed in between, or moves the
    session to the next model. *)
Lemma switchToNextModel_spec env (w w' : World) acts r :
  switchToNextModel env w = (w', acts, r) ->
  (r = inr false /\ w' = w /\ acts = []
   /\ forall s, session w = Some s ->
                length MODEL_FALLBACK_CHAIN <= S (currentModelIndex s))
  \/ exists s w0,
       session w = Some s
       /\ S (currentModelIndex s) < length MODEL_FALLBACK_CHAIN
       /\ externals (meanwhile (setupFor env w s)) (tick w) = (w0, acts)
       /\ ((exists err,
              r = inl err /\ w' = w0
              /\ (rejects (setupFor env w s) = Some err
                  \/ (rejects (setupFor env w s) = None /\ session w0 = None
                      /\ err = Js.TypeError_config)))
           \/ (r = inr true
               /\ rejects (setupFor env w s) = None
               /\ session w0 = Some s
               /\ w' = with_session w0
                         (Some {| id := id s;
                                  projectPath := projectPath s;
                                  config := {| sessionId := id s;
                                               cwd := projectPath s;
                                               model := chainAt (S (currentModelIndex s)) |};
                                  abortController := abortController s;
                                  currentModelIndex := S (currentModelIndex s) |}))).
Proof.
  unfold switchToNextModel, setupFor.
  destruct (session w) as [s|] eqn:Hs.
  2:{ intros H. injection H as <- <- <-. left. repeat split. congruence. }
  rewrite Nat.add_1_r. case_bool_decide as Hlen.
  { intros H. injection H as <- <- <-. left. repeat split.
    intros s0 E. injection E as <-. exact Hlen. }
  destruct (externals _ (tick w)) as [w0 a0] eqn:Hx.
  pose proof (externals_quiet _ _ _ _ Hx) as [_ Hkeep].
  intros H. right. exists s, w0.
  split; [reflexivity|]. split; [lia|].
  destruct (rejects _) as [err|] eqn:Hr.
  - injection H as <- <- <-. split; [exact Hx|]. left. exists err. auto.
  - destruct (session w0) as [s1|] eqn:Hs1.
    + injection H as <- <- <-. split; [exact Hx|]. right.
      assert (s1 = s) as -> by (destruct Hkeep as [E|E]; simpl in E; congruence).
      repeat split; assumption.
    + injection H as <- <- <-. split; [exact Hx|]. left.
      exists Js.TypeError_config. auto 10.
Qed.

Lemma fallsBack_spec (w w' : World) (acts : list Action) :
  fallsBack w = Some (w', acts) ->
  exists s,
    session w = Some s
    /\ S (currentModelIndex s) < length MODEL_FALLBACK_CHAIN
    /\ acts = [onEvent (content (switchNotice (chainAt (currentModelIndex s))
                                              (chainAt (S (currentModelIndex s)))))]
    /\ w' = with_session w
              (Some {| id := id s;
                       projectPath := projectPath s;
                       config := {| sessionId := id s;
                                    cwd := projectPath s;
                                    model := chainAt (S (currentModelIndex s)) |};
                       abortController := None;
                       currentModelIndex := S (currentModelIndex s) |}).
Proof.
  unfold fallsBack. destruct (session w) as [s|] eqn:Hs; [|discriminate].
  case_bool_decide as Hlt; [|discriminate].
  intros H. injection H as <- <-. exists s. auto.
Qed.

(** What a fallback attempt does once a model is left in the chain: it
    waits for the set-up of the new [Config], during which the observer side
    may act; then either the switch is completed and announced, or the error
    of the set-up (or of a session closed in between) is thrown on, with
    nothing announced. *)
Lemma attemptFallback_spec env (w w' : World) (acts : list Action) (exit : Exit) :
  attemptFallback env w = Some (w', acts, exit) ->
  exists s w0 a0,
    session w = Some s
    /\ S (currentModelIndex s) < length MODEL_FALLBACK_CHAIN
    /\ externals (meanwhile (setupFor env w s)) (tick w) = (w0, a0)
    /\ ((exit = ReturnSendMessage
         /\ rejects (setupFor env w s) = None
         /\ session w0 = Some s
         /\ (exists a1, fallsBack w0 = Some (w', a1) /\ acts = a0 ++ a1))
        \/ (exists err,
              exit = Throw err /\ w' = w0 /\ acts = a0
              /\ (rejects (setupFor env w s) = Some err
                  \/ (rejects (setupFor env w s) = None /\ session w0 = None
                      /\ err = Js.TypeError_config)))).
Proof.
  unfold attemptFallback.
  destruct (switchToNextModel env w) as [[w1 a1] r] eqn:Hsw.
  apply switchToNextModel_spec in Hsw
    as [(-> & _)|(s & w0 & Hs & Hlt & Hx & [(err & -> & -> & Herr)|(-> & Hr & Hs0 & ->)])].
  - discriminate.
  - intros H. injection H as <- <- <-. exists s, w0, a1. eauto 10.
  - unfold clearAbortController, getCurrentModel. cbn [session with_session].
    rewrite Hs. intros H. injection H as <- <- <-. exists s, w0, a1.
    split; [reflexivity|]. split; [exact Hlt|]. split; [exact Hx|]. left.
    split; [reflexivity|]. split; [exact Hr|]. split; [exact Hs0|].
    eexists. split; [|reflexivity].
    unfold fallsBack. rewrite Hs0, bool_decide_eq_true_2 by exact Hlt.
    reflexivity.
Qed.

Lemma attemptFallback_none env (w : World) :
  attemptFallback env w = None ->
  forall s, session w = Some s ->
  length MODEL_FALLBACK_CHAIN <= S (currentModelIndex s).
Proof.
  unfold attemptFallback.
  destruct (switchToNextModel env w) as [[w1 a1] r] eqn:Hsw.
  apply switchToNextModel_spec in Hsw
    as [(-> & _ & _ & Hn)|(s & w0 & _ & _ & _ & [(err & -> & _)|(-> & _ & _ & ->)])].
  - intros _. exact Hn.
  - discriminate.
  - unfold clearAbortController. simpl. discriminate.
Qed.

Section Runs.

(** A relation between the state before, the actions, and the state
    after, that holds of nothing done, is kept by doing one thing after
    another, and holds of each step the loop is made of but the closing
    events and the fallback. *)
Variable P : World -> list Action -> World -> Prop.
Hypothesis P_nil : forall w, P w [] w.
Hypothesis P_app :
  forall w a w' b w'', P w a w' -> P w' b w'' -> P w (a ++ b) w''.
Hypothesis P_tick : forall w, P w [] (tick w).
Hypothesis P_external :
  forall x w w' a, external x w = (w', a) -> P w a w'.
Hypothesis P_emit :
  forall w e, progress e = true -> P w [onEvent e] w.
Hypothesis P_request :
  forall w p n a t d,
    pendingToolConfirmation w = None ->
    P w [onEvent (tool_confirm_request n a (Described t d))]
      (with_pending w (Some p)).
Hypothesis P_schedule : forall w r k, P w [schedule r k] w.
Hypothesis P_open : forall w m msg k, P w [openStream m msg k] w.

Variable env : Env.

Lemma left_prepend w a w1 b exit w' :
  P w a w1 -> left P w1 b exit w' -> left P w (a ++ b) exit w'.
Proof using P_app.
  intros Ha. destruct exit; simpl.
  - intros (a0 & e & -> & He & H0). exists (a ++ a0), e.
    rewrite app_assoc. eauto.
  - intros (w0 & a0 & a1 & H0 & Hf & ->). exists w0, (a ++ a0), a1.
    rewrite app_assoc. eauto.
  - eauto.
  - eauto.
Qed.

Lemma left_closing w e :
  terminal e = true -> left P w [onEvent e] Return w.
Proof using P_nil. intros He. exists [], e. auto. Qed.

Lemma onToolCallUpdate_P toolCall w rep w' rep' acts :
  onToolCallUpdate toolCall w rep = (w', rep', acts) -> P w acts w'.
Proof using P_nil P_app P_emit P_request.
  unfold onToolCallUpdate. intros H.
  destruct (status toolCall) eqn:Hst, (pendingToolConfirmation w) eqn:Hp;
    simpl in H; repeat case_match; simplify_eq;
    repeat first [ apply P_nil
                 | apply P_emit; reflexivity
                 | apply P_request; assumption
                 | eapply P_app ].
Qed.

Lemma onToolCallsUpdate_P toolCalls : forall w rep w' rep' acts,
  onToolCallsUpdate toolCalls w rep = (w', rep', acts) -> P w acts w'.
Proof using P_nil P_app P_emit P_request.
  induction toolCalls as [|toolCall rest IH]; intros w rep w' rep' acts H; simpl in H.
  - simplify_eq. auto.
  - destruct (onToolCallUpdate toolCall w rep) as [[w1 rep1] a1] eqn:E1.
    destruct (onToolCallsUpdate rest w1 rep1) as [[w2 rep2] a2] eqn:E2.
    simplify_eq. eauto using onToolCallUpdate_P.
Qed.

Lemma schedulerSteps_P todo : forall w rep w' rep' acts,
  schedulerSteps todo w rep = (w', rep', acts) -> P w acts w'.
Proof using P_nil P_app P_emit P_request P_external.
  induction todo as [|[toolCalls|x] rest IH]; intros w rep w' rep' acts H; simpl in H.
  - simplify_eq. auto.
  - destruct (onToolCallsUpdate toolCalls w rep) as [[w1 rep1] a1] eqn:E1.
    destruct (schedulerSteps rest w1 rep1) as [[w2 rep2] a2] eqn:E2.
    simplify_eq. eauto using onToolCallsUpdate_P.
  - destruct (external x w) as [w1 a1] eqn:E1.
    destruct (schedulerSteps rest w1 rep) as [[w2 rep2] a2] eqn:E2.
    simplify_eq. eauto.
Qed.

Lemma onAllToolCallsComplete_P completed : forall succ w,
  P w (onAllToolCallsComplete completed succ) w.
Proof using P_nil P_app P_emit.
  induction completed as [|call rest IH]; intros succ w; simpl; [auto|].
  case_match; [|auto].
  change (P w ([onEvent (tool_result (name (request call))
                           (Some (shownResult (response call))))]
               ++ onAllToolCallsComplete rest ({[callId (request call)]} ∪ succ)) w).
  eapply P_app; [apply P_emit; reflexivity | apply IH].
Qed.

Lemma scheduled_P signal requests : forall w,
  P w (map (fun request => schedule request signal) requests) w.
Proof using P_nil P_app P_schedule.
  induction requests as [|r rest IH]; intros w; simpl; [auto|].
  change (P w ([schedule r signal] ++ map (fun request => schedule request signal) rest) w).
  eauto.
Qed.

Lemma executeToolsWithScheduler_P run requests signal w w' acts settled :
  executeToolsWithScheduler run requests signal w = (w', acts, settled) ->
  P w acts w'.
Proof using P_nil P_app P_emit P_request P_external P_schedule.
  unfold executeToolsWithScheduler.
  destruct (schedulerSteps _ _ _) as [[w1 rep1] a1] eqn:E1.
  apply schedulerSteps_P in E1.
  pose proof (scheduled_P signal requests w) as Hs.
  destruct (settles run); intros H; simplify_eq.
  - eapply P_app; [exact Hs|]. eapply P_app; [exact E1|].
    apply onAllToolCallsComplete_P.
  - eauto.
  - eauto.
Qed.

Lemma forwarded_P event w :
  P w match transformEvent event with
      | Some webEvent => [onEvent webEvent]
      | None => []
      end w.
Proof using P_nil P_emit.
  destruct (transformEvent event) as [e|] eqn:E; [|auto].
  apply P_emit. eauto using transformEvent_progress.
Qed.

Lemma done_prepend {A} w a w1 b (r : Exit + A) w' :
  P w a w1 -> done P w1 b r w' -> done P w (a ++ b) r w'.
Proof using P_app.
  destruct r; simpl; eauto using left_prepend.
Qed.

Lemma externals_P xs : forall w w' a,
  externals xs w = (w', a) -> P w a w'.
Proof using P_nil P_app P_external.
  induction xs as [|x rest IH]; intros w w' a H; simpl in H.
  - simplify_eq. auto.
  - destruct (external x w) as [w1 a1] eqn:E1.
    destruct (externals rest w1) as [w2 a2] eqn:E2.
    simplify_eq. eauto.
Qed.

(** A fallback attempt leaves the block: with the switch done, or with the
    error of the set-up. *)
Lemma attemptFallback_left w w' acts exit :
  attemptFallback env w = Some (w', acts, exit) -> left P w acts exit w'.
Proof using P_nil P_app P_tick P_external.
  intros H.
  apply attemptFallback_spec in H
    as (s & w0 & a0 & _ & _ & Hx
        & [(-> & _ & _ & a1 & Hf & ->)|(err & -> & -> & -> & _)]);
    apply externals_P in Hx;
    assert (H0 : P w a0 w0) by (change a0 with ([] ++ a0); eauto).
  - exists w0, a0, a1. auto.
  - exact H0.
Qed.

Lemma forAwait_done signal todo fin : forall reqs w w' acts r,
  forAwait env signal todo fin reqs w = (w', acts, r) -> done P w acts r w'.
Proof using P_nil P_app P_tick P_emit P_external.
  induction todo as [|[event|x] rest IH]; intros reqs w w' acts r H; simpl in H.
  - destruct fin; simplify_eq; simpl; auto.
  - destruct (aborted w signal).
    { simplify_eq. apply left_closing. reflexivity. }
    pose proof (forwarded_P event w) as Hf.
    assert (Hgive : forall msg,
      left P w (match transformEvent event with
              | Some webEvent => [onEvent webEvent]
              | None => []
              end ++ [onEvent (error msg)]) Return w).
    { intros msg. eapply left_prepend; [exact Hf|]. apply left_closing. reflexivity. }
    destruct event;
      try (destruct (forAwait env signal rest fin _ w) as [[w2 a2] r2] eqn:E;
           simplify_eq; apply IH in E; eapply done_prepend; eauto).
    destruct (isQuotaError _); [|simplify_eq; apply Hgive].
    destruct (attemptFallback env w) as [[[w1 a1] exit]|] eqn:Ef;
      [|simplify_eq; apply Hgive].
    simplify_eq. apply attemptFallback_left in Ef.
    exact (left_prepend _ _ _ _ _ _ Hf Ef).
  - destruct (external x w) as [w1 a1] eqn:E1.
    destruct (forAwait env signal rest fin reqs w1) as [[w2 a2] r2] eqn:E2.
    simplify_eq. apply IH in E2. eapply done_prepend; eauto.
Qed.

Lemma round_done modelName signal currentMessage w w' acts r :
  round env modelName signal currentMessage w = (w', acts, r) ->
  done P w acts r w'.
Proof using P_nil P_app P_tick P_emit P_request P_external P_schedule P_open.
  unfold round.
  destruct (forAwait env signal _ _ [] (tick w)) as [[w1 a1] r1] eqn:E1.
  apply forAwait_done in E1.
  assert (Hopen : P w [openStream modelName currentMessage signal] (tick w)).
  { rewrite <- (app_nil_r [_]). eauto. }
  destruct r1 as [exit|[|req reqs]]; intros H.
  - simplify_eq. apply (done_prepend w [_] (tick w) a1 (inl exit)); assumption.
  - simplify_eq. simpl in *. exists (openStream modelName currentMessage signal :: a1), finished.
    repeat split. apply (P_app w [_] (tick w)); assumption.
  - destruct (executeToolsWithScheduler _ _ _ _) as [[w2 a2] settled] eqn:E2.
    apply executeToolsWithScheduler_P in E2.
    assert (Hall : P w (openStream modelName currentMessage signal :: a1 ++ a2) w2).
    { apply (P_app w [_] (tick w)); [assumption|].
      apply (P_app _ a1 (tick w1)); [|assumption].
      rewrite <- (app_nil_r a1). eauto. }
    destruct settled; simplify_eq; exact Hall.
Qed.

Lemma whileLoop_left budget modelName signal : forall currentMessage w w' acts exit,
  whileLoop env budget modelName signal currentMessage w = (w', acts, exit) ->
  left P w acts exit w'.
Proof using P_nil P_app P_tick P_emit P_request P_external P_schedule P_open.
  induction budget as [|budget IH]; intros currentMessage w w' acts exit H; simpl in H.
  - simplify_eq. apply left_closing. reflexivity.
  - destruct (round env modelName signal currentMessage w) as [[w1 a1] r] eqn:E1.
    apply round_done in E1.
    destruct r as [exit1|next].
    + simplify_eq. exact E1.
    + destruct (whileLoop env budget modelName signal next w1) as [[w2 a2] exit2] eqn:E2.
      simplify_eq. apply IH in E2. eapply left_prepend; eauto.
Qed.

Lemma catchBlock_left err signal w w' acts exit :
  catchBlock env err signal w = (w', acts, exit) -> left P w acts exit w'.
Proof using P_nil P_app P_tick P_external.
  unfold catchBlock. intros H.
  destruct (isQuotaError _).
  - destruct (attemptFallback env w) as [[[w1 a1] exit1]|] eqn:Ef.
    + simplify_eq. apply attemptFallback_left. exact Ef.
    + simplify_eq. apply left_closing. reflexivity.
  - destruct (aborted w signal); simplify_eq; apply left_closing; reflexivity.
Qed.

Lemma tryCatch_left userMessage modelName signal w w' acts exit :
  tryCatch env userMessage modelName signal w = (w', acts, exit) ->
  left P w acts exit w'.
Proof using P_nil P_app P_tick P_emit P_request P_external P_schedule P_open.
  unfold tryCatch.
  destruct (whileLoop env maxTurns modelName signal _ w) as [[w1 a1] exit1] eqn:E1.
  apply whileLoop_left in E1.
  destruct exit1; intros H; simplify_eq; try exact E1.
  destruct (catchBlock env err signal w1) as [[w2 a2] exit2] eqn:E2.
  simplify_eq. apply catchBlock_left in E2.
  eapply left_prepend; eauto.
Qed.

(** When the relation also holds of the closing events, of the fallback,
    of entering [sendMessage] and of its [finally] block, it holds of
    every call of [sendMessage]. *)
Hypothesis P_closing :
  forall w e, terminal e = true -> P w [onEvent e] w.
Hypothesis P_fallback :
  forall w w' a, fallsBack w = Some (w', a) -> P w a w'.
Hypothesis P_enter :
  forall w w' m k, enter w = Some (w', m, k) -> P w [] w'.
Hypothesis P_finally :
  forall w c w' c', finallyBlock w c = (w', c') -> P w [] w'.

Lemma left_P w acts exit w' : left P w acts exit w' -> P w acts w'.
Proof using P_app P_closing P_fallback.
  destruct exit; simpl; auto.
  - intros (a0 & e & -> & He & H0). eauto.
  - intros (w0 & a0 & a1 & H0 & Hf & ->). eauto.
Qed.


Lemma P_then_nil w a w1 w' : P w a w1 -> P w1 [] w' -> P w a w'.
Proof using P_app. intros H1 H2. rewrite <- (app_nil_r a). eauto. Qed.

Lemma resume_P restarts : forall userMessage modelName signal w w' acts c,
  resume env restarts userMessage modelName signal w = (w', acts, c) ->
  P w acts w'.
Proof using All.
  induction restarts as [|restarts IH];
    intros userMessage modelName signal w w' acts c H; simpl in H;
    destruct (tryCatch env userMessage modelName signal w) as [[w1 a1] exit] eqn:Et;
    apply tryCatch_left in Et; apply left_P in Et;
    destruct exit.
  all: try solve [destruct (finallyBlock w1 _) as [w2 c2] eqn:Ef; simplify_eq;
                  eapply P_then_nil; eauto].
  all: try (simplify_eq; assumption).
  all: destruct (enter w1) as [[[w2 modelName'] signal']|] eqn:Ee;
    [|destruct (finallyBlock w1 _) as [w2 c2] eqn:Ef; simplify_eq;
      eapply P_then_nil; eauto].
  all: destruct (finallyBlock w2 Returns) as [w3 c3] eqn:Ef.
  all: pose proof (P_enter _ _ _ _ Ee) as He;
    pose proof (P_finally _ _ _ _ Ef) as Hf;
    assert (H3 : P w a1 w3)
      by (eapply P_then_nil; [eapply P_then_nil; [exact Et|exact He]|exact Hf]).
  all: destruct c3; try (simplify_eq; assumption).
  destruct (resume env restarts userMessage modelName' signal' w3)
    as [[w4 a2] c4] eqn:Er.
  simplify_eq. eauto.
Qed.

Lemma sendMessage_P userMessage w w' acts c :
  sendMessage env userMessage w = (w', acts, c) -> P w acts w'.
Proof using All.
  unfold sendMessage.
  destruct (enter w) as [[[w1 modelName] signal]|] eqn:Ee; intros H.
  - apply resume_P in H. apply P_enter in Ee.
    change acts with ([] ++ acts). eauto.
  - simplify_eq. auto.
Qed.

End Runs.

(** ** The session during a turn *)

Lemma tryCatch_quiet env userMessage modelName signal w w' acts exit :
  tryCatch env userMessage modelName signal w = (w', acts, exit) ->
  left quiet w acts exit w'.
Proof.
  apply tryCatch_left.
  - split; auto.
  - apply quiet_app.
  - split; auto.
  - apply external_quiet.
  - split; auto.
  - split; auto.
  - split; auto.
  - split; auto.
Qed.

(** Where a call that ends in [return this.sendMessage(...)] leaves the
    session: on the next model of the chain, with no abort controller. *)
Lemma tryCatch_restart env userMessage modelName signal w w' acts :
  tryCatch env userMessage modelName signal w = (w', acts, ReturnSendMessage) ->
  exists s,
    session w = Some s
    /\ S (currentModelIndex s) < length MODEL_FALLBACK_CHAIN
    /\ length (controllers w') = length (controllers w)
    /\ session w'
       = Some {| id := id s;
                 projectPath := projectPath s;
                 config := {| sessionId := id s;
                              cwd := projectPath s;
                              model := chainAt (S (currentModelIndex s)) |};
                 abortController := None;
                 currentModelIndex := S (currentModelIndex s) |}.
Proof.
  intros H. apply tryCatch_quiet in H as (w0 & a0 & a1 & [Hlen Hs] & Hf & _).
  apply fallsBack_spec in Hf as (s & Hs0 & Hlt & _ & ->).
  exists s. simpl. repeat split; try assumption.
  destruct Hs as [Hs|Hs]; congruence.
Qed.

Lemma enter_spec (w w' : World) (modelName : string) (signal : nat) :
  enter w = Some (w', modelName, signal) ->
  exists s,
    session w = Some s
    /\ modelName = model (config s)
    /\ signal = length (controllers w)
    /\ controllers w' = controllers w ++ [false]
    /\ session w' = Some (with_abortController s (Some signal))
    /\ pendingToolConfirmation w' = pendingToolConfirmation w.
Proof.
  unfold enter. destruct (session w) as [s|]; [|discriminate].
  intros H. injection H as <- <- <-. exists s. repeat split.
Qed.

Lemma finallyBlock_spec (w w' : World) (c c' : Completion) :
  finallyBlock w c = (w', c') ->
  controllers w' = controllers w
  /\ pendingToolConfirmation w' = pendingToolConfirmation w
  /\ ((exists s, session w = Some s
                 /\ session w' = Some (with_abortController s None) /\ c' = c)
      \/ (session w = None /\ w' = w /\ c' = Rejects Js.TypeError_null)).
Proof.
  unfold finallyBlock, clearAbortController.
  destruct (session w) as [s|] eqn:Hs; intros H; simplify_eq; simpl; eauto 10.
Qed.



(** ** The abort controller *)





(** ** The pending confirmation *)

Lemma singleFlight_app (a b : list Action) : forall pending,
  singleFlight pending (a ++ b)
  = match singleFlight pending a with
    | Some pending' => singleFlight pending' b
    | None => None
    end.
Proof.
  induction a as [|x a IH]; intros pending; simpl; [reflexivity|].
  destruct (asksConfirmation x); [destruct pending; auto|].
  destruct (resolves x); auto.
Qed.

Lemma slotFollows_same (w w' : World) (acts : list Action) :
  pendingToolConfirmation w' = pendingToolConfirmation w ->
  forallb (fun a => negb (asksConfirmation a) && negb (resolves a)) acts = true ->
  slotFollows w acts w'.
Proof.
  intros Hp Hacts. unfold slotFollows, hasPendingConfirmation. rewrite Hp.
  split.
  - generalize (bool_decide (is_Some (pendingToolConfirmation w))).
    induction acts as [|a acts IH]; intros b; simpl in *; [reflexivity|].
    apply andb_prop in Hacts as [Ha Hacts]. apply andb_prop in Ha as [Ha1 Ha2].
    destruct (asksConfirmation a); [discriminate|].
    destruct (resolves a); [discriminate|]. auto.
  - intros p Hw _. split; [assumption|].
    induction acts as [|a acts IH]; simpl in *; [reflexivity|].
    apply andb_prop in Hacts as [Ha Hacts]. apply andb_prop in Ha as [-> _].
    simpl. auto.
Qed.

Lemma slotFollows_app w a w' b w'' :
  slotFollows w a w' -> slotFollows w' b w'' -> slotFollows w (a ++ b) w''.
Proof.
  intros [H1 K1] [H2 K2]. split.
  - rewrite singleFlight_app, H1. exact H2.
  - intros p Hp Hres. rewrite forallb_app in Hres.
    apply andb_prop in Hres as [Ha Hb].
    destruct (K1 p Hp Ha) as [Hp' Ha'].
    destruct (K2 p Hp' Hb) as [Hp'' Hb'].
    split; [assumption|]. rewrite forallb_app, Ha', Hb'. reflexivity.
Qed.

Lemma slotFollows_external x w w' a :
  external x w = (w', a) -> slotFollows w a w'.
Proof.
  destruct x; simpl; intros H.
  - simplify_eq. apply slotFollows_same; [|reflexivity].
    unfold cancelCurrentRequest. repeat case_match; reflexivity.
  - unfold confirmTool in H.
    destruct (pendingToolConfirmation w) as [p|] eqn:Hp; simplify_eq.
    + split; [reflexivity|discriminate].
    + apply slotFollows_same; reflexivity.
  - simplify_eq. apply slotFollows_same; [|reflexivity].
    unfold closeSession, cancelCurrentRequest. repeat case_match; reflexivity.
Qed.

Lemma slotFollows_request w p n a t d :
  pendingToolConfirmation w = None ->
  slotFollows w [onEvent (tool_confirm_request n a (Described t d))]
    (with_pending w (Some p)).
Proof.
  intros Hp. split; [|congruence].
  unfold hasPendingConfirmation. simpl. rewrite Hp. reflexivity.
Qed.

Lemma slotFollows_emit w e :
  progress e = true \/ terminal e = true -> slotFollows w [onEvent e] w.
Proof.
  intros He. apply slotFollows_same; [reflexivity|].
  destruct e as [| | | | ? ? []| | | | |]; simpl in *; try reflexivity.
  destruct He; discriminate.
Qed.

Lemma sendMessage_slotFollows env userMessage w w' acts c :
  sendMessage env userMessage w = (w', acts, c) -> slotFollows w acts w'.
Proof.
  apply sendMessage_P.
  - intros w0. apply slotFollows_same; reflexivity.
  - apply slotFollows_app.
  - intros w0. apply slotFollows_same; reflexivity.
  - apply slotFollows_external.
  - intros w0 e He. apply slotFollows_emit. auto.
  - apply slotFollows_request.
  - intros w0 r k. apply slotFollows_same; reflexivity.
  - intros w0 m msg k. apply slotFollows_same; reflexivity.
  - intros w0 e He. apply slotFollows_emit. auto.
  - intros w0 w1 a Hf.
    apply fallsBack_spec in Hf as (s & _ & _ & -> & ->).
    apply slotFollows_same; reflexivity.
  - intros w0 w1 m k He. apply enter_spec in He as (s & _ & _ & _ & _ & _ & Hp).
    apply slotFollows_same; [assumption|reflexivity].
  - intros w0 c0 w1 c1 Hf. apply finallyBlock_spec in Hf as (_ & Hp & _).
    apply slotFollows_same; [assumption|reflexivity].
Qed.

Lemma onToolCallsUpdate_slotFollows toolCalls w rep w' rep' acts :
  onToolCallsUpdate toolCalls w rep = (w', rep', acts) ->
  slotFollows w acts w' /\ forallb (fun a => negb (resolves a)) acts = true.
Proof.
  revert w rep w' rep' acts.
  induction toolCalls as [|toolCall rest IH]; intros w rep w' rep' acts H; simpl in H.
  - simplify_eq. split; [apply slotFollows_same|]; reflexivity.
  - destruct (onToolCallUpdate toolCall w rep) as [[w1 rep1] a1] eqn:E1.
    destruct (onToolCallsUpdate rest w1 rep1) as [[w2 rep2] a2] eqn:E2.
    simplify_eq. apply IH in E2 as [F2 R2].
    assert (F1 : slotFollows w a1 w1 /\ forallb (fun a => negb (resolves a)) a1 = true).
    { split.
      - revert E1. apply onToolCallUpdate_P.
        + intros w0. apply slotFollows_same; reflexivity.
        + apply slotFollows_app.
        + intros w0 e He. apply slotFollows_emit. auto.
        + apply slotFollows_request.
      - unfold onToolCallUpdate in E1.
        destruct (status toolCall), (pendingToolConfirmation w);
          simpl in E1; repeat case_match; simplify_eq; reflexivity. }
    destruct F1 as [F1 R1].
    split; [eapply slotFollows_app; eauto|].
    rewrite forallb_app, R1, R2. reflexivity.
Qed.

Example twoAwaiting_events :
  observed (sendMessage Confirmations.twoAwaiting "clean up" (Scenario.active 0)).1.2
  = [tool_call "shell" [("cmd", "rm -rf .")];
     tool_call "write_file" [("path", "a.txt")];
     tool_confirm_request "shell" [("cmd", "rm -rf .")]
       (Described "exec" "Execute: shell");
     tool_cancelled "shell";
     tool_confirm_request "write_file" [("path", "a.txt")]
       (Described "edit" "Edit file: a.txt");
     tool_result "write_file" (Some "Tool completed successfully");
     content "done";
     finished].
Proof. vm_compute. reflexivity. Qed.

(** C6, as stated, fails: a confirmation event of the stream is sent on
    as a [tool_confirm_request] whatever the slot holds.  Here the
    scheduler has reported two calls that await approval, of which the
    first was announced and fills the slot; nothing is resolved, and the
    observer still receives a second [tool_confirm_request], for the other
    call, from the next stream.  The slot keeps the first. *)
Theorem C6_second_request_from_stream :
  let '(w', acts, c) :=
    sendMessage Confirmations.askedAgainByStream "clean up" (Scenario.active 0) in
  observed acts
  = [tool_call "shell" [("cmd", "rm -rf .")];
     tool_confirm_request "shell" [("cmd", "rm -rf .")]
       (Described "exec" "Execute: shell");
     tool_confirm_request "write_file" [("path", "a.txt")]
       (RawDetails Confirmations.askWrite);
     finished]
  /\ forallb (fun a => negb (resolves a)) acts = true
  /\ option_map pendingToolName (pendingToolConfirmation w') = Some "shell"
  /\ c = Returns.
Proof. vm_compute. repeat split; reflexivity. Qed.

(** C6, amended: the manager has one slot for a pending confirmation, and
    the requests of the scheduler callback are single-flight.  While the
    slot is filled, an update of the scheduler leaves it as it is and sends
    no confirmation request, whatever calls await approval; when it is
    empty, the first call of an update that awaits approval fills it and is
    the only one announced.  Over a whole call of [sendMessage], with any
    commands of the observer side in between, every confirmation request of
    the scheduler callback finds the slot empty and fills it, only a
    resolution by [confirmTool] empties it, and as long as nothing is
    resolved the slot keeps its content.  A confirmation event of the
    stream is outside this discipline: the loop forwards it as a
    [tool_confirm_request] with the details of the event, whatever the slot
    holds, and goes on with the stream without touching the slot. *)
Theorem C6_single_pending_confirmation env userMessage w w' acts c :
  sendMessage env userMessage w = (w', acts, c) ->
  singleFlight (hasPendingConfirmation w) acts = Some (hasPendingConfirmation w')
  /\ (forall p,
        pendingToolConfirmation w = Some p ->
        forallb (fun a => negb (resolves a)) acts = true ->
        pendingToolConfirmation w' = Some p
        /\ forallb (fun a => negb (asksConfirmation a)) acts = true)
  /\ (forall toolCalls w0 rep p,
        pendingToolConfirmation w0 = Some p ->
        pendingToolConfirmation (onToolCallsUpdate toolCalls w0 rep).1.1 = Some p
        /\ forallb (fun a => negb (asksConfirmation a))
             (onToolCallsUpdate toolCalls w0 rep).2 = true)
  /\ (forall toolCalls w0 rep,
        pendingToolConfirmation w0 = None ->
        length (filter (fun a => asksConfirmation a = true)
                  (onToolCallsUpdate toolCalls w0 rep).2) <= 1)
  /\ (forall confirmed w0,
        pendingToolConfirmation (confirmTool confirmed w0).1 = None)
  /\ (forall w0,
        pendingToolConfirmation (cancelCurrentRequest w0) = pendingToolConfirmation w0
        /\ pendingToolConfirmation (closeSession w0) = pendingToolConfirmation w0)
  /\ (forall signal request details rest fin reqs w0,
        aborted w0 signal = false ->
        forAwait env signal (Yield (ToolCallConfirmation request details) :: rest)
          fin reqs w0
        = (let '(w1, a1, r) := forAwait env signal rest fin reqs w0 in
           (w1,
            onEvent (tool_confirm_request (name request) (args request)
                       (RawDetails details)) :: a1,
            r))).
Proof.
  intros H. apply sendMessage_slotFollows in H as [Hscan Hkeep].
  split; [exact Hscan|]. split; [exact Hkeep|].
  assert (Hfilled : forall toolCalls w0 rep p,
    pendingToolConfirmation w0 = Some p ->
    pendingToolConfirmation (onToolCallsUpdate toolCalls w0 rep).1.1 = Some p
    /\ forallb (fun a => negb (asksConfirmation a))
         (onToolCallsUpdate toolCalls w0 rep).2 = true).
  { intros toolCalls w0 rep p Hp.
    destruct (onToolCallsUpdate toolCalls w0 rep) as [[w1 rep1] a1] eqn:E.
    apply onToolCallsUpdate_slotFollows in E as [[_ K] R]. simpl. auto. }
  split; [exact Hfilled|]. split; [|split].
  - intros toolCalls. induction toolCalls as [|toolCall rest IH]; intros w0 rep Hp.
    + simpl. lia.
    + simpl.
      destruct (onToolCallUpdate toolCall w0 rep) as [[w1 rep1] a1] eqn:E1.
      destruct (onToolCallsUpdate rest w1 rep1) as [[w2 rep2] a2] eqn:E2.
      simpl. rewrite filter_app, length_app.
      assert (Ha1 : length (filter (fun a => asksConfirmation a = true) a1) <= 1
                    /\ (length (filter (fun a => asksConfirmation a = true) a1) = 1 ->
                        pendingToolConfirmation w1 <> None)
                    /\ (pendingToolConfirmation w1 = None \/
                        exists p, pendingToolConfirmation w1 = Some p)).
      { unfold onToolCallUpdate in E1. rewrite Hp in E1.
        destruct (status toolCall); simpl in E1; repeat case_match; simplify_eq;
          simpl; repeat split; try lia; try discriminate; eauto. }
      destruct Ha1 as (Hle & Hone & [Hnone|[p Hsome]]).
      * specialize (IH w1 rep1 Hnone). rewrite E2 in IH. simpl in IH.
        destruct (length (filter (fun a => asksConfirmation a = true) a1)) as [|[|n]];
          [lia| |lia].
        exfalso. apply Hone; [reflexivity|assumption].
      * destruct (Hfilled rest w1 rep1 p Hsome) as [_ Hno]. rewrite E2 in Hno.
        simpl in Hno.
        assert (Hz : length (filter (fun a => asksConfirmation a = true) a2) = 0).
        { clear -Hno. induction a2 as [|a a2 IH]; [reflexivity|].
          simpl in Hno. apply andb_prop in Hno as [Ha Hno].
          rewrite filter_cons. destruct (decide (asksConfirmation a = true)) as [E|E].
          - rewrite E in Ha. discriminate.
          - auto. }
        lia.
  - intros confirmed w0. unfold confirmTool.
    destruct (pendingToolConfirmation w0) eqn:Hp; simpl; auto.
  - split.
    + intros w0. unfold closeSession, cancelCurrentRequest.
      repeat case_match; auto.
    + intros signal request details rest fin reqs w0 Ha. simpl. rewrite Ha.
      destruct (forAwait env signal rest fin reqs w0) as [[w1 a1] r]. reflexivity.
Qed.

Lemma C6_single_pending_confirmation_witness :
  singleFlight false
    (sendMessage Confirmations.twoAwaiting "clean up" (Scenario.active 0)).1.2
  = Some false.
Proof.
  pose proof (C6_single_pending_confirmation Confirmations.twoAwaiting "clean up"
                (Scenario.active 0)
                (sendMessage Confirmations.twoAwaiting "clean up" (Scenario.active 0)).1.1
                (sendMessage Confirmations.twoAwaiting "clean up" (Scenario.active 0)).1.2
                Returns) as H.
  apply proj1 in H; [|vm_compute; reflexivity].
  vm_compute in H. vm_compute. exact H.
Defined.

(** ** The round budget *)

Lemma streamsOpened_app f (a b : list Action) :
  streamsOpened f (a ++ b) = streamsOpened f a + streamsOpened f b.
Proof.
  induction a as [|x a IH]; simpl; [reflexivity|].
  destruct x; simpl; rewrite ?IH; lia.
Qed.

(** What is done inside a round opens no stream. *)
Section NoStream.

Variable f : nat -> bool.

Lemma silent_app w a w' b w'' :
  silent f w a w' -> silent f w' b w'' -> silent f w (a ++ b) w''.
Proof. unfold silent. rewrite streamsOpened_app. lia. Qed.

Lemma silent_left w acts exit w' :
  left (silent f) w acts exit w' -> streamsOpened f acts = 0.
Proof.
  apply (left_P (silent f)).
  - apply silent_app.
  - reflexivity.
  - intros w0 w1 a Hf.
    apply fallsBack_spec in Hf as (s & _ & _ & -> & _). reflexivity.
Qed.

Lemma silent_external x w w' a : external x w = (w', a) -> silent f w a w'.
Proof.
  intros Hx. destruct x; simpl in Hx; simplify_eq; try reflexivity.
  unfold confirmTool in Hx.
  destruct (pendingToolConfirmation w); simplify_eq; reflexivity.
Qed.

Lemma forAwait_silent env signal todo fin reqs w w' acts r :
  forAwait env signal todo fin reqs w = (w', acts, r) -> streamsOpened f acts = 0.
Proof.
  intros H.
  assert (Hd : done (silent f) w acts r w').
  { eapply (forAwait_done (silent f)); [..|exact H].
    - reflexivity.
    - apply silent_app.
    - reflexivity.
    - apply silent_external.
    - intros w0 e _. reflexivity. }
  destruct r as [exit|]; [|exact Hd]. eapply silent_left, Hd.
Qed.

Lemma executeToolsWithScheduler_silent run requests signal w w' acts settled :
  executeToolsWithScheduler run requests signal w = (w', acts, settled) ->
  streamsOpened f acts = 0.
Proof.
  intros H.
  eapply (executeToolsWithScheduler_P (silent f)); [..|exact H].
  - reflexivity.
  - apply silent_app.
  - apply silent_external.
  - intros w0 e _. reflexivity.
  - reflexivity.
  - reflexivity.
Qed.

Lemma catchBlock_silent env err signal w w' acts exit :
  catchBlock env err signal w = (w', acts, exit) -> streamsOpened f acts = 0.
Proof.
  intros H. eapply silent_left.
  eapply (catchBlock_left (silent f)); [..|exact H].
  - reflexivity.
  - apply silent_app.
  - reflexivity.
  - apply silent_external.
Qed.

Lemma round_streams env modelName signal currentMessage w w' acts r :
  round env modelName signal currentMessage w = (w', acts, r) ->
  streamsOpened f acts = if f signal then 1 else 0.
Proof.
  unfold round.
  destruct (forAwait env signal _ _ [] (tick w)) as [[w1 a1] r1] eqn:E1.
  apply forAwait_silent in E1.
  destruct r1 as [exit|[|req reqs]]; intros H.
  - simplify_eq. simpl. lia.
  - simplify_eq. simpl. rewrite streamsOpened_app, E1. simpl. lia.
  - destruct (executeToolsWithScheduler _ _ _ _) as [[w2 a2] settled] eqn:E2.
    apply executeToolsWithScheduler_silent in E2.
    destruct settled; simplify_eq; simpl; rewrite streamsOpened_app, E1, E2; lia.
Qed.

Lemma whileLoop_streams env budget modelName signal : forall currentMessage w w' acts exit,
  whileLoop env budget modelName signal currentMessage w = (w', acts, exit) ->
  streamsOpened f acts <= if f signal then budget else 0.
Proof.
  induction budget as [|budget IH]; intros currentMessage w w' acts exit H; simpl in H.
  - simplify_eq. simpl. destruct (f signal); lia.
  - destruct (round env modelName signal currentMessage w) as [[w1 a1] r] eqn:E1.
    apply round_streams in E1.
    destruct r as [exit1|next].
    + simplify_eq. destruct (f signal); lia.
    + destruct (whileLoop env budget modelName signal next w1) as [[w2 a2] exit2] eqn:E2.
      simplify_eq. apply IH in E2. rewrite streamsOpened_app.
      destruct (f signal); lia.
Qed.

Lemma tryCatch_streams env userMessage modelName signal w w' acts exit :
  tryCatch env userMessage modelName signal w = (w', acts, exit) ->
  streamsOpened f acts <= if f signal then maxTurns else 0.
Proof.
  unfold tryCatch.
  destruct (whileLoop env maxTurns modelName signal _ w) as [[w1 a1] exit1] eqn:E1.
  apply whileLoop_streams in E1.
  destruct exit1; intros H; simplify_eq; try exact E1.
  destruct (catchBlock env err signal w1) as [[w2 a2] exit2] eqn:E2.
  simplify_eq. apply catchBlock_silent in E2.
  rewrite streamsOpened_app. lia.
Qed.

End NoStream.

(** A loop that keeps going for its whole budget ends with the error of
    the exhausted budget. *)
Lemma whileLoop_exhausted env budget modelName signal : forall currentMessage w w' acts last,
  roundsInARow env budget modelName signal currentMessage w = Some (w', acts, last) ->
  whileLoop env budget modelName signal currentMessage w
  = (w', acts ++ [onEvent (error "Maximum conversation turns exceeded")], Return)
  /\ rounds signal acts = budget.
Proof.
  induction budget as [|budget IH]; intros currentMessage w w' acts last H; simpl in H.
  - simplify_eq. split; reflexivity.
  - simpl.
    destruct (round env modelName signal currentMessage w) as [[w1 a1] [exit|next]] eqn:E1;
      [discriminate|].
    destruct (roundsInARow env budget modelName signal next w1) as [[[w2 a2] l2]|] eqn:E2;
      [|discriminate].
    simplify_eq. apply IH in E2 as [-> Hr].
    split; [rewrite app_assoc; reflexivity|].
    unfold rounds in *. rewrite streamsOpened_app, Hr.
    apply (round_streams (Nat.eqb signal)) in E1. rewrite E1, Nat.eqb_refl. reflexivity.
Qed.

Lemma resume_rounds env restarts : forall userMessage modelName signal w w' acts c,
  signal < length (controllers w) ->
  resume env restarts userMessage modelName signal w = (w', acts, c) ->
  forall k, rounds k acts <= maxTurns /\ (k < signal -> rounds k acts = 0).
Proof.
  induction restarts as [|restarts IH];
    intros userMessage modelName signal w w' acts c Hsig H k; simpl in H;
    destruct (tryCatch env userMessage modelName signal w) as [[w1 a1] exit] eqn:Et;
    pose proof (tryCatch_streams (Nat.eqb k) _ _ _ _ _ _ _ _ Et) as Hk;
    assert (Ha1 : rounds k a1 <= maxTurns /\ (k < signal -> rounds k a1 = 0))
      by (unfold rounds; destruct (Nat.eqb_spec k signal); split; lia);
    destruct exit.
  all: try solve [destruct (finallyBlock w1 _) as [w2 c2] eqn:Ef; simplify_eq; exact Ha1].
  all: try solve [simplify_eq; exact Ha1].
  all: destruct (enter w1) as [[[w2 modelName'] signal']|] eqn:Ee;
    [|destruct (finallyBlock w1 _) as [w2 c2] eqn:Ef; simplify_eq; exact Ha1].
  all: destruct (finallyBlock w2 Returns) as [w3 c3] eqn:Ef.
  all: destruct c3; try solve [simplify_eq; exact Ha1].
  destruct (resume env restarts userMessage modelName' signal' w3)
    as [[w4 a2] c4] eqn:Er.
  simplify_eq.
  apply tryCatch_restart in Et as (s & _ & _ & Hlen & _).
  apply enter_spec in Ee as (s1 & _ & _ & -> & Hheap & _ & _).
  apply finallyBlock_spec in Ef as (Hheap3 & _ & _).
  assert (Hsig' : length (controllers w1) < length (controllers w3)).
  { rewrite Hheap3, Hheap, length_app. simpl. lia. }
  destruct (IH _ _ _ _ _ _ _ Hsig' Er k) as [Hle Hzero].
  unfold rounds in *. rewrite streamsOpened_app.
  destruct (Nat.eqb_spec k signal) as [Heq|Hne].
  - rewrite Hzero by lia. lia.
  - split; [lia|]. intros Hlt. rewrite Hzero by lia. lia.
Qed.

Lemma resume_streams env restarts : forall userMessage modelName signal w w' acts c,
  resume env restarts userMessage modelName signal w = (w', acts, c) ->
  streamsOpened (fun _ => true) acts <= maxTurns * budgets w.
Proof.
  induction restarts as [|restarts IH];
    intros userMessage modelName signal w w' acts c H; simpl in H;
    destruct (tryCatch env userMessage modelName signal w) as [[w1 a1] exit] eqn:Et;
    pose proof (tryCatch_streams (fun _ => true) _ _ _ _ _ _ _ _ Et) as Hk;
    assert (Ha1 : streamsOpened (fun _ => true) a1 <= maxTurns * budgets w)
      by (cbv beta in Hk; unfold budgets; destruct (session w); nia);
    destruct exit.
  all: try solve [destruct (finallyBlock w1 _) as [w2 c2] eqn:Ef; simplify_eq; exact Ha1].
  all: try solve [simplify_eq; exact Ha1].
  all: destruct (enter w1) as [[[w2 modelName'] signal']|] eqn:Ee;
    [|destruct (finallyBlock w1 _) as [w2 c2] eqn:Ef; simplify_eq; exact Ha1].
  all: destruct (finallyBlock w2 Returns) as [w3 c3] eqn:Ef.
  all: destruct c3; try solve [simplify_eq; exact Ha1].
  destruct (resume env restarts userMessage modelName' signal' w3)
    as [[w4 a2] c4] eqn:Er.
  simplify_eq.
  apply tryCatch_restart in Et as (s & Hs & Hlt & _ & Hs1).
  apply enter_spec in Ee as (s1 & Hs1' & _ & _ & _ & Hs2 & _).
  apply finallyBlock_spec in Ef as (_ & _ & [(s2 & Hs2' & Hs3 & _)|(Hnone & _)]);
    [|congruence].
  apply IH in Er. rewrite streamsOpened_app.
  unfold budgets in *. rewrite Hs. rewrite Hs3 in Er.
  rewrite Hs2 in Hs2'. rewrite Hs1 in Hs1'. simplify_eq.
  cbv beta in Hk. simpl currentModelIndex in Er.
  replace (length MODEL_FALLBACK_CHAIN - S (currentModelIndex s))
    with (S (length MODEL_FALLBACK_CHAIN - S (S (currentModelIndex s)))) by lia.
  nia.
Qed.

Lemma resume_return env restarts userMessage modelName signal w w1 a1 :
  tryCatch env userMessage modelName signal w = (w1, a1, Return) ->
  resume env restarts userMessage modelName signal w
  = (let '(w2, c) := finallyBlock w1 Returns in (w2, a1, c)).
Proof. intros H. destruct restarts; simpl; rewrite H; reflexivity. Qed.

(** C3: a call of [sendMessage] runs at most [maxTurns] = 50 rounds,
    whatever the model session and the scheduler do; counting the calls
    it makes to itself on a fallback, each of which starts anew, that is
    at most 50 rounds for every model of the chain.  When all 50 rounds
    of a call end with tool responses for a next round, the call emits the
    error 'Maximum conversation turns exceeded' as its last event and
    returns. *)
Theorem C3_round_budget env userMessage w w' acts c :
  sendMessage env userMessage w = (w', acts, c) ->
  maxTurns = 50
  /\ (forall signal, rounds signal acts <= maxTurns)
  /\ streamsOpened (fun _ => true) acts <= maxTurns * length MODEL_FALLBACK_CHAIN
  /\ (forall w0 modelName signal w1 a1 last,
        enter w = Some (w0, modelName, signal) ->
        roundsInARow env maxTurns modelName signal [TextPart userMessage] w0
        = Some (w1, a1, last) ->
        rounds signal a1 = maxTurns
        /\ acts = a1 ++ [onEvent (error "Maximum conversation turns exceeded")]
        /\ (is_Some (session w1) -> c = Returns)).
Proof.
  intros H. split; [reflexivity|]. unfold sendMessage in H.
  destruct (enter w) as [[[w0 modelName] signal]|] eqn:Ee.
  - pose proof Ee as Ee'.
    apply enter_spec in Ee' as (s & Hs & _ & -> & Hheap & Hs0 & _).
    split; [|split].
    + intros k. eapply resume_rounds; [|exact H].
      rewrite Hheap, length_app. simpl. lia.
    + apply resume_streams in H. unfold budgets in H. rewrite Hs0 in H.
      simpl currentModelIndex in H.
      assert (S (length MODEL_FALLBACK_CHAIN - S (currentModelIndex s))
              <= length MODEL_FALLBACK_CHAIN) by (simpl; lia).
      nia.
    + intros w0' modelName' signal' w1 a1 last E Hrow.
      injection E as <- <- <-.
      apply whileLoop_exhausted in Hrow as [Hloop Hr].
      split; [exact Hr|].
      assert (Ht : tryCatch env userMessage modelName (length (controllers w)) w0
                   = (w1, a1 ++ [onEvent (error "Maximum conversation turns exceeded")],
                      Return)).
      { unfold tryCatch. rewrite Hloop. reflexivity. }
      rewrite (resume_return _ _ _ _ _ _ _ _ Ht) in H.
      destruct (finallyBlock w1 Returns) as [w2 c2] eqn:Ef. simplify_eq.
      split; [reflexivity|]. intros [s1 Hs1].
      apply finallyBlock_spec in Ef as (_ & _ & [(s2 & _ & _ & ->)|(Hnone & _)]);
        [reflexivity|congruence].
  - injection H as <- <- <-.
    split; [intros k; unfold rounds; simpl; lia|].
    split; [simpl; lia|].
    intros w0 modelName signal w1 a1 last E. congruence.
Qed.

Lemma C3_round_budget_witness :
  exists a1,
    (sendMessage Scenario.insatiable "go" (Scenario.active 0)).1.2
    = a1 ++ [onEvent (error "Maximum conversation turns exceeded")]
    /\ rounds 0 a1 = 50
    /\ rounds 0 (sendMessage Scenario.insatiable "go" (Scenario.active 0)).1.2 <= 50
    /\ (sendMessage Scenario.insatiable "go" (Scenario.active 0)).2 = Returns.
Proof.
  pose proof (C3_round_budget Scenario.insatiable "go" (Scenario.active 0)
                (sendMessage Scenario.insatiable "go" (Scenario.active 0)).1.1
                (sendMessage Scenario.insatiable "go" (Scenario.active 0)).1.2
                (sendMessage Scenario.insatiable "go" (Scenario.active 0)).2) as H.
  destruct H as (_ & Hle & _ & Hex).
  { destruct (sendMessage Scenario.insatiable "go" (Scenario.active 0)) as [[? ?] ?].
    reflexivity. }
  destruct (roundsInARow Scenario.insatiable maxTurns "gemini-2.5-pro" 0
              [TextPart "go"] Scenario.started)
    as [[[w1 a1] l]|] eqn:Hrow; [|vm_compute in Hrow; discriminate Hrow].
  destruct (Hex Scenario.started "gemini-2.5-pro" 0 w1 a1 l eq_refl Hrow)
    as (Hr & Hacts & Hc).
  exists a1. split; [exact Hacts|]. split; [exact Hr|]. split; [apply Hle|].
  apply Hc. vm_compute in Hrow. injection Hrow as <- _ _. eexists. reflexivity.
Defined.

(** ** Closing events *)

Lemma noClosing_app (a b : list Action) :
  noClosing (a ++ b) = noClosing a && noClosing b.
Proof. apply forallb_app. Qed.

Lemma tryCatch_closing env userMessage modelName signal w w' acts exit :
  tryCatch env userMessage modelName signal w = (w', acts, exit) ->
  match exit with
  | Return => closed acts
  | _ => noClosing acts = true
  end.
Proof.
  intros H.
  assert (Hl : left (fun _ a _ => noClosing a = true) w acts exit w').
  { eapply (tryCatch_left (fun _ a _ => noClosing a = true)); [..|exact H].
    - reflexivity.
    - intros w0 a w1 b w2 Ha Hb. rewrite noClosing_app, Ha, Hb. reflexivity.
    - reflexivity.
    - intros x w0 w1 a Hx. destruct x; simpl in Hx; simplify_eq; try reflexivity.
      unfold confirmTool in Hx.
      destruct (pendingToolConfirmation w0); simplify_eq; reflexivity.
    - intros w0 e He. destruct e as [| | | | ? ? []| | | | |]; try discriminate; reflexivity.
    - reflexivity.
    - reflexivity.
    - reflexivity. }
  destruct exit; simpl in Hl; try exact Hl.
  destruct Hl as (w0 & a0 & a1 & Ha0 & Hf & ->).
  apply fallsBack_spec in Hf as (s & _ & _ & -> & _).
  rewrite noClosing_app, Ha0. reflexivity.
Qed.

Lemma resume_closing env restarts : forall userMessage modelName signal w w' acts c,
  resume env restarts userMessage modelName signal w = (w', acts, c) ->
  (c = Returns -> closed acts) /\ (closed acts \/ noClosing acts = true).
Proof.
  induction restarts as [|restarts IH];
    intros userMessage modelName signal w w' acts c H; simpl in H;
    destruct (tryCatch env userMessage modelName signal w) as [[w1 a1] exit] eqn:Et;
    apply tryCatch_closing in Et; destruct exit.
  all: try solve [destruct (finallyBlock w1 _) as [w2 c2] eqn:Ef; simplify_eq; auto].
  all: try solve [destruct (finallyBlock w1 _) as [w2 c2] eqn:Ef;
                  apply finallyBlock_spec in Ef as (_ & _ & [(s & _ & _ & ->)|(_ & _ & ->)]);
                  simplify_eq; (split; [discriminate|auto])].
  all: try solve [simplify_eq; (split; [discriminate|auto])].
  all: destruct (enter w1) as [[[w2 modelName'] signal']|] eqn:Ee;
    [|destruct (finallyBlock w1 _) as [w2 c2] eqn:Ef;
      apply finallyBlock_spec in Ef as (_ & _ & [(s & _ & _ & ->)|(_ & _ & ->)]);
      simplify_eq; (split; [discriminate|auto])].
  all: destruct (finallyBlock w2 Returns) as [w3 c3] eqn:Ef.
  all: destruct c3; try solve [simplify_eq; (split; [discriminate|auto])].
  destruct (resume env restarts userMessage modelName' signal' w3)
    as [[w4 a2] c4] eqn:Er.
  simplify_eq. apply IH in Er as [Hret Hany].
  assert (Hpre : closed a2 -> closed (a1 ++ a2)).
  { intros (a0 & e & -> & He & Ha0). exists (a1 ++ a0), e.
    rewrite app_assoc, noClosing_app, Et, Ha0. auto. }
  split; [auto|].
  destruct Hany as [Hc|Hn]; [auto|].
  right. rewrite noClosing_app, Et, Hn. reflexivity.
Qed.

(** A call of [sendMessage] that returns has emitted a terminal event as
    its last action, and no [cancelled] or [finished] before it; a call
    that does not return has emitted at most one of them. *)
Theorem sendMessage_closing env userMessage w w' acts c :
  sendMessage env userMessage w = (w', acts, c) ->
  (c = Returns -> closed acts) /\ (closed acts \/ noClosing acts = true).
Proof.
  unfold sendMessage.
  destruct (enter w) as [[[w1 modelName] signal]|]; [apply resume_closing|].
  intros H. simplify_eq. split; [discriminate|auto].
Qed.


(** ** Errors of the stream, quota errors and fallback *)

Lemma round_first_action env modelName signal currentMessage w w' acts r :
  round env modelName signal currentMessage w = (w', acts, r) ->
  exists rest, acts = openStream modelName currentMessage signal :: rest.
Proof.
  unfold round. intros H.
  destruct (forAwait env signal _ _ [] (tick w)) as [[w2 a2] [exit|[|req reqs]]];
    [| |destruct (executeToolsWithScheduler _ _ _ _) as [[w3 a3] []]];
    simplify_eq; eauto.
Qed.

Lemma whileLoop_first_action env budget modelName signal currentMessage w w' acts exit :
  whileLoop env (S budget) modelName signal currentMessage w = (w', acts, exit) ->
  exists rest, acts = openStream modelName currentMessage signal :: rest.
Proof.
  simpl. intros H.
  destruct (round env modelName signal currentMessage w) as [[w1 a1] r] eqn:Er.
  apply round_first_action in Er as [rest ->].
  destruct r as [exit0|next]; [simplify_eq; eauto|].
  destruct (whileLoop env budget modelName signal next w1) as [[w2 a2] exit2].
  simplify_eq. eauto.
Qed.

Lemma resume_first_action env restarts userMessage modelName signal w w' acts c :
  resume env restarts userMessage modelName signal w = (w', acts, c) ->
  exists rest, acts = openStream modelName [TextPart userMessage] signal :: rest.
Proof.
  assert (Htry : forall w1 a1 exit,
            tryCatch env userMessage modelName signal w = (w1, a1, exit) ->
            exists rest, a1 = openStream modelName [TextPart userMessage] signal :: rest).
  { unfold tryCatch. change maxTurns with (S 49). intros w1 a1 exit H.
    destruct (whileLoop env (S 49) modelName signal [TextPart userMessage] w)
      as [[w2 a2] exit2] eqn:Ew.
    apply whileLoop_first_action in Ew as [rest ->].
    destruct exit2 as [| |err|]; try solve [simplify_eq; eauto].
    destruct (catchBlock env err signal w2) as [[w3 a3] exit3]. simplify_eq. eauto. }
  intros H. destruct restarts; simpl in H;
    destruct (tryCatch env userMessage modelName signal w) as [[w1 a1] exit] eqn:Et;
    destruct (Htry _ _ _ eq_refl) as [rest ->];
    repeat case_match; simplify_eq; eauto.
Qed.


(** An error event of the stream always reaches the observer as an
    [error] first.  Unless a fallback is attempted, a second [error]
    follows it, that of the handler, with the text of the event, and
    [sendMessage] returns; what follows it otherwise is what the attempt
    does.  The text that names the chain is never sent on this path. *)
Lemma stream_error_forwarded env signal err rest fin reqs w :
  aborted w signal = false ->
  exists w' more exit,
    forAwait env signal (Yield (Error err) :: rest) fin reqs w
    = (w', onEvent (error (message err)) :: more, inl exit)
    /\ ((more = [onEvent (error (errorMsgOf err))] /\ exit = Return /\ w' = w)
        \/ (isQuotaError (errorMsgOf err) = true
            /\ attemptFallback env w = Some (w', more, exit))).
Proof.
  intros Ha. simpl. rewrite Ha.
  destruct (isQuotaError (errorMsgOf err)); [|eauto 10].
  destruct (attemptFallback env w) as [[[w1 a1] exit]|] eqn:Ef; eauto 10.
Qed.

(** Every name of the chain is in the text of the final error of the
    [catch] path. *)
Lemma exhaustedNotice_names_chain :
  forallb (fun modelName => Js.includes modelName exhaustedNotice) MODEL_FALLBACK_CHAIN
  = true.
Proof. vm_compute. reflexivity. Qed.

(** C2 fails on the code: an error event of the stream that is not
    recovered by a fallback reaches the observer twice, once forwarded by
    the event transform and once from the error handler; the claim asks for
    exactly one [error] event.  ([stream_error_forwarded] shows this for
    every error event after which no fallback is attempted;
    [sendMessage_closing] gives what does hold on every path: the last
    event of a returning call is a terminal one, and no [cancelled] or
    [finished] comes before it.) *)
Theorem C2_stream_error_emitted_twice :
  sendMessage (Failures.errorEvent Failures.socketError) "hello" (Scenario.active 0)
  = ({| session := Some (Scenario.session0 0);
        pendingToolConfirmation := None;
        controllers := [false];
        clock := 1 |},
     [openStream "gemini-2.5-pro" [TextPart "hello"] 0;
      onEvent (error "socket hang up");
      onEvent (error "socket hang up")],
     Returns).
Proof. vm_compute. reflexivity. Qed.

(** C4 fails on the code when the quota error arrives as an error event of
    the stream: the event is forwarded to the observer as an [error] before
    the fallback is attempted, so the switch is preceded by a fatal error
    event; the claim asks for none.  When the quota error is thrown, no
    error is emitted.  ([fallback_restart] and [sendMessage_total] give the
    rest of the claim on both paths.) *)
Theorem C4_error_event_before_fallback :
  observed (sendMessage (Failures.errorEvent Failures.quotaError) "hello"
              (Scenario.active 0)).1.2
  = [error "You have exhausted your capacity on this model.";
     content (switchNotice "gemini-2.5-pro" "gemini-2.5-flash");
     content "hi";
     finished]
  /\ observed (sendMessage Failures.thrown "hello" (Scenario.active 0)).1.2
     = [content (switchNotice "gemini-2.5-pro" "gemini-2.5-flash");
        content "hi";
        finished].
Proof. split; vm_compute; reflexivity. Qed.

(** C5 fails on the code when the quota error arrives as an error event of
    the stream and the chain is exhausted: the observer gets two [error]
    events, both with the text of the provider, and none that names the
    chain; the claim asks for exactly one, naming every model.  When the
    quota error is thrown, the one error names the chain. *)
Theorem C5_exhaustion_in_stream_unnamed :
  observed (sendMessage (Failures.errorEvent Failures.quotaError) "hello"
              (Scenario.active 3)).1.2
  = [error "You have exhausted your capacity on this model.";
     error "You have exhausted your capacity on this model."]
  /\ Js.includes "gemini-2.5-pro" "You have exhausted your capacity on this model."
     = false
  /\ observed (sendMessage Failures.thrown "hello" (Scenario.active 3)).1.2
     = [error exhaustedNotice].
Proof. repeat split; vm_compute; reflexivity. Qed.

(** ** Cancellation *)



Lemma cancelCurrentRequest_fires (w : World) (s : WebSession) (signal : nat) :
  session w = Some s -> abortController s = Some signal ->
  signal < length (controllers w) ->
  aborted (cancelCurrentRequest w) signal = true.
Proof.
  intros Hs Hk Hlt. unfold cancelCurrentRequest, aborted. rewrite Hs, Hk. simpl.
  rewrite list_lookup_insert_eq by assumption. reflexivity.
Qed.


(** *** After a fallback the turn cannot be cancelled *)

















(** C8 fails on the code in the call that follows a fallback.  The
    [finally] block of the call that fell back runs after the new call has
    stored its controller, and clears it: while the new turn is in flight
    the session holds no controller, [cancelCurrentRequest] does nothing,
    the signal of the turn never fires, and the events that follow are
    processed to the end.  In a first call the same stream is cancelled at
    its first event.  ([fallback_disables_cancellation] shows this for
    every call that follows a fallback; [cancelCurrentRequest_idempotent],
    [cancelCurrentRequest_no_turn], [forAwait_aborted] and
    [sendMessage_cancelled_once] give what does hold.) *)
Theorem C8_cancel_lost_after_fallback :
  (let '(w', acts, c) :=
     sendMessage Failures.cancelAfterFallback "hello" (Scenario.active 0) in
   observed acts
   = [content (switchNotice "gemini-2.5-pro" "gemini-2.5-flash");
      content "hi"; content "more"; finished]
   /\ controllers w' = [false; false]
   /\ c = Returns)
  /\ (let '(w', acts, c) :=
        sendMessage Failures.cancelFirstCall "hello" (Scenario.active 0) in
      observed acts = [cancelled]
      /\ controllers w' = [true]
      /\ c = Returns).
Proof. split; vm_compute; repeat split; reflexivity. Qed.

(** * Properties of the server around the session manager *)

(** ** Quota errors *)

(** [String.prefix] and [Js.includes] are [startsWith] and [includes]. *)

Lemma prefix_spec (a b : string) :
  String.prefix a b = true <-> exists c, b = a +:+ c.
Proof.
  revert b. induction a as [|x a IH]; intros b.
  - split; [exists b; reflexivity|intros _; destruct b; reflexivity].
  - destruct b as [|y b]; [split; [discriminate|intros [c Hc]; discriminate]|].
    cbn. destruct (Ascii.ascii_dec x y) as [->|Hne].
    + rewrite IH. split; intros [c Hc]; exists c.
      * rewrite Hc. reflexivity.
      * change (String y b = String y (a +:+ c)) in Hc. congruence.
    + split; [discriminate|]. intros [c Hc].
      change (String y b = String x (a +:+ c)) in Hc. congruence.
Qed.

Lemma includes_spec (needle haystack : string) :
  Js.includes needle haystack = true
  <-> exists a b, haystack = a +:+ needle +:+ b.
Proof.
  induction haystack as [|y rest IH].
  - change (Js.includes needle "") with (String.prefix needle "" || false).
    rewrite orb_false_r, prefix_spec. split.
    + intros [c Hc]. exists "", c. exact Hc.
    + intros (a & b & H). destruct a; [eauto|discriminate].
  - change (Js.includes needle (String y rest))
      with (String.prefix needle (String y rest) || Js.includes needle rest).
    rewrite orb_true_iff, prefix_spec, IH. split.
    + intros [[c Hc]|(a & b & ->)].
      * exists "", c. exact Hc.
      * exists (String y a), b. reflexivity.
    + intros (a & b & H). destruct a as [|x a].
      * left. eauto.
      * right. change (String y rest = String x (a +:+ needle +:+ b)) in H.
        injection H as -> ->. eauto.
Qed.

(** X1: [isQuotaError] holds exactly of the texts that contain one of the
    four signatures as a contiguous part, letter case included, whatever
    stands before and after it. *)
Theorem isQuotaError_iff (errorStr : string) :
  isQuotaError errorStr = true
  <-> exists signature a b,
        signature ∈ quotaSignatures /\ errorStr = a +:+ signature +:+ b.
Proof.
  unfold isQuotaError, quotaSignatures.
  rewrite !orb_true_iff, !includes_spec. split.
  - intros [[[(a & b & H)|(a & b & H)]|(a & b & H)]|(a & b & H)];
      eexists _, a, b; (split; [|exact H]); set_solver.
  - intros (signature & a & b & Hin & H).
    rewrite !elem_of_cons, elem_of_nil in Hin.
    destruct Hin as [->|[->|[->|[->|[]]]]]; eauto 10.
Qed.

(** ** How [sendMessage] rejects *)


Lemma chainAt_in (i : nat) :
  i < length MODEL_FALLBACK_CHAIN -> chainAt i ∈ MODEL_FALLBACK_CHAIN.
Proof.
  intros Hi. unfold chainAt.
  destruct (MODEL_FALLBACK_CHAIN !! i) as [m|] eqn:Hm.
  - simpl. eapply list_elem_of_lookup_2. exact Hm.
  - apply lookup_ge_None in Hm. lia.
Qed.





(** ** The model of the session *)

Lemma staysOnChain_keeps (w w' : World) (acts : list Action) :
  (forall s', session w' = Some s' ->
     exists s, session w = Some s
               /\ currentModelIndex s' = currentModelIndex s
               /\ config s' = config s) ->
  staysOnChain w acts w'.
Proof.
  intros H Hw s' Hs'. destruct (H s' Hs') as (s & Hs & Hi & Hc).
  unfold onChain. rewrite Hi, Hc. exact (Hw s Hs).
Qed.

Lemma staysOnChain_same (w w' : World) (acts : list Action) :
  session w' = session w \/ session w' = None -> staysOnChain w acts w'.
Proof.
  intros Hs. apply staysOnChain_keeps. intros s' Hs'.
  exists s'. destruct Hs as [Hs|Hs]; [|congruence].
  rewrite <- Hs. auto.
Qed.

Lemma staysOnChain_app w a w' b w'' :
  staysOnChain w a w' -> staysOnChain w' b w'' -> staysOnChain w (a ++ b) w''.
Proof. unfold staysOnChain. auto. Qed.

Lemma sendMessage_staysOnChain env userMessage w w' acts c :
  sendMessage env userMessage w = (w', acts, c) -> staysOnChain w acts w'.
Proof.
  apply sendMessage_P.
  - intros w0. apply staysOnChain_same. auto.
  - apply staysOnChain_app.
  - intros w0. apply staysOnChain_same. auto.
  - intros x w0 w1 a Hx. apply staysOnChain_same.
    apply external_quiet in Hx as [_ Hs]. exact Hs.
  - intros w0 e _. apply staysOnChain_same. auto.
  - intros w0 p n a t d _. apply staysOnChain_same. auto.
  - intros w0 r k. apply staysOnChain_same. auto.
  - intros w0 m msg k. apply staysOnChain_same. auto.
  - intros w0 e _. apply staysOnChain_same. auto.
  - intros w0 w1 a Hf. apply fallsBack_spec in Hf as (s & _ & Hlt & _ & ->).
    intros _ s' Hs'. injection Hs' as <-. split; [exact Hlt|reflexivity].
  - intros w0 w1 m k He. apply enter_spec in He as (s & Hs & _ & _ & _ & Hs1 & _).
    apply staysOnChain_keeps. intros s' Hs'. rewrite Hs1 in Hs'. injection Hs' as <-.
    exists s. auto.
  - intros w0 c0 w1 c1 Hf.
    apply finallyBlock_spec in Hf as (_ & _ & [(s & Hs & Hs1 & _)|(_ & -> & _)]).
    + apply staysOnChain_keeps. intros s' Hs'. rewrite Hs1 in Hs'.
      injection Hs' as <-. exists s. auto.
    + apply staysOnChain_same. auto.
Qed.

(** X3: the model of a session is the entry of the fallback chain its
    index names.  [createSession] sets a session up so, on the first model;
    and a call of [sendMessage] on such a session leaves it closed or so,
    whatever the streams, the scheduler, the set-up of new [Config]s and the
    observer side do meanwhile: its index is within the chain, the model of
    its [Config] is the chain entry at that index, and [getCurrentModel] is
    that name, a name of the chain. *)
Theorem model_follows_chain env userMessage w w' acts c :
  (forall s, session w = Some s -> onChain s) ->
  sendMessage env userMessage w = (w', acts, c) ->
  (forall s',
     session w' = Some s' ->
     onChain s'
     /\ getCurrentModel w' = model (config s')
     /\ getCurrentModel w' ∈ MODEL_FALLBACK_CHAIN)
  /\ (session w' = None -> getCurrentModel w' = chainAt 0)
  /\ (forall boot processEnv path w0 w1 sessionId,
        createSession boot processEnv path w0 = (w1, inr sessionId) ->
        exists s1,
          session w1 = Some s1 /\ onChain s1 /\ currentModelIndex s1 = 0
          /\ getCurrentModel w1 = chainAt 0).
Proof.
  intros Hw H. apply sendMessage_staysOnChain in H. split; [|split].
  - intros s' Hs'. destruct (H Hw s' Hs') as [Hlt Hm].
    unfold getCurrentModel. rewrite Hs'.
    split; [split; assumption|]. split; [symmetry; exact Hm|].
    apply chainAt_in. exact Hlt.
  - intros Hnone. unfold getCurrentModel. rewrite Hnone. reflexivity.
  - intros boot processEnv path w0 w1 sessionId Hc. unfold createSession in Hc.
    destruct (initialize boot); [discriminate|].
    destruct (refreshAuth boot _); [discriminate|].
    injection Hc as <- _. eexists. split; [reflexivity|].
    split; [split; [simpl; lia|reflexivity]|]. split; reflexivity.
Qed.

Lemma model_follows_chain_witness :
  exists s',
    session (sendMessage Failures.thrown "hello" (Scenario.active 0)).1.1 = Some s'
    /\ currentModelIndex s' = 1
    /\ model (config s') = "gemini-2.5-flash"
    /\ getCurrentModel (sendMessage Failures.thrown "hello" (Scenario.active 0)).1.1
       ∈ MODEL_FALLBACK_CHAIN.
Proof.
  assert (Hw : forall s, session (Scenario.active 0) = Some s -> onChain s).
  { intros s Hs. injection Hs as <-. split; [simpl; lia|reflexivity]. }
  destruct (model_follows_chain Failures.thrown "hello" (Scenario.active 0)
              (sendMessage Failures.thrown "hello" (Scenario.active 0)).1.1
              (sendMessage Failures.thrown "hello" (Scenario.active 0)).1.2
              (sendMessage Failures.thrown "hello" (Scenario.active 0)).2
              Hw ltac:(vm_compute; reflexivity)) as (Hs' & _ & _).
  eexists. split; [vm_compute; reflexivity|].
  split; [reflexivity|]. split; [reflexivity|].
  eapply Hs'. vm_compute. reflexivity.
Defined.

(** ** More on the turn loop *)







(** X7: a round that goes on to the next one has read its stream to the
    end, has then passed the tool call requests of the stream to the
    scheduler, each of them, in the order of the stream and under the
    signal of the turn, and hands on the reconciled response parts of the
    calls the scheduler completed. *)
Theorem round_hands_on_reconciled_responses env modelName signal currentMessage
    w w' acts toolResponse :
  round env modelName signal currentMessage w = (w', acts, inr toolResponse) ->
  let stream := sendMessageStream env (clock w) modelName currentMessage in
  requested (steps stream) <> []
  /\ exists w1 a1 a2 completedCalls,
       forAwait env signal (steps stream) (ending stream) [] (tick w)
       = (w1, a1, inr (requested (steps stream)))
       /\ acts = openStream modelName currentMessage signal :: a1
                 ++ map (fun request => schedule request signal)
                      (requested (steps stream))
                 ++ a2
       /\ settles (coreToolScheduler env (clock w1) (requested (steps stream)))
          = AllComplete completedCalls
       /\ toolResponse = toolResponseParts completedCalls.
Proof.
  intros H stream.
  destruct (round_reconciles _ _ _ _ _ _ _ _ H)
    as (w1 & a1 & completedCalls & Hfor & Hne & Hsettles & ->).
  fold stream in Hfor, Hne, Hsettles.
  split; [exact Hne|].
  unfold round in H. fold stream in H. rewrite Hfor in H.
  destruct (requested (steps stream)) as [|req reqs] eqn:Hreq; [congruence|].
  unfold executeToolsWithScheduler in H.
  destruct (schedulerSteps _ _ _) as [[w2 rep2] a2] eqn:Hsteps.
  rewrite Hsettles in H. injection H as _ <-.
  exists w1, a1, (a2 ++ onAllToolCallsComplete completedCalls (reportedSuccess rep2)),
    completedCalls.
  repeat split; assumption.
Qed.

Lemma round_hands_on_reconciled_responses_witness :
  requested
    (steps (sendMessageStream Scenario.listFiles 0 "gemini-2.5-pro"
              [TextPart "list files"])) <> []
  /\ exists w1 a1 a2 completedCalls,
       forAwait Scenario.listFiles 0
         (steps (sendMessageStream Scenario.listFiles 0 "gemini-2.5-pro"
                   [TextPart "list files"]))
         (ending (sendMessageStream Scenario.listFiles 0 "gemini-2.5-pro"
                    [TextPart "list files"]))
         [] (tick Scenario.started)
       = (w1, a1,
          inr (requested
                 (steps (sendMessageStream Scenario.listFiles 0 "gemini-2.5-pro"
                           [TextPart "list files"]))))
       /\ (round Scenario.listFiles "gemini-2.5-pro" 0
             [TextPart "list files"] Scenario.started).1.2
          = openStream "gemini-2.5-pro" [TextPart "list files"] 0 :: a1
            ++ map (fun request => schedule request 0)
                 (requested
                    (steps (sendMessageStream Scenario.listFiles 0 "gemini-2.5-pro"
                              [TextPart "list files"])))
            ++ a2
       /\ settles (coreToolScheduler Scenario.listFiles (clock w1)
                     (requested
                        (steps (sendMessageStream Scenario.listFiles 0
                                  "gemini-2.5-pro" [TextPart "list files"]))))
          = AllComplete completedCalls
       /\ toolResponseParts [Scenario.lsDone] = toolResponseParts completedCalls.
Proof.
  exact (round_hands_on_reconciled_responses Scenario.listFiles "gemini-2.5-pro" 0
           [TextPart "list files"] Scenario.started
           (round Scenario.listFiles "gemini-2.5-pro" 0
              [TextPart "list files"] Scenario.started).1.1
           (round Scenario.listFiles "gemini-2.5-pro" 0
              [TextPart "list files"] Scenario.started).1.2
           (toolResponseParts [Scenario.lsDone]) eq_refl).
Defined.




(** ** Creating and closing a session *)

Lemma closeSession_spec (w : World) :
  session (closeSession w) = None
  /\ pendingToolConfirmation (closeSession w) = pendingToolConfirmation w
  /\ length (controllers (closeSession w)) = length (controllers w)
  /\ clock (closeSession w) = clock w
  /\ forall s k,
       session w = Some s -> abortController s = Some k ->
       k < length (controllers w) -> aborted (closeSession w) k = true.
Proof.
  unfold closeSession.
  destruct (session w) as [s|] eqn:Hs.
  - destruct (cancelCurrentRequest_quiet w) as [Hlen _].
    repeat split; simpl; try assumption.
    + unfold cancelCurrentRequest. rewrite Hs. destruct (abortController s); reflexivity.
    + unfold cancelCurrentRequest. rewrite Hs. destruct (abortController s); reflexivity.
    + intros s0 k E Hk Hlt. simplify_eq.
      apply (cancelCurrentRequest_fires w s0 k); assumption.
  - repeat split; try assumption. intros s k E. discriminate.
Qed.

Lemma createSession_closes boot processEnv projectPath w w1 r :
  createSession boot processEnv projectPath w = (w1, r) ->
  pendingToolConfirmation w1 = pendingToolConfirmation w
  /\ length (controllers w1) = length (controllers w)
  /\ (forall s k,
        session w = Some s -> abortController s = Some k ->
        k < length (controllers w) -> aborted w1 k = true)
  /\ match r with
     | inl err => session w1 = None
     | inr sessionId =>
         sessionId = randomUUID boot
         /\ session w1
            = Some {| id := sessionId;
                      projectPath := projectPath;
                      config := {| sessionId := sessionId;
                                   cwd := projectPath;
                                   model := chainAt 0 |};
                      abortController := None;
                      currentModelIndex := 0 |}
     end.
Proof.
  unfold createSession. intros H.
  destruct (closeSession_spec w) as (Hnone & Hp & Hlen & _ & Hfire).
  assert (Hw1 : exists w0,
            w0 = match session w with Some _ => closeSession w | None => w end
            /\ session w0 = None
            /\ pendingToolConfirmation w0 = pendingToolConfirmation w
            /\ length (controllers w0) = length (controllers w)
            /\ forall s k,
                 session w = Some s -> abortController s = Some k ->
                 k < length (controllers w) -> aborted w0 k = true).
  { eexists. split; [reflexivity|].
    destruct (session w) eqn:Hs; [auto|].
    repeat split; auto. intros s k E. discriminate. }
  destruct Hw1 as (w0 & Heq & Hs0 & Hp0 & Hl0 & Hf0).
  cbv zeta in H. rewrite <- Heq in H. clear Heq.
  destruct (initialize boot); [|destruct (refreshAuth boot _)];
    injection H as <- <-; simpl; auto.
Qed.

(** X9: [createSession] replaces the session by a new one for the project,
    on the first model of the chain and without abort controller, whatever
    the old session had fallen back to; the turn in flight of the old
    session is aborted; and the next [sendMessage] opens its first stream on
    [gemini-2.5-pro] with the user's text. *)
Theorem createSession_starts_over boot processEnv path w w1 sessionId :
  createSession boot processEnv path w = (w1, inr sessionId) ->
  (exists s1,
     session w1 = Some s1
     /\ id s1 = sessionId
     /\ projectPath s1 = path
     /\ coherent s1
     /\ abortController s1 = None)
  /\ getCurrentModel w1 = "gemini-2.5-pro"
  /\ (forall s k,
        session w = Some s -> abortController s = Some k ->
        k < length (controllers w) -> aborted w1 k = true)
  /\ forall env userMessage w' acts c,
       sendMessage env userMessage w1 = (w', acts, c) ->
       exists rest,
         acts = openStream "gemini-2.5-pro" [TextPart userMessage]
                  (length (controllers w)) :: rest.
Proof.
  intros H. apply createSession_closes in H as (_ & Hlen & Hfire & -> & Hs1).
  split; [|split; [|split]].
  - eexists. split; [exact Hs1|]. simpl. repeat split. vm_compute. lia.
  - unfold getCurrentModel. rewrite Hs1. reflexivity.
  - exact Hfire.
  - intros env userMessage w' acts c Hsend. unfold sendMessage in Hsend.
    destruct (enter w1) as [[[w2 modelName] signal]|] eqn:Ee.
    + apply enter_spec in Ee as (s & Hs & -> & -> & _).
      rewrite Hs1 in Hs. injection Hs as <-.
      apply resume_first_action in Hsend. rewrite Hlen in Hsend. exact Hsend.
    + unfold enter in Ee. rewrite Hs1 in Ee. discriminate.
Qed.

Lemma createSession_starts_over_witness :
  exists rest,
    (sendMessage Scenario.listFiles "list files"
       (createSession Server.boot ∅ "/p" Server.busy).1).1.2
    = openStream "gemini-2.5-pro" [TextPart "list files"] 1 :: rest.
Proof.
  refine (proj2 (proj2 (proj2
            (createSession_starts_over Server.boot ∅ "/p" Server.busy
               (createSession Server.boot ∅ "/p" Server.busy).1 "s-2" _)))
            Scenario.listFiles "list files"
            (sendMessage Scenario.listFiles "list files"
               (createSession Server.boot ∅ "/p" Server.busy).1).1.1
            _
            (sendMessage Scenario.listFiles "list files"
               (createSession Server.boot ∅ "/p" Server.busy).1).2 _).
  - reflexivity.
  - destruct (sendMessage Scenario.listFiles "list files" _) as [[? ?] ?].
    reflexivity.
Defined.

(** X10: [createSession] rejects exactly when [config.initialize()]
    rejects or, after it, [config.refreshAuth()] does, and with that error.
    The manager is then left without a session: the old one was closed, and
    its turn aborted, before the new one was set up.  [sendMessage] then
    rejects with [No active session]. *)
Theorem createSession_failure_closes boot processEnv path w err :
  initialize boot = Some err
  \/ (initialize boot = None
      /\ refreshAuth boot (detectAuthType processEnv) = Some err)
  <-> exists w1,
        createSession boot processEnv path w = (w1, inl err)
        /\ session w1 = None
        /\ isSessionActive w1 = false
        /\ pendingToolConfirmation w1 = pendingToolConfirmation w
        /\ (forall s k,
              session w = Some s -> abortController s = Some k ->
              k < length (controllers w) -> aborted w1 k = true)
        /\ forall env userMessage,
             sendMessage env userMessage w1 = (w1, [], Rejects noActiveSession).
Proof.
  split.
  - intros Hcause.
    destruct (createSession boot processEnv path w) as [w1 r] eqn:H.
    assert (Hr : r = inl err).
    { unfold createSession in H.
      destruct Hcause as [Hi|[Hi Ha]]; rewrite Hi in H; [|rewrite Ha in H];
        injection H as _ <-; reflexivity. }
    subst r. exists w1.
    pose proof (createSession_closes _ _ _ _ _ _ H) as (Hp & _ & Hfire & Hs1).
    split; [reflexivity|]. split; [exact Hs1|]. split; [|split; [exact Hp|split]].
    + unfold isSessionActive. rewrite Hs1. apply bool_decide_eq_false.
      intros [s Hs]. discriminate.
    + exact Hfire.
    + intros env userMessage. unfold sendMessage, enter. rewrite Hs1. reflexivity.
  - intros (w1 & H & _). unfold createSession in H.
    destruct (initialize boot); [injection H as _ <-; auto|].
    destruct (refreshAuth boot _); [injection H as _ <-; auto|discriminate].
Qed.

Lemma createSession_failure_closes_witness :
  (exists w1,
     createSession Server.failing ∅ "/p" Server.busy
     = (w1, inl (Js.ErrorObject "Error" "no settings"))
     /\ session w1 = None /\ aborted w1 0 = true)
  /\ (exists w1,
        createSession Server.unauthenticated ∅ "/p" Server.busy
        = (w1, inl (Js.ErrorObject "Error" "auth failed"))
        /\ session w1 = None /\ aborted w1 0 = true).
Proof.
  split.
  - destruct (proj1 (createSession_failure_closes Server.failing ∅ "/p" Server.busy
                       (Js.ErrorObject "Error" "no settings")) (or_introl eq_refl))
      as (w1 & Hc & Hs & _ & _ & Hfire & _).
    exists w1. split; [exact Hc|]. split; [exact Hs|].
    apply (Hfire (with_abortController (Scenario.session0 2) (Some 0)) 0);
      [reflexivity|reflexivity|simpl; lia].
  - destruct (proj1 (createSession_failure_closes Server.unauthenticated ∅ "/p"
                       Server.busy (Js.ErrorObject "Error" "auth failed"))
                (or_intror (conj eq_refl eq_refl)))
      as (w1 & Hc & Hs & _ & _ & Hfire & _).
    exists w1. split; [exact Hc|]. split; [exact Hs|].
    apply (Hfire (with_abortController (Scenario.session0 2) (Some 0)) 0);
      [reflexivity|reflexivity|simpl; lia].
Defined.

(** X11: neither [closeSession] nor [createSession] touches the pending
    confirmation.  One that is pending when the session is replaced stays
    pending: [confirmTool] still resolves it, with the closure of the old
    call, and until then the scheduler callback announces no call of a turn
    of the new session that awaits approval: every [tool_confirm_request]
    of such a turn is a confirmation event of its stream, forwarded with
    the details of the event. *)
Theorem confirmation_outlives_session boot processEnv path w w1 r p :
  pendingToolConfirmation w = Some p ->
  createSession boot processEnv path w = (w1, r) ->
  pendingToolConfirmation (closeSession w) = Some p
  /\ hasPendingConfirmation w1 = true
  /\ (forall confirmed,
        confirmTool confirmed w1
        = (with_pending w1 None,
           [callOnConfirm (pendingOnConfirm p)
              (if confirmed then ProceedOnce else Cancel)]))
  /\ forall env userMessage w' acts c,
       sendMessage env userMessage w1 = (w', acts, c) ->
       forallb (fun a => negb (resolves a)) acts = true ->
       pendingToolConfirmation w' = Some p
       /\ forallb (fun a => negb (asksConfirmation a)) acts = true
       /\ forall toolName args details,
            onEvent (tool_confirm_request toolName args details) ∈ acts ->
            exists forwarded, details = RawDetails forwarded.
Proof.
  intros Hp H. apply createSession_closes in H as (Hp1 & _).
  rewrite Hp in Hp1.
  split; [|split; [|split]].
  - destruct (closeSession_spec w) as (_ & -> & _). exact Hp.
  - unfold hasPendingConfirmation. rewrite Hp1. apply bool_decide_eq_true. eauto.
  - intros confirmed. unfold confirmTool. rewrite Hp1. reflexivity.
  - intros env userMessage w' acts c Hsend Hres.
    apply sendMessage_slotFollows in Hsend as [_ Hkeep].
    destruct (Hkeep p Hp1 Hres) as [Hp' Hno].
    split; [exact Hp'|]. split; [exact Hno|].
    intros toolName args details Hin.
    rewrite forallb_forall in Hno. apply list_elem_of_In in Hin.
    specialize (Hno _ Hin). destruct details; [eauto|discriminate].
Qed.

Lemma confirmation_outlives_session_witness :
  pendingToolConfirmation
    (sendMessage Server.unanswered "write a.txt"
       (createSession Server.boot ∅ "/p" Server.asked).1).1.1
  = pendingToolConfirmation Server.asked
  /\ forallb (fun a => negb (asksConfirmation a))
       (sendMessage Server.unanswered "write a.txt"
          (createSession Server.boot ∅ "/p" Server.asked).1).1.2 = true.
Proof.
  destruct (proj2 (proj2 (proj2
              (confirmation_outlives_session Server.boot ∅ "/p" Server.asked
                 (createSession Server.boot ∅ "/p" Server.asked).1
                 (createSession Server.boot ∅ "/p" Server.asked).2
                 {| pendingToolName := "shell";
                    pendingArgs := [("cmd", "rm -rf .")];
                    pendingDetails := Confirmations.askRm;
                    pendingOnConfirm := "resolve call-2" |}
                 eq_refl
                 ltac:(destruct (createSession Server.boot ∅ "/p" Server.asked);
                       reflexivity))))
              Server.unanswered "write a.txt"
              (sendMessage Server.unanswered "write a.txt"
                 (createSession Server.boot ∅ "/p" Server.asked).1).1.1
              (sendMessage Server.unanswered "write a.txt"
                 (createSession Server.boot ∅ "/p" Server.asked).1).1.2
              (sendMessage Server.unanswered "write a.txt"
                 (createSession Server.boot ∅ "/p" Server.asked).1).2
              ltac:(destruct (sendMessage Server.unanswered "write a.txt" _)
                      as [[? ?] ?]; reflexivity)
              ltac:(vm_compute; reflexivity))
    as (Hp & Hno & _).
  split; [exact Hp|exact Hno].
Defined.

(** ** The websocket handlers *)

Lemma observed_app (a b : list Action) :
  observed (a ++ b) = observed a ++ observed b.
Proof.
  induction a as [|x a IH]; [reflexivity|].
  destruct x; simpl; rewrite ?IH; reflexivity.
Qed.

Lemma streamed_app (a b : list Frame.t) :
  WebSocket.streamed (a ++ b) = WebSocket.streamed a ++ WebSocket.streamed b.
Proof.
  induction a as [|x a IH]; [reflexivity|].
  destruct x; simpl; rewrite ?IH; reflexivity.
Qed.

Lemma streamed_stream (events : list WebStreamEvent) :
  WebSocket.streamed (map Frame.stream events) = events.
Proof. induction events as [|e events IH]; simpl; congruence. Qed.

(** What [handleChatMessage] does, case by case. *)
Lemma handleChatMessage_cases env payload w w' acts frames handled :
  WebSocket.handleChatMessage env payload w = (w', acts, frames, handled) ->
  (w' = w /\ acts = [] /\ frames = []
   /\ (forall message, payload <> Value.str message)
   /\ exists err, handled = WebSocket.Raises err)
  \/ (w' = w /\ acts = [] /\ handled = WebSocket.Completes
      /\ (session w = None \/ forall message, payload = Value.str message -> message = "")
      /\ (frames = WebSocket.sendError "No active session. Please select a project first."
          \/ frames = WebSocket.sendError "Message is required"))
  \/ exists message s c,
       payload = Value.str message /\ message <> "" /\ session w = Some s
       /\ sendMessage env message w = (w', acts, c)
       /\ match c with
          | Returns =>
              frames = map Frame.stream (observed acts)
              /\ handled = WebSocket.Completes
          | Rejects err =>
              frames = map Frame.stream (observed acts)
                       ++ WebSocket.sendError (Js.messageOr "Chat error" err)
              /\ handled = WebSocket.Completes
          | _ =>
              frames = map Frame.stream (observed acts)
              /\ handled = WebSocket.Hangs
          end.
Proof.
  unfold WebSocket.handleChatMessage. intros H.
  destruct (WebSocket.lengthLogged payload) eqn:Hlog; simpl in H;
    [|injection H as <- <- <- <-; left; repeat split; eauto;
      intros message ->; discriminate].
  unfold isSessionActive in H. case_bool_decide as Hs; simpl in H.
  - destruct Hs as [s0 Hs].
    destruct payload as [| | | |message| |];
      try (injection H as <- <- <- <-; right; left;
           repeat split; [right; intros m E; discriminate|auto]).
    cbn [Value.truthy] in H.
    destruct (String.eqb message "") eqn:Hm; simpl in H.
    + apply String.eqb_eq in Hm as ->.
      injection H as <- <- <- <-. right. left.
      repeat split; [right; intros m E; congruence|auto].
    + apply String.eqb_neq in Hm.
      destruct (sendMessage env message w) as [[w1 a1] c] eqn:Hsend.
      right. right. exists message, s0, c.
      destruct c; cbn in H; injection H as <- <- <- <-; auto 10.
  - injection H as <- <- <- <-. right. left. repeat split; [|auto].
    left. destruct (session w) eqn:E; [|reflexivity]. destruct Hs. eauto.
Qed.

(** X12: [handleChatMessage] sends one [stream] frame for each event of
    the turn, in their order, and, when it completes, ends with a frame
    that closes the turn of the client: an [error] frame, or the [stream]
    frame of an [error], [cancelled] or [finished] event. *)
Theorem handleChatMessage_closes env payload w w' acts frames handled :
  WebSocket.handleChatMessage env payload w = (w', acts, frames, handled) ->
  WebSocket.streamed frames = observed acts
  /\ (handled = WebSocket.Completes ->
      exists before last,
        frames = before ++ [last] /\ WebSocket.closes last = true).
Proof.
  intros H. apply handleChatMessage_cases in H
    as [(-> & -> & -> & _ & err & ->)
       |[(-> & -> & -> & _ & [->| ->])
        |(message & s & c & -> & Hne & Hs & Hsend & Hc)]].
  - split; [reflexivity|discriminate].
  - split; [reflexivity|]. intros _. eexists [], _. split; reflexivity.
  - split; [reflexivity|]. intros _. eexists [], _. split; reflexivity.
  - apply sendMessage_closing in Hsend as [Hclosed _].
    destruct c; destruct Hc as [-> ->].
    + split; [apply streamed_stream|]. intros _.
      destruct (Hclosed eq_refl) as (a0 & e & -> & He & _).
      rewrite observed_app, map_app. simpl. eauto.
    + rewrite streamed_app, streamed_stream. simpl. rewrite app_nil_r.
      split; [reflexivity|]. intros _. eexists _, _. split; [reflexivity|reflexivity].
    + split; [apply streamed_stream|discriminate].
    + split; [apply streamed_stream|discriminate].
Qed.

Lemma handleChatMessage_closes_witness :
  exists before last,
    (WebSocket.handleChatMessage Server.closedMeanwhile (Value.str "hello")
       (Scenario.active 0)).1.2
    = before ++ [last]
    /\ WebSocket.closes last = true.
Proof.
  refine (proj2 (handleChatMessage_closes Server.closedMeanwhile (Value.str "hello")
                   (Scenario.active 0)
                   (WebSocket.handleChatMessage Server.closedMeanwhile
                      (Value.str "hello") (Scenario.active 0)).1.1.1
                   (WebSocket.handleChatMessage Server.closedMeanwhile
                      (Value.str "hello") (Scenario.active 0)).1.1.2
                   _ WebSocket.Completes _) eq_refl).
  vm_compute. reflexivity.
Defined.

(** X13: a chat message starts a turn exactly when a session is active and
    its payload is a string that is not empty; the turn then begins by
    opening a stream on the model of the session with that string as its
    one text part.  Otherwise the manager is left as it is and nothing is
    streamed. *)
Theorem handleChatMessage_turn env payload w w' acts frames handled :
  WebSocket.handleChatMessage env payload w = (w', acts, frames, handled) ->
  (forall message s,
     payload = Value.str message -> message <> "" -> session w = Some s ->
     exists rest,
       acts = openStream (model (config s)) [TextPart message]
                (length (controllers w)) :: rest)
  /\ (session w = None
      \/ (forall message, payload = Value.str message -> message = "") ->
      w' = w /\ acts = [] /\ WebSocket.streamed frames = []
      /\ handled <> WebSocket.Hangs).
Proof.
  intros H. apply handleChatMessage_cases in H
    as [(-> & -> & -> & Hobj & err & ->)
       |[(-> & -> & -> & Hwhy & Hf)
        |(message & s & c & -> & Hne & Hs & Hsend & Hc)]].
  - split.
    + intros message s E. destruct (Hobj _ E).
    + intros _. repeat split. discriminate.
  - split.
    + intros message s -> Hne Hs. destruct Hwhy as [Hnone|Hempty]; [congruence|].
      destruct (Hne (Hempty _ eq_refl)).
    + intros _. repeat split; [|discriminate]. destruct Hf as [->| ->]; reflexivity.
  - split.
    + intros m s0 E _ Hs0. injection E as <-. rewrite Hs in Hs0. injection Hs0 as <-.
      unfold sendMessage in Hsend.
      destruct (enter w) as [[[w1 modelName] signal]|] eqn:Ee.
      * apply enter_spec in Ee as (s1 & Hs1 & -> & -> & _).
        rewrite Hs in Hs1. injection Hs1 as <-.
        apply resume_first_action in Hsend. exact Hsend.
      * unfold enter in Ee. rewrite Hs in Ee. discriminate.
    + intros [Hnone|Hempty]; [congruence|]. destruct (Hne (Hempty _ eq_refl)).
Qed.

Lemma handleChatMessage_turn_witness :
  exists rest,
    (WebSocket.handleChatMessage Scenario.listFiles (Value.str "list files")
       (Scenario.active 0)).1.1.2
    = openStream "gemini-2.5-pro" [TextPart "list files"] 0 :: rest.
Proof.
  refine (proj1 (handleChatMessage_turn Scenario.listFiles (Value.str "list files")
                   (Scenario.active 0)
                   (WebSocket.handleChatMessage Scenario.listFiles
                      (Value.str "list files") (Scenario.active 0)).1.1.1
                   _
                   (WebSocket.handleChatMessage Scenario.listFiles
                      (Value.str "list files") (Scenario.active 0)).1.2
                   (WebSocket.handleChatMessage Scenario.listFiles
                      (Value.str "list files") (Scenario.active 0)).2 _)
            "list files" (Scenario.session0 0) eq_refl _ eq_refl).
  - vm_compute. reflexivity.
  - discriminate.
Defined.

(** X14: over the websocket a [confirm_tool] message approves the pending
    call whenever [confirmed] is truthy (the string ["false"] approves),
    over [POST /api/tool/confirm] only when it is the boolean [true]; both
    clear the pending confirmation.  With nothing pending the websocket
    message is ignored without an answer, and the route answers 400. *)
Theorem confirm_tool_websocket_and_route env message payload confirmed printed w :
  Value.get "type" message = Some (Value.str "confirm_tool") ->
  Value.get "payload" message = Some payload ->
  Value.get "confirmed" payload = Some confirmed ->
  Value.toString confirmed = Some printed ->
  match pendingToolConfirmation w with
  | Some p =>
      WebSocket.onMessage env (Some message) w
      = (with_pending w None,
         [callOnConfirm (pendingOnConfirm p)
            (if Value.truthy confirmed then ProceedOnce else Cancel)],
         [], WebSocket.Completes)
      /\ Routes.postToolConfirm payload w
         = Some (with_pending w None,
                 [callOnConfirm (pendingOnConfirm p)
                    (if Value.isTrue confirmed then ProceedOnce else Cancel)],
                 Http.success)
  | None =>
      WebSocket.onMessage env (Some message) w = (w, [], [], WebSocket.Completes)
      /\ Routes.postToolConfirm payload w
         = Some (w, [], Http.failure 400 "No pending confirmation")
  end.
Proof.
  intros Ht Hp Hc Hs.
  unfold WebSocket.onMessage, WebSocket.handleMessage, Routes.postToolConfirm.
  rewrite Ht, Hp, Hc. simpl. rewrite Hs.
  unfold confirmTool, hasPendingConfirmation.
  destruct (pendingToolConfirmation w) as [p|]; split; reflexivity.
Qed.

Lemma confirm_tool_websocket_and_route_witness :
  WebSocket.onMessage Scenario.listFiles (Some (Server.confirm (Value.str "false")))
    Server.asked
  = (with_pending Server.asked None,
     [callOnConfirm "resolve call-2" ProceedOnce], [], WebSocket.Completes)
  /\ Routes.postToolConfirm (Value.object [("confirmed", Value.str "false")]) Server.asked
     = Some (with_pending Server.asked None,
             [callOnConfirm "resolve call-2" Cancel], Http.success).
Proof.
  apply (confirm_tool_websocket_and_route Scenario.listFiles
           (Server.confirm (Value.str "false"))
           (Value.object [("confirmed", Value.str "false")])
           (Value.str "false") "false" Server.asked);
    reflexivity.
Defined.

Lemma handleChatMessage_raises env payload w w' acts frames err :
  WebSocket.handleChatMessage env payload w = (w', acts, frames, WebSocket.Raises err) ->
  w' = w /\ acts = [] /\ frames = [].
Proof.
  intros H. apply handleChatMessage_cases in H
    as [(-> & -> & -> & _)
       |[(_ & _ & Hh & _)|(message & s & c & _ & _ & _ & _ & Hc)]]; auto.
  - discriminate.
  - destruct c; destruct Hc as [_ Hh]; discriminate.
Qed.

Lemma handleMessage_raises env message w w' acts frames err :
  WebSocket.handleMessage env message w = (w', acts, frames, WebSocket.Raises err) ->
  w' = w /\ acts = [] /\ frames = [].
Proof.
  unfold WebSocket.handleMessage. intros H.
  destruct (Value.get "type" message) as [type|];
    [destruct (Value.get "payload" message) as [payload|]|];
    try (injection H as <- <- <- _; auto).
  destruct (Value.equals "chat" type); [eapply handleChatMessage_raises; eauto|].
  destruct (Value.equals "confirm_tool" type).
  { destruct (Value.get "confirmed" payload) as [confirmed|];
      [|injection H as <- <- <- _; auto].
    destruct (Value.toString confirmed); [|injection H as <- <- <- _; auto].
    destruct (confirmTool _ w). discriminate. }
  destruct (Value.equals "cancel" type); [discriminate|].
  destruct (Value.equals "ping" type); [discriminate|].
  destruct (Value.toString type); [discriminate|injection H as <- <- <- _; auto].
Qed.


(** X15: the handler of a websocket message never throws.  It answers
    [Invalid message format], as the only frame, with nothing done and the
    manager as it was, when the text is no JSON, when the message is [null],
    when its type cannot be printed, and when [handleMessage] throws (a
    chat payload whose length cannot be printed, [confirm_tool] without a
    payload or with a value of [confirmed] that cannot be printed, an
    unknown type that cannot be printed).  In every other case it does what
    [handleMessage] does and adds no frame; a rejection of [sendMessage] is
    not such a case: [handleChatMessage] catches it and sends its message
    in an [error] frame after the frames of the stream. *)
Theorem onMessage_invalid env data w :
  (forall err, (WebSocket.onMessage env data w).2 <> WebSocket.Raises err)
  /\ (data = None
      \/ (exists message,
            data = Some message
            /\ (Value.get "type" message = None
                \/ (exists type, Value.get "type" message = Some type
                                 /\ Value.toString type = None)
                \/ exists err,
                     (WebSocket.handleMessage env message w).2 = WebSocket.Raises err)) ->
      WebSocket.onMessage env data w
      = (w, [], [Frame.error "Invalid message format"], WebSocket.Completes))
  /\ (forall message type printed,
        data = Some message ->
        Value.get "type" message = Some type ->
        Value.toString type = Some printed ->
        (forall err, (WebSocket.handleMessage env message w).2 <> WebSocket.Raises err) ->
        WebSocket.onMessage env data w = WebSocket.handleMessage env message w)
  /\ (forall message w1 acts c,
        message <> "" -> is_Some (session w) ->
        sendMessage env message w = (w1, acts, c) ->
        WebSocket.handleChatMessage env (Value.str message) w
        = (w1, acts,
           map Frame.stream (observed acts)
           ++ match c with
              | Rejects err => [Frame.error (Js.messageOr "Chat error" err)]
              | _ => []
              end,
           match c with
           | Returns | Rejects _ => WebSocket.Completes
           | _ => WebSocket.Hangs
           end)).
Proof.
  split; [|split; [|split]].
  - intros err. unfold WebSocket.onMessage.
    destruct data as [message|]; [|discriminate].
    destruct (Value.get "type" message) as [type|]; [|discriminate].
    destruct (Value.toString type); [|discriminate].
    destruct (WebSocket.handleMessage env message w) as [[[w1 a1] f1] h1].
    destruct h1; discriminate.
  - unfold WebSocket.onMessage.
    intros [->|(message & -> & [Hget|[(type & Hget & Hprint)|[err Hraise]]])].
    + reflexivity.
    + rewrite Hget. reflexivity.
    + rewrite Hget, Hprint. reflexivity.
    + destruct (Value.get "type" message) as [type|]; [|reflexivity].
      destruct (Value.toString type); [|reflexivity].
      destruct (WebSocket.handleMessage env message w) as [[[w1 a1] f1] h1] eqn:Hm.
      simpl in Hraise. subst h1.
      apply handleMessage_raises in Hm as (-> & -> & ->). reflexivity.
  - intros message type printed -> Hget Hprint Hno.
    unfold WebSocket.onMessage. rewrite Hget, Hprint.
    destruct (WebSocket.handleMessage env message w) as [[[w1 a1] f1] h1].
    destruct h1 as [|err|]; try reflexivity. destruct (Hno err eq_refl).
  - intros message w1 acts c Hne Hs Hsend.
    unfold WebSocket.handleChatMessage. simpl WebSocket.lengthLogged.
    unfold isSessionActive. rewrite bool_decide_eq_true_2 by exact Hs.
    cbn [negb Value.truthy].
    apply String.eqb_neq in Hne. rewrite Hne. cbn [negb]. rewrite Hsend.
    destruct c; rewrite ?app_nil_r; reflexivity.
Qed.

Lemma onMessage_invalid_witness :
  WebSocket.onMessage Scenario.listFiles
    (Some (Value.object [("type", Value.str "confirm_tool")])) Server.asked
  = (Server.asked, [], [Frame.error "Invalid message format"], WebSocket.Completes)
  /\ WebSocket.onMessage Server.authFails (Some (Server.chat "hello")) (Scenario.active 0)
     = WebSocket.handleChatMessage Server.authFails (Value.str "hello") (Scenario.active 0)
  /\ (WebSocket.handleChatMessage Server.authFails (Value.str "hello")
        (Scenario.active 0)).1.2
     = [Frame.error "auth failed"].
Proof.
  split; [|split].
  - apply (proj1 (proj2 (onMessage_invalid Scenario.listFiles
                           (Some (Value.object [("type", Value.str "confirm_tool")]))
                           Server.asked))).
    right. eexists. split; [reflexivity|]. right. right. eexists.
    vm_compute. reflexivity.
  - apply (proj1 (proj2 (proj2 (onMessage_invalid Server.authFails
                                  (Some (Server.chat "hello")) (Scenario.active 0))))
             (Server.chat "hello") (Value.str "chat") "chat");
      try reflexivity.
    intros err. vm_compute. discriminate.
  - rewrite (proj2 (proj2 (proj2 (onMessage_invalid Server.authFails None
                                    (Scenario.active 0))))
               "hello"
               (sendMessage Server.authFails "hello" (Scenario.active 0)).1.1
               (sendMessage Server.authFails "hello" (Scenario.active 0)).1.2
               (sendMessage Server.authFails "hello" (Scenario.active 0)).2);
      [vm_compute; reflexivity|discriminate|eexists; reflexivity|].
    destruct (sendMessage Server.authFails "hello" (Scenario.active 0)) as [[? ?] ?].
    reflexivity.
Defined.

(** ** Authentication *)

Lemma bearer_spec (authHeader : option string) (token : string) :
  Auth.bearer authHeader = Some token <-> authHeader = Some ("Bearer " +:+ token).
Proof.
  unfold Auth.bearer. split.
  - destruct authHeader as [header|]; [|discriminate].
    destruct (negb (String.eqb header "")); simpl; [|discriminate].
    destruct (String.prefix "Bearer " header) eqn:Hp; [|discriminate].
    apply prefix_spec in Hp as [rest ->]. intros H. injection H as <-. reflexivity.
  - intros ->.
    assert (Hp : String.prefix "Bearer " ("Bearer " +:+ token) = true)
      by (apply prefix_spec; eauto).
    rewrite Hp. reflexivity.
Qed.

Lemma guarded_spec (path : string) :
  Auth.guarded path
  = negb (String.eqb path "/api/auth/login"
          || String.eqb path "/api/auth/check"
          || negb (String.prefix "/api" path)).
Proof.
  unfold Auth.guarded.
  destruct (String.eqb path "/api/auth/login"), (String.eqb path "/api/auth/check"),
    (String.prefix "/api" path); reflexivity.
Qed.

Lemma authMiddleware_next_iff (path : string) (authorization : option string)
    (activeTokens : Auth.Tokens) :
  Auth.authMiddleware path authorization activeTokens = Auth.next
  <-> Auth.guarded path = false
      \/ exists token,
           authorization = Some ("Bearer " +:+ token) /\ token ∈ activeTokens.
Proof.
  unfold Auth.authMiddleware. rewrite guarded_spec.
  destruct (String.eqb path "/api/auth/login" || String.eqb path "/api/auth/check"
            || negb (String.prefix "/api" path)); simpl; [tauto|].
  destruct (Auth.bearer authorization) as [token|] eqn:Hb.
  - apply bearer_spec in Hb as ->. unfold Auth.isValidToken.
    case_bool_decide as Hin; simpl.
    + split; [eauto|reflexivity].
    + split; [discriminate|]. intros [?|(token' & E & Hin')]; [discriminate|].
      injection E as E. change (token = token') in E. subst. contradiction.
  - split; [discriminate|]. intros [?|(token & E & _)]; [discriminate|].
    apply bearer_spec in E. congruence.
Qed.

(** X16: [authMiddleware] calls [next()] exactly when the path is not a
    guarded one (it is one of the two open endpoints, or does not start
    with the lower-case [/api]), or the [Authorization] header is
    [Bearer ] followed by an active token.  In every other case it answers
    401 and does not call [next()]: with [Unauthorized] when the header is
    missing or does not start with [Bearer ], and with [Invalid token] when
    what follows [Bearer ] is no active token.  It never throws. *)
Theorem authMiddleware_next (path : string) (authorization : option string)
    (activeTokens : Auth.Tokens) :
  (Auth.authMiddleware path authorization activeTokens = Auth.next
   <-> Auth.guarded path = false
       \/ exists token,
            authorization = Some ("Bearer " +:+ token) /\ token ∈ activeTokens)
  /\ (Auth.authMiddleware path authorization activeTokens
      = Auth.replied (Http.failure 401 "Unauthorized")
      <-> Auth.guarded path = true
          /\ forall token, authorization <> Some ("Bearer " +:+ token))
  /\ (Auth.authMiddleware path authorization activeTokens
      = Auth.replied (Http.failure 401 "Invalid token")
      <-> Auth.guarded path = true
          /\ exists token,
               authorization = Some ("Bearer " +:+ token) /\ token ∉ activeTokens)
  /\ (Auth.authMiddleware path authorization activeTokens = Auth.next
      \/ Auth.authMiddleware path authorization activeTokens
         = Auth.replied (Http.failure 401 "Unauthorized")
      \/ Auth.authMiddleware path authorization activeTokens
         = Auth.replied (Http.failure 401 "Invalid token")).
Proof.
  split; [apply authMiddleware_next_iff|].
  unfold Auth.authMiddleware. rewrite guarded_spec.
  destruct (String.eqb path "/api/auth/login" || String.eqb path "/api/auth/check"
            || negb (String.prefix "/api" path)); simpl.
  { split; [|split; [|auto]]; (split; [discriminate|intros [? _]; discriminate]). }
  destruct (Auth.bearer authorization) as [token|] eqn:Hb.
  - apply bearer_spec in Hb as ->. unfold Auth.isValidToken.
    case_bool_decide as Hin; simpl.
    + split; [|split; [|auto]].
      * split; [discriminate|]. intros [_ Hno]. destruct (Hno token eq_refl).
      * split; [discriminate|]. intros (_ & token' & E & Hout).
        injection E as E. change (token = token') in E. subst. contradiction.
    + split; [|split; [|auto]].
      * split; [discriminate|]. intros [_ Hno]. destruct (Hno token eq_refl).
      * split; [eauto|reflexivity].
  - split; [|split; [|auto]].
    + split; [|reflexivity]. intros _. split; [reflexivity|].
      intros token E. apply bearer_spec in E. congruence.
    + split; [discriminate|]. intros (_ & token & E & _).
      apply bearer_spec in E. congruence.
Qed.

Lemma serve_app (a b : list Auth.Request) (activeTokens : Auth.Tokens) :
  Auth.serve (a ++ b) activeTokens
  = let '(answers1, activeTokens1) := Auth.serve a activeTokens in
    let '(answers2, activeTokens2) := Auth.serve b activeTokens1 in
    (answers1 ++ answers2, activeTokens2).
Proof.
  revert activeTokens. induction a as [|r a IH]; intros activeTokens; simpl.
  - destruct (Auth.serve b activeTokens). reflexivity.
  - destruct (Auth.handle r activeTokens) as [answer t1]. rewrite IH.
    destruct (Auth.serve a t1) as [answers1 t2].
    destruct (Auth.serve b t2) as [answers2 t3]. reflexivity.
Qed.

(** What one request does to a token. *)
Lemma handle_token (r : Auth.Request) (activeTokens : Auth.Tokens) (token : string) :
  token ∈ (Auth.handle r activeTokens).2
  <-> Auth.issues token r = true
      \/ (token ∈ activeTokens /\ Auth.revokes token r = false).
Proof.
  destruct r as [body generated|authorization|authorization|path authorization]; simpl.
  - unfold Auth.login.
    destruct (Value.get "username" body) as [username|];
      [destruct (Value.get "password" body) as [password|]|]; simpl;
      try (split; [auto|intros [?|[? _]]; [discriminate|assumption]]).
    destruct (Auth.validateCredentials username password) eqn:Hv; simpl.
    + assert (Ht : Value.truthy username = true /\ Value.truthy password = true).
      { unfold Auth.validateCredentials in Hv. apply andb_prop in Hv as [Hu Hp].
        destruct username, password; try discriminate. simpl in *.
        apply String.eqb_eq in Hu as ->. apply String.eqb_eq in Hp as ->. auto. }
      destruct Ht as [-> ->]. simpl. rewrite elem_of_union, elem_of_singleton.
      split.
      * intros [->|Hin]; [left; apply String.eqb_refl|auto].
      * intros [E|[Hin _]]; [left; symmetry; apply String.eqb_eq; exact E|auto].
    + destruct (negb (Value.truthy username) || negb (Value.truthy password)); simpl;
        (split; [auto|intros [?|[? _]]; [discriminate|assumption]]).
  - destruct (Auth.bearer authorization) as [t|] eqn:Hb.
    + unfold Auth.invalidateToken. rewrite elem_of_difference, elem_of_singleton.
      split.
      * intros [Hin Hne]. right. split; [exact Hin|].
        apply bool_decide_eq_false. congruence.
      * intros [?|[Hin Hr]]; [discriminate|]. split; [exact Hin|].
        apply bool_decide_eq_false in Hr. congruence.
    + split; [intros Hin; right; split; [exact Hin|]|intros [?|[? _]]; [discriminate|auto]].
      apply bool_decide_eq_false. discriminate.
  - split; [auto|intros [?|[? _]]; [discriminate|assumption]].
  - split; [auto|intros [?|[? _]]; [discriminate|assumption]].
Qed.

Lemma serve_tokens (requests : list Auth.Request) (token : string) :
  token ∈ (Auth.serve requests ∅).2
  <-> exists before r after,
        requests = before ++ r :: after
        /\ Auth.issues token r = true
        /\ forallb (fun r' => negb (Auth.revokes token r')) after = true.
Proof.
  induction requests as [|r requests IH] using rev_ind.
  - simpl. split; [intros H; apply elem_of_empty in H; destruct H|].
    intros (before & r & after & H & _). destruct before; discriminate.
  - rewrite serve_app. destruct (Auth.serve requests ∅) as [answers1 t1] eqn:Hs1.
    simpl in IH. simpl.
    destruct (Auth.handle r t1) as [answer t2] eqn:Hh. simpl.
    change (token ∈ (answer, t2).2 <->
            (exists before r0 after,
               requests ++ [r] = before ++ r0 :: after
               /\ Auth.issues token r0 = true
               /\ forallb (fun r' => negb (Auth.revokes token r')) after = true)).
    rewrite <- Hh, handle_token, IH. split.
    + intros [Hi|[(before & r0 & after & -> & Hi & Hafter) Hr]].
      * exists requests, r, []. rewrite Hi. auto.
      * exists before, r0, (after ++ [r]). rewrite <- app_assoc. simpl.
        rewrite forallb_app, Hafter. simpl. rewrite Hr. auto.
    + intros (before & r0 & after & E & Hi & Hafter).
      destruct after as [|x after _] using rev_ind.
      * apply app_inj_tail in E as [-> ->]. auto.
      * rewrite app_comm_cons, app_assoc in E. apply app_inj_tail in E as [-> ->].
        rewrite forallb_app in Hafter. apply andb_prop in Hafter as [Hafter Hx].
        simpl in Hx. rewrite andb_true_r in Hx. apply negb_true_iff in Hx.
        right. split; [|exact Hx]. eauto 10.
Qed.

(** X17: in any run of the server from an empty token store, a request to
    a guarded path passes the middleware only if it carries, as its bearer
    token, the text some earlier login with the valid credentials was
    given, and no logout has named that token in between. *)
Theorem access_requires_login (requests : list Auth.Request) (path : string)
    (authorization : option string) :
  Auth.guarded path = true ->
  last (Auth.serve (requests ++ [Auth.Other path authorization]) ∅).1 = Some Auth.next ->
  exists token before r after,
    authorization = Some ("Bearer " +:+ token)
    /\ requests = before ++ r :: after
    /\ Auth.issues token r = true
    /\ forallb (fun r' => negb (Auth.revokes token r')) after = true.
Proof.
  intros Hg. rewrite serve_app.
  destruct (Auth.serve requests ∅) as [answers1 t1] eqn:Hs1. simpl.
  rewrite last_snoc. intros H. injection H as H.
  unfold Auth.authMiddleware in H. rewrite guarded_spec in Hg.
  apply negb_true_iff in Hg. rewrite Hg in H.
  destruct (Auth.bearer authorization) as [token|] eqn:Hb; [|discriminate].
  apply bearer_spec in Hb as ->. unfold Auth.isValidToken in H.
  case_bool_decide as Hin; [|discriminate].
  exists token. change t1 with (answers1, t1).2 in Hin. rewrite <- Hs1 in Hin.
  apply serve_tokens in Hin as (before & r & after & -> & Hi & Hafter).
  eauto 10.
Qed.

Lemma access_requires_login_witness :
  exists token before r after,
    Some "Bearer t1" = Some ("Bearer " +:+ token)
    /\ [Auth.Login Server.credentials "t1"; Auth.Check None] = before ++ r :: after
    /\ Auth.issues token r = true
    /\ forallb (fun r' => negb (Auth.revokes token r')) after = true.
Proof.
  apply (access_requires_login [Auth.Login Server.credentials "t1"; Auth.Check None]
           "/api/files" (Some "Bearer t1")).
  - reflexivity.
  - vm_compute. reflexivity.
Defined.

(** X18: a websocket connection is accepted only with a token that some
    earlier login with the valid credentials was given and no logout has
    named since; it is then sent [connected] first, followed by the
    [session_info] of the active session if there is one. *)
Theorem connection_requires_login (requests : list Auth.Request)
    (token : option string) (w : World) (frames : list Frame.t) :
  WebSocket.onConnection token (Auth.serve requests ∅).2 w = Some frames ->
  (exists t before r after,
     token = Some t
     /\ t <> ""
     /\ requests = before ++ r :: after
     /\ Auth.issues t r = true
     /\ forallb (fun r' => negb (Auth.revokes t r')) after = true)
  /\ frames = Frame.connected ::
               match session w with
               | Some s => [Frame.session_info (id s) (projectPath s)]
               | None => []
               end.
Proof.
  unfold WebSocket.onConnection, Auth.isValidToken, getSession.
  destruct token as [t|]; [|discriminate].
  destruct (String.eqb t "") eqn:Ht; simpl; [discriminate|].
  case_bool_decide as Hin; [|discriminate].
  intros H. injection H as <-. split; [|reflexivity].
  apply serve_tokens in Hin as (before & r & after & -> & Hi & Hafter).
  apply String.eqb_neq in Ht. eauto 10.
Qed.

Lemma connection_requires_login_witness :
  (exists t before r after,
     Some "t1" = Some t
     /\ t <> ""
     /\ [Auth.Login Server.credentials "t1"; Auth.Logout (Some "Bearer t0")]
        = before ++ r :: after
     /\ Auth.issues t r = true
     /\ forallb (fun r' => negb (Auth.revokes t r')) after = true)
  /\ [Frame.connected; Frame.session_info "s-1" "/work"]
     = Frame.connected ::
       match session (Scenario.active 0) with
       | Some s => [Frame.session_info (id s) (projectPath s)]
       | None => []
       end.
Proof.
  apply (connection_requires_login
           [Auth.Login Server.credentials "t1"; Auth.Logout (Some "Bearer t0")]
           (Some "t1") (Scenario.active 0)).
  vm_compute. reflexivity.
Defined.

(** ** The routes of the session *)

Lemma append_assoc (a b c : string) : (a +:+ b) +:+ c = a +:+ (b +:+ c).
Proof.
  induction a as [|x a IH]; [reflexivity|].
  change (String x ((a +:+ b) +:+ c) = String x (a +:+ (b +:+ c))).
  rewrite IH. reflexivity.
Qed.

(** X19: the check of [POST /api/session] accepts exactly the allowed roots
    and the paths that continue an allowed root with the separator.  A
    directory beside a root whose name merely starts like it is refused;
    what follows the separator is not looked at, so a path that climbs out
    of the root with [..] is accepted. *)
Theorem isAllowed_iff (sep : string) (projectRoots : list string) (path : string) :
  Routes.isAllowed sep projectRoots path = true
  <-> exists root,
        root ∈ projectRoots
        /\ (path = root \/ exists rest, path = root +:+ sep +:+ rest).
Proof.
  unfold Routes.isAllowed. rewrite existsb_exists. split.
  - intros (root & Hin & H). exists root. split; [apply list_elem_of_In; exact Hin|].
    apply orb_true_iff in H as [H|H].
    + right. apply prefix_spec in H as [rest ->]. exists rest. apply append_assoc.
    + left. apply String.eqb_eq. exact H.
  - intros (root & Hin & H). exists root. split; [apply list_elem_of_In; exact Hin|].
    apply orb_true_iff. destruct H as [->|[rest ->]].
    + right. apply String.eqb_refl.
    + left. apply prefix_spec. exists rest. symmetry. apply append_assoc.
Qed.

Lemma createSession_session boot processEnv path w w' r :
  createSession boot processEnv path w = (w', r) ->
  match r with
  | inl _ => session w' = None
  | inr sessionId =>
      sessionId = randomUUID boot
      /\ exists s', session w' = Some s' /\ id s' = sessionId /\ projectPath s' = path
                    /\ currentModelIndex s' = 0
  end.
Proof.
  unfold createSession. intros H.
  assert (Hnone : session (match session w with Some _ => closeSession w | None => w end)
                  = None).
  { destruct (session w) eqn:Hs; [|exact Hs]. unfold closeSession. rewrite Hs. reflexivity. }
  destruct (initialize boot); [|destruct (refreshAuth boot _)];
    injection H as <- <-; try exact Hnone.
  split; [reflexivity|]. eexists. split; [reflexivity|]. repeat split.
Qed.

(** X20: [POST /api/session] answers 200, 400, 403 or 500.  It answers 200
    only for a path that is a string, passes the check of the roots and is
    a directory, and then the session is the new one, for that path, on
    the first model.  Answering 400 or 403 it leaves the manager as it
    was; answering 500 it does so too, or has closed the session, which
    is what a failed [createSession] leaves behind. *)
Theorem postSession_outcomes sep basename stat projectRoots boot processEnv body
    w w' reply :
  Routes.postSession sep basename stat projectRoots boot processEnv body w
  = (w', reply) ->
  (Http.code reply = 200 ->
   exists path s',
     Value.get "projectPath" body = Some (Value.str path)
     /\ Routes.isAllowed sep projectRoots path = true
     /\ stat path = Routes.isDirectory
     /\ session w' = Some s'
     /\ projectPath s' = path
     /\ id s' = randomUUID boot
     /\ currentModelIndex s' = 0
     /\ Http.body reply
        = Value.object [("sessionId", Value.str (id s'));
                        ("projectPath", Value.str path);
                        ("projectName", Value.str (basename path))])
  /\ (Http.code reply = 400 \/ Http.code reply = 403 -> w' = w)
  /\ (Http.code reply = 500 -> w' = w \/ session w' = None)
  /\ Http.code reply ∈ [200; 400; 403; 500].
Proof.
  unfold Routes.postSession. intros H.
  assert (Hfail : forall status text,
            status ∈ [400; 403; 500] ->
            (w, Http.failure status text) = (w', reply) ->
            (Http.code reply = 200 -> False)
            /\ w' = w
            /\ Http.code reply ∈ [200; 400; 403; 500]).
  { intros status text Hin E. injection E as <- <-. simpl.
    rewrite !elem_of_cons, elem_of_nil in *.
    split; [|split; [reflexivity|tauto]].
    intros ->. destruct Hin as [?|[?|[?|[]]]]; discriminate. }
  assert (Hdone : forall status text,
            status ∈ [400; 403; 500] ->
            (w, Http.failure status text) = (w', reply) ->
            (Http.code reply = 200 ->
             exists path s',
               Value.get "projectPath" body = Some (Value.str path)
               /\ Routes.isAllowed sep projectRoots path = true
               /\ stat path = Routes.isDirectory
               /\ session w' = Some s'
               /\ projectPath s' = path
               /\ id s' = randomUUID boot
               /\ currentModelIndex s' = 0
               /\ Http.body reply
                  = Value.object [("sessionId", Value.str (id s'));
                                  ("projectPath", Value.str path);
                                  ("projectName", Value.str (basename path))])
            /\ (Http.code reply = 400 \/ Http.code reply = 403 -> w' = w)
            /\ (Http.code reply = 500 -> w' = w \/ session w' = None)
            /\ Http.code reply ∈ [200; 400; 403; 500]).
  { intros status text Hin E. destruct (Hfail status text Hin E) as (H200 & -> & Hcode).
    split; [intros E200; destruct (H200 E200)|auto]. }
  destruct (Value.get "projectPath" body) as [projectPath|] eqn:Hget;
    [|eapply Hdone; [|exact H]; rewrite !elem_of_cons; auto].
  destruct (Value.truthy projectPath) eqn:Htruthy; simpl in H;
    [|eapply Hdone; [|exact H]; rewrite !elem_of_cons; auto].
  destruct projectPath as [| | | |path| |];
    try (destruct projectRoots; (eapply Hdone; [|exact H]); rewrite !elem_of_cons; auto).
  destruct (Routes.isAllowed sep projectRoots path) eqn:Hallowed; simpl in H;
    [|eapply Hdone; [|exact H]; rewrite !elem_of_cons; auto].
  destruct (stat path) eqn:Hstat;
    try (eapply Hdone; [|exact H]; rewrite !elem_of_cons; auto).
  clear Hfail Hdone.
  destruct (createSession boot processEnv path w) as [w1 [err|sessionId]] eqn:Hc;
    apply createSession_session in Hc; injection H as <- <-; simpl.
  - split; [discriminate|]. split; [intros [?|?]; discriminate|].
    split; [auto|rewrite !elem_of_cons; auto].
  - destruct Hc as (-> & s' & Hs' & Hid & Hp & Hi).
    split; [|split; [intros [?|?]; discriminate|split; [discriminate|rewrite !elem_of_cons; auto]]].
    intros _. exists path, s'. rewrite Hid. repeat split; assumption.
Qed.

Lemma postSession_outcomes_witness :
  exists path s',
    Value.get "projectPath" (Value.object [("projectPath", Value.str "/roots/app")])
    = Some (Value.str path)
    /\ Routes.isAllowed "/" ["/roots"] path = true
    /\ Routes.isDirectory = Routes.isDirectory
    /\ session (Routes.postSession "/" (fun p => p) (fun _ => Routes.isDirectory)
                  ["/roots"] Server.boot ∅
                  (Value.object [("projectPath", Value.str "/roots/app")])
                  Server.busy).1 = Some s'
    /\ projectPath s' = path
    /\ id s' = "s-2"
    /\ currentModelIndex s' = 0
    /\ Http.body (Routes.postSession "/" (fun p => p) (fun _ => Routes.isDirectory)
                    ["/roots"] Server.boot ∅
                    (Value.object [("projectPath", Value.str "/roots/app")])
                    Server.busy).2
       = Value.object [("sessionId", Value.str (id s'));
                       ("projectPath", Value.str path);
                       ("projectName", Value.str path)].
Proof.
  refine (proj1 (postSession_outcomes "/" (fun p => p) (fun _ => Routes.isDirectory)
                   ["/roots"] Server.boot ∅
                   (Value.object [("projectPath", Value.str "/roots/app")])
                   Server.busy _ _ _) _).
  - vm_compute. reflexivity.
  - reflexivity.
Defined.

(** ** The project roots *)

Lemma chars_text (l : list Ascii.ascii) : WebConfig.chars (WebConfig.text l) = l.
Proof. apply String.list_ascii_of_string_of_list_ascii. Qed.

Lemma text_empty (l : list Ascii.ascii) : WebConfig.text l = "" <-> l = [].
Proof. destruct l; simpl; split; congruence. Qed.

Lemma strip_spec (p s r : list Ascii.ascii) :
  WebConfig.strip p s = Some r <-> s = p ++ r.
Proof.
  revert s. induction p as [|a p IH]; intros s; simpl.
  - split; congruence.
  - destruct s as [|b s]; [split; discriminate|].
    destruct (Ascii.eqb_spec a b) as [->|Hne].
    + rewrite IH. split; congruence.
    + split; [discriminate|congruence].
Qed.

Lemma stripAny_Some patterns s r :
  WebConfig.stripAny patterns s = Some r ->
  exists p, p ∈ patterns /\ s = p ++ r.
Proof.
  induction patterns as [|p patterns IH]; simpl; [discriminate|].
  destruct (WebConfig.strip p s) as [rest|] eqn:Hp.
  - intros H. injection H as ->. apply strip_spec in Hp.
    exists p. split; [apply list_elem_of_here|exact Hp].
  - intros H. destruct (IH H) as (q & Hq & E).
    exists q. split; [apply list_elem_of_further; exact Hq|exact E].
Qed.

Lemma stripAny_None patterns s :
  WebConfig.stripAny patterns s = None ->
  forall p, p ∈ patterns -> ~ p `prefix_of` s.
Proof.
  induction patterns as [|q patterns IH]; simpl; intros H p Hin.
  - apply elem_of_nil in Hin. destruct Hin.
  - destruct (WebConfig.strip q s) as [rest|] eqn:Hq; [discriminate|].
    apply elem_of_cons in Hin as [->|Hin]; [|eauto].
    intros [k Hk]. apply strip_spec in Hk. congruence.
Qed.

Lemma stripAll_suffix patterns n : forall s,
  WebConfig.stripAll patterns n s `suffix_of` s.
Proof.
  induction n as [|n IH]; intros s; simpl; [reflexivity|].
  destruct (WebConfig.stripAny patterns s) as [rest|] eqn:Hs; [|reflexivity].
  apply stripAny_Some in Hs as (p & _ & ->).
  etrans; [apply IH|]. apply suffix_app_r. reflexivity.
Qed.

Lemma stripAll_done patterns n : forall s,
  Forall (fun p => p <> []) patterns ->
  length s <= n ->
  WebConfig.stripAny patterns (WebConfig.stripAll patterns n s) = None.
Proof.
  induction n as [|n IH]; intros s Hne Hlen; simpl.
  - destruct s; [|simpl in Hlen; lia].
    destruct (WebConfig.stripAny patterns []) as [rest|] eqn:Hs; [|reflexivity].
    apply stripAny_Some in Hs as (p & Hin & E).
    rewrite Forall_forall in Hne. specialize (Hne p Hin).
    destruct p; [congruence|discriminate].
  - destruct (WebConfig.stripAny patterns s) as [rest|] eqn:Hs; [|exact Hs].
    pose proof Hs as Hs'. apply stripAny_Some in Hs' as (p & Hin & ->).
    apply IH; [exact Hne|].
    rewrite Forall_forall in Hne. specialize (Hne p Hin).
    rewrite length_app in Hlen. destruct p; [congruence|simpl in Hlen; lia].
Qed.

Lemma whiteSpace_nonempty : Forall (fun p => p <> []) WebConfig.whiteSpace.
Proof. vm_compute. repeat constructor; discriminate. Qed.

Lemma trimStart_spec (s : list Ascii.ascii) :
  (forall space, space ∈ WebConfig.whiteSpace ->
                 ~ space `prefix_of` WebConfig.trimStart s)
  /\ WebConfig.trimStart s `suffix_of` s.
Proof.
  split; [|apply stripAll_suffix].
  apply stripAny_None, stripAll_done; [apply whiteSpace_nonempty|reflexivity].
Qed.

Lemma trimEnd_spec (s : list Ascii.ascii) :
  (forall space, space ∈ WebConfig.whiteSpace ->
                 ~ space `suffix_of` WebConfig.trimEnd s)
  /\ WebConfig.trimEnd s `prefix_of` s.
Proof.
  unfold WebConfig.trimEnd.
  set (patterns := map (@rev Ascii.ascii) WebConfig.whiteSpace).
  set (u := WebConfig.stripAll patterns (length s) (rev s)).
  assert (Hne : Forall (fun p => p <> []) patterns).
  { apply Forall_forall. intros p Hp. apply list_elem_of_fmap in Hp as (q & -> & Hq).
    pose proof whiteSpace_nonempty as Hw. rewrite Forall_forall in Hw.
    specialize (Hw q Hq). destruct q; [congruence|]. simpl. 
    intros E. apply app_eq_nil in E as [_ E]. discriminate. }
  pose proof (stripAll_done patterns (length s) (rev s) Hne) as Hdone.
  rewrite length_rev in Hdone. specialize (Hdone (le_n _)). fold u in Hdone.
  pose proof (stripAll_suffix patterns (length s) (rev s)) as [k Hk]. fold u in Hk.
  split.
  - intros space Hin [k' Hk'].
    apply (stripAny_None _ _ Hdone (rev space)).
    + apply list_elem_of_fmap. eauto.
    + exists (rev k'). rewrite <- rev_app_distr, <- Hk', rev_involutive. reflexivity.
  - exists (rev k). rewrite <- rev_app_distr, <- Hk, rev_involutive. reflexivity.
Qed.

Lemma splitChars_pieces sep s :
  Forall (fun piece => (sep ∉ piece) /\ exists a b, s = a ++ piece ++ b)
    (WebConfig.splitChars sep s)
  /\ exists first others,
       WebConfig.splitChars sep s = first :: others /\ first `prefix_of` s.
Proof.
  induction s as [|c s [IH (first & others & Hsplit & [k Hk])]]; simpl.
  - split.
    + constructor; [|constructor]. split; [apply not_elem_of_nil|]. exists [], []. reflexivity.
    + exists [], []. split; [reflexivity|]. exists []. reflexivity.
  - assert (Hrest : Forall (fun piece => (sep ∉ piece)
                                         /\ exists a b, c :: s = a ++ piece ++ b)
                      (WebConfig.splitChars sep s)).
    { eapply Forall_impl; [exact IH|]. intros piece [Hno (a & b & E)].
      split; [exact Hno|]. exists (c :: a), b. rewrite E. reflexivity. }
    destruct (Ascii.eqb_spec c sep) as [->|Hne].
    + split.
      * constructor; [|exact Hrest]. split; [apply not_elem_of_nil|].
        exists [], (sep :: s). reflexivity.
      * exists [], (WebConfig.splitChars sep s). split; [reflexivity|].
        exists (sep :: s). reflexivity.
    + rewrite Hsplit. rewrite Hsplit in Hrest, IH.
      apply Forall_cons in Hrest as [_ Hothers]. apply Forall_cons in IH as [[Hno _] _].
      split.
      * constructor; [|exact Hothers]. split.
        -- intros Hin. apply elem_of_cons in Hin as [->|Hin]; [congruence|auto].
        -- exists [], k. rewrite Hk. reflexivity.
      * exists (c :: first), others. split; [reflexivity|].
        exists k. rewrite Hk. reflexivity.
Qed.

Lemma loadConfig_roots number parseInt processEnv roots root :
  processEnv !! "PROJECT_ROOTS" = Some roots ->
  roots <> "" ->
  root ∈ WebConfig.projectRoots (WebConfig.loadConfig number parseInt processEnv) ->
  root <> ""
  /\ exists piece,
       piece ∈ WebConfig.splitChars WebConfig.comma (WebConfig.chars roots)
       /\ WebConfig.chars root = WebConfig.trimEnd (WebConfig.trimStart piece).
Proof.
  intros Henv Hne. unfold WebConfig.loadConfig. simpl. rewrite Henv.
  destruct (String.eqb_spec roots "") as [?|_]; [contradiction|].
  rewrite list_elem_of_In, filter_In, <- list_elem_of_In.
  intros [Hin Hnonempty]. split.
  - intros ->. discriminate.
  - unfold WebConfig.split in Hin. rewrite <- list_fmap_compose in Hin.
    apply list_elem_of_fmap in Hin as (piece & -> & Hpiece).
    exists piece. split; [exact Hpiece|].
    unfold compose, WebConfig.trim. rewrite !chars_text. reflexivity.
Qed.

(** X21: every project root [loadConfig] reads from a [PROJECT_ROOTS]
    that is set and not empty is a part of its text that is not empty,
    holds no comma, and neither starts nor ends with white space. *)
Theorem projectRoots_wellformed number parseInt processEnv roots root :
  processEnv !! "PROJECT_ROOTS" = Some roots ->
  roots <> "" ->
  root ∈ WebConfig.projectRoots (WebConfig.loadConfig number parseInt processEnv) ->
  root <> ""
  /\ (WebConfig.comma ∉ WebConfig.chars root)
  /\ (forall space, space ∈ WebConfig.whiteSpace ->
        ~ space `prefix_of` WebConfig.chars root
        /\ ~ space `suffix_of` WebConfig.chars root)
  /\ exists before after,
       WebConfig.chars roots = before ++ WebConfig.chars root ++ after.
Proof.
  intros Henv Hne Hin.
  destruct (loadConfig_roots _ _ _ _ _ Henv Hne Hin) as (Hroot & piece & Hpiece & ->).
  destruct (splitChars_pieces WebConfig.comma (WebConfig.chars roots)) as [Hall _].
  rewrite Forall_forall in Hall. destruct (Hall piece Hpiece) as (Hno & a & b & E).
  destruct (trimStart_spec piece) as [Hstart [l Hl]].
  destruct (trimEnd_spec (WebConfig.trimStart piece)) as [Hend [r Hr]].
  remember (WebConfig.trimStart piece) as started eqn:Hs.
  remember (WebConfig.trimEnd started) as trimmed eqn:Ht.
  clear Hs Ht Hall Hpiece.
  split; [exact Hroot|]. split; [|split].
  - intros Hc. apply Hno. rewrite Hl, Hr. rewrite !elem_of_app. auto.
  - intros space Hspace. split; [|apply Hend; exact Hspace].
    intros [k Hk]. apply (Hstart space Hspace).
    exists (k ++ r). rewrite Hr, Hk, <- app_assoc. reflexivity.
  - exists (a ++ l), (r ++ b). rewrite E, Hl, Hr, <- !app_assoc. reflexivity.
Qed.

Lemma projectRoots_wellformed_witness :
  "/b/c" <> ""
  /\ (WebConfig.comma ∉ WebConfig.chars "/b/c")
  /\ (forall space, space ∈ WebConfig.whiteSpace ->
        ~ space `prefix_of` WebConfig.chars "/b/c"
        /\ ~ space `suffix_of` WebConfig.chars "/b/c")
  /\ exists before after,
       WebConfig.chars " /a , /b/c,, ,/d " = before ++ WebConfig.chars "/b/c" ++ after.
Proof.
  apply (projectRoots_wellformed nat (fun _ => 0)
           {["PROJECT_ROOTS" := " /a , /b/c,, ,/d "]} " /a , /b/c,, ,/d " "/b/c").
  - reflexivity.
  - discriminate.
  - vm_compute. apply list_elem_of_further, list_elem_of_here.
Defined.

Lemma stripAll_spaces n : forall s,
  Forall (fun c => c = WebConfig.space) s -> length s <= n ->
  WebConfig.stripAll WebConfig.whiteSpace n s = [].
Proof.
  induction n as [|n IH]; intros s Hs Hlen.
  - destruct s; [reflexivity|simpl in Hlen; lia].
  - destruct s as [|c s]; [reflexivity|].
    apply Forall_cons in Hs as [-> Hs].
    change (WebConfig.stripAll WebConfig.whiteSpace (S n) (WebConfig.space :: s))
      with (WebConfig.stripAll WebConfig.whiteSpace n s).
    apply IH; [exact Hs|simpl in Hlen; lia].
Qed.

Lemma splitChars_spaces s :
  Forall (fun c => c = WebConfig.comma \/ c = WebConfig.space) s ->
  Forall (Forall (fun c => c = WebConfig.space)) (WebConfig.splitChars WebConfig.comma s).
Proof.
  induction s as [|c s IH]; intros Hs; simpl.
  - repeat constructor.
  - apply Forall_cons in Hs as [Hc Hs]. specialize (IH Hs).
    destruct (Ascii.eqb_spec c WebConfig.comma) as [->|Hne].
    + constructor; [constructor|exact IH].
    + destruct Hc as [?| ->]; [contradiction|].
      destruct (WebConfig.splitChars WebConfig.comma s) as [|first others].
      * repeat constructor.
      * apply Forall_cons in IH as [Hfirst Hothers].
        constructor; [constructor; [reflexivity|exact Hfirst]|exact Hothers].
Qed.

Lemma isAllowed_no_roots (sep path : string) : Routes.isAllowed sep [] path = false.
Proof. reflexivity. Qed.

(** X22: a [PROJECT_ROOTS] made of commas and blanks only does not give
    the default roots but no root at all, and with it
    [POST /api/session] creates no session, whatever is asked for. *)
Theorem blank_roots_deny_all number parseInt processEnv roots :
  processEnv !! "PROJECT_ROOTS" = Some roots ->
  roots <> "" ->
  Forall (fun c => c = WebConfig.comma \/ c = WebConfig.space) (WebConfig.chars roots) ->
  WebConfig.projectRoots (WebConfig.loadConfig number parseInt processEnv) = []
  /\ forall sep basename stat boot body w w' reply,
       Routes.postSession sep basename stat
         (WebConfig.projectRoots (WebConfig.loadConfig number parseInt processEnv))
         boot processEnv body w = (w', reply) ->
       Http.code reply <> 200 /\ w' = w.
Proof.
  intros Henv Hne Hblank.
  assert (Hroots : WebConfig.projectRoots (WebConfig.loadConfig number parseInt processEnv)
                   = []).
  { destruct (WebConfig.projectRoots _) as [|root others] eqn:Hr; [reflexivity|].
    assert (Hin : root ∈ WebConfig.projectRoots
                           (WebConfig.loadConfig number parseInt processEnv))
      by (rewrite Hr; apply list_elem_of_here).
    destruct (loadConfig_roots _ _ _ _ _ Henv Hne Hin) as (Hroot & piece & Hpiece & E).
    pose proof (splitChars_spaces _ Hblank) as Hall.
    rewrite Forall_forall in Hall. specialize (Hall piece Hpiece).
    unfold WebConfig.trimStart in E. rewrite stripAll_spaces in E by auto.
    destruct Hroot. destruct root; [reflexivity|discriminate]. }
  split; [exact Hroots|]. rewrite Hroots.
  intros sep basename stat boot body w w' reply H.
  unfold Routes.postSession in H.
  destruct (Value.get "projectPath" body) as [projectPath|];
    [|injection H as <- <-; split; [discriminate|reflexivity]].
  destruct (Value.truthy projectPath); simpl in H;
    [|injection H as <- <-; split; [discriminate|reflexivity]].
  destruct projectPath; injection H as <- <-; split; try discriminate; reflexivity.
Qed.

Lemma blank_roots_deny_all_witness :
  WebConfig.projectRoots
    (WebConfig.loadConfig nat (fun _ => 0) {["PROJECT_ROOTS" := " , ,"]}) = [].
Proof.
  refine (proj1 (blank_roots_deny_all nat (fun _ => 0) {["PROJECT_ROOTS" := " , ,"]}
                   " , ," eq_refl _ _)).
  - discriminate.
  - vm_compute.
    repeat (apply List.Forall_cons; [first [left; reflexivity|right; reflexivity]|]).
    apply List.Forall_nil.
Defined.
